(** * pbs: SPH fluid simulator and boundary particle generator

    A shallow embedding of [src/sim/SPH.h] and
    [src/geometry/ParticleGenerator.cpp].

    Numbers.  The C++ [float] is idealised as a real number ([R]): every
    arithmetic operation is exact, there is no rounding, no overflow and no
    NaN; a division by zero gives some real number, not an infinity.  [int]
    and [size_t] values are [Z] and [nat]; the loops of the source never
    reach the limits of these types on the inputs considered.  Where a
    property holds of the reals and not of the floats, the difference is
    shown on the module [Binary32], which has the integration and collision
    blocks of [update] over IEEE binary32 values.

    Loops.  [SPH::iterate] is taken in its serial branch: the bodies run
    for i = 0, 1, ... in turn, each on the state the one before it left.

    Vectors.  [Vector3f] (core/Vector.h, an Eigen column vector) is a record
    of three reals; a default-constructed [Vector3f] is the zero vector, as
    [computeNormals] and [computeForces] rely on.

    Arrays.  A [std::vector] is a [list]; [v[i]] is the total lookup
    [v !!! i] and [v[i] = a] is [<[i:=a]> v].  Out of range the C++ is
    undefined; here the read gives the zero element and the write does
    nothing.  Every index the simulator uses is in range, since the
    constructor resizes all per-particle buffers to the particle count. *)

From Stdlib Require Import Reals Lra Lia ZArith List Permutation.
From Stdlib Require Floats.SpecFloat.
From stdpp Require Import base list gmap strings.

#[local] Open Scope R_scope.

(** Comparisons of reals are decided, as the comparisons of floats are. *)
#[global] Instance Rlt_decision (a b : R) : Decision (a < b) := Rlt_dec a b.
#[global] Instance Rgt_decision (a b : R) : Decision (a > b) := Rgt_dec a b.
#[global] Instance Rle_decision (a b : R) : Decision (a <= b) := Rle_dec a b.
#[global] Instance R_eq_decision : EqDecision R := Req_dec_T.

(** ** core/Common.h and core/Vector.h *)

Definition sqr (a : R) : R := a * a.
Definition cube (a : R) : R := a * a * a.

Record Vector3f : Type := mkVector3f { vx : R; vy : R; vz : R }.

Declare Scope vec_scope.
Delimit Scope vec_scope with V.
Bind Scope vec_scope with Vector3f.

Definition vconst (s : R) : Vector3f := mkVector3f s s s.
Definition vzero : Vector3f := vconst 0.
Definition vadd (a b : Vector3f) : Vector3f :=
  mkVector3f (vx a + vx b) (vy a + vy b) (vz a + vz b).
Definition vsub (a b : Vector3f) : Vector3f :=
  mkVector3f (vx a - vx b) (vy a - vy b) (vz a - vz b).
Definition vopp (a : Vector3f) : Vector3f :=
  mkVector3f (- vx a) (- vy a) (- vz a).
Definition vscale (a : Vector3f) (s : R) : Vector3f :=
  mkVector3f (vx a * s) (vy a * s) (vz a * s).
Definition vdiv (a : Vector3f) (s : R) : Vector3f :=
  mkVector3f (vx a / s) (vy a / s) (vz a / s).
Definition cwiseProduct (a b : Vector3f) : Vector3f :=
  mkVector3f (vx a * vx b) (vy a * vy b) (vz a * vz b).
Definition cwiseQuotient (a b : Vector3f) : Vector3f :=
  mkVector3f (vx a / vx b) (vy a / vy b) (vz a / vz b).
Definition dot (a b : Vector3f) : R :=
  vx a * vx b + vy a * vy b + vz a * vz b.
Definition cross (a b : Vector3f) : Vector3f :=
  mkVector3f (vy a * vz b - vz a * vy b)
             (vz a * vx b - vx a * vz b)
             (vx a * vy b - vy a * vx b).
Definition squaredNorm (a : Vector3f) : R := dot a a.
Definition norm (a : Vector3f) : R := sqrt (squaredNorm a).
(** Eigen's [normalized()]: the vector divided by its norm. *)
Definition normalized (a : Vector3f) : Vector3f := vdiv a (norm a).
(** [Vector3f(x, y, z)] from three [int]s. *)
Definition vofZ (a b c : Z) : Vector3f := mkVector3f (IZR a) (IZR b) (IZR c).

Infix "+v" := vadd (at level 50, left associativity) : vec_scope.
Infix "-v" := vsub (at level 50, left associativity) : vec_scope.
Infix "*s" := vscale (at level 40, left associativity) : vec_scope.
Infix "/s" := vdiv (at level 40, left associativity) : vec_scope.
(** [s * v], a scalar times a vector. *)
Definition smul (s : R) (a : Vector3f) : Vector3f := vscale a s.

#[global] Instance Vector3f_inhabited : Inhabited Vector3f := populate vzero.
#[global] Instance R_inhabited : Inhabited R := populate 0.

(** ** core/Box.h *)

Record Box3f : Type := mkBox3f { box_min : Vector3f; box_max : Vector3f }.

Definition extents (b : Box3f) : Vector3f := (box_max b -v box_min b)%V.
Definition center (b : Box3f) : Vector3f :=
  ((box_max b +v box_min b) *s (1 / 2))%V.

(** Modelled from the spec: [Box3f::expanded] and [Box3f::majorAxis]
    (core/Box.h is not among the sources).  The spec expands the bounding
    box "on each side" and divides the extent of the major axis by the cell
    count; ties between axes go to the lower one. *)
Definition expanded (b : Box3f) (v : Vector3f) : Box3f :=
  mkBox3f (box_min b -v v)%V (box_max b +v v)%V.
Definition coeff (v : Vector3f) (axis : nat) : R :=
  match axis with O => vx v | 1%nat => vy v | _ => vz v end.
Definition majorAxis (b : Box3f) : nat :=
  let d := extents b in
  let largest := if decide (coeff d 0 < coeff d 1) then 1%nat else 0%nat in
  if decide (coeff d largest < coeff d 2) then 2%nat else largest.

(** ** geometry/Mesh.h, geometry/VoxelGrid.h, geometry/SDF.h, pcg32.h

    These headers are not among the sources; the generator uses them
    through the interfaces below. *)

(** A triangle mesh: the columns of [vertices()] and of [triangles()]. *)
Record Mesh : Type := mkMesh {
  vertices : list Vector3f;
  triangles : list (nat * nat * nat)
}.

(** [Mesh::computeBounds], and a [VoxelGrid<float>] holding a signed
    distance field: [buildSDF mesh size origin cellSize] is the grid after
    [VoxelGrid(size)], [setOrigin], [setCellSize] and [SDF::build]. *)
Class Geometry (VoxelGrid : Type) : Type := {
  computeBounds : Mesh -> Box3f;
  buildSDF : Mesh -> Z * Z * Z -> Vector3f -> R -> VoxelGrid;
  toVoxelSpace : VoxelGrid -> Vector3f -> Vector3f;
  gradient : VoxelGrid -> Vector3f -> Vector3f;
  trilinear : VoxelGrid -> Vector3f -> R
}.

(** [pcg32]: [defaultRng] is the default-constructed generator (fixed seed)
    and [nextFloat] returns the draw and the advanced generator. *)
Class RandomGen (Rng : Type) : Type := {
  defaultRng : Rng;
  nextFloat : Rng -> R * Rng
}.

(** The generator itself, for the properties that depend on the draws it
    makes.  With pcg32.h absent, what follows is the published algorithm of
    that header, the PCG32 generator (XSH-RR, 64 bits of state, 32 bits of
    output): the state advances by a linear congruence modulo 2^64 and the
    output is a xorshift of the old state rotated right by its top five
    bits.  A default-constructed generator starts from two fixed
    constants. *)
Record pcg32 : Type := mkPcg32 { state : Z; inc : Z }.

Definition PCG32_DEFAULT_STATE : Z := 0x853c49e6748fea9b.
Definition PCG32_DEFAULT_STREAM : Z := 0xda3e39cb94b95bdb.
Definition PCG32_MULT : Z := 0x5851f42d4c957f2d.

(** Wrap-around of [uint32_t] and [uint64_t]. *)
Definition uint32 (a : Z) : Z := (a mod 2 ^ 32)%Z.
Definition uint64 (a : Z) : Z := (a mod 2 ^ 64)%Z.

(** [nextUInt()]: the output and the advanced generator. *)
Definition nextUInt (g : pcg32) : Z * pcg32 :=
  let oldstate := state g in
  let g' := mkPcg32 (uint64 (oldstate * PCG32_MULT + inc g)) (inc g) in
  let xorshifted :=
    uint32 (Z.shiftr (Z.lxor (Z.shiftr oldstate 18) oldstate) 27) in
  let rot := uint32 (Z.shiftr oldstate 59) in
  (uint32 (Z.lor (Z.shiftr xorshifted rot)
                 (Z.shiftl xorshifted (Z.land (uint32 (- rot)) 31))), g').

(** [nextFloat()]: the top 23 bits of [nextUInt()] become the mantissa of a
    float of [1, 2), from which 1 is subtracted: the draw is k / 2^23 for
    the integer k of those bits, with no rounding. *)
Definition pcg32_nextFloat (g : pcg32) : R * pcg32 :=
  (IZR (Z.shiftr (nextUInt g).1 9) / 8388608, (nextUInt g).2).

(** [seed(initstate, initseq)]. *)
Definition seed (initstate initseq : Z) : pcg32 :=
  let g := mkPcg32 0 (uint64 (Z.lor (Z.shiftl initseq 1) 1)) in
  let g := (nextUInt g).2 in
  let g := mkPcg32 (uint64 (state g + initstate)) (inc g) in
  (nextUInt g).2.

(** The first [n] outputs of [nextUInt()]. *)
Fixpoint outputs (n : nat) (g : pcg32) : list Z :=
  match n with
  | O => []
  | Datatypes.S n => (nextUInt g).1 :: outputs n (nextUInt g).2
  end.

Definition pcg32_random : RandomGen pcg32 :=
  {| defaultRng := mkPcg32 PCG32_DEFAULT_STATE PCG32_DEFAULT_STREAM;
     nextFloat := pcg32_nextFloat |}.

(** ** Loops *)

(** The integers [lo, lo+1, ..., hi-1] in increasing order. *)
Definition zrange (lo hi : Z) : list Z :=
  map (fun k => (lo + Z.of_nat k)%Z) (seq 0 (Z.to_nat (hi - lo))).

(** [for (int k = lo; k < hi; ++k) body(k)] on a state of type [S]. *)
Definition forZ {S : Type} (lo hi : Z) (body : Z -> S -> S) (s : S) : S :=
  fold_left (fun st k => body k st) (zrange lo hi) s.

(** [for (size_t i = lo; i < hi; ++i) body(i)]. *)
Definition forN {S : Type} (lo hi : nat) (body : nat -> S -> S) (s : S) : S :=
  fold_left (fun st i => body i st) (seq lo (hi - lo)) s.

(** Statements that update a state of type [S]: [a >>> b] runs [a], then
    [b]; [when c a] is [if (c) a]. *)
Definition andThen {S : Type} (a b : S -> S) : S -> S := fun s => b (a s).
Definition when {S : Type} (c : S -> Prop) {dec : forall s, Decision (c s)}
    (a : S -> S) : S -> S :=
  fun s => if decide (c s) then a s else s.
Infix ">>>" := andThen (at level 61, left associativity).

(** The C conditional [c ? a : b] on an [int] condition. *)
Definition ternary {A : Type} (c : Z) (a b : A) : A :=
  if (c =? 0)%Z then b else a.

(** ** geometry/ParticleGenerator.cpp: box surfaces *)

Module ParticleGenerator.

Record Result : Type := mkResult {
  positions : list Vector3f;
  normals : list Vector3f
}.

Definition emptyResult : Result := mkResult [] [].

(** The lambda [addParticle], with its captures as leading arguments. *)
Definition addParticle (origin d : Vector3f) (normalScale : R)
    (x y z : Z) (n : Vector3f) (res : Result) : Result :=
  {| positions := positions res ++ [(origin +v cwiseProduct (vofZ x y z) d)%V];
     normals := normals res ++ [(n *s normalScale)%V] |}.

(** The loops of the box generator, each a function on the two vectors
    being filled.  Within a loop body the calls of [addParticle] nest: the
    innermost is the first call of the source. *)
Section BoxLoops.
Variables (origin d : Vector3f) (normalScale : R) (nx ny nz : Z).

Let add := addParticle origin d normalScale.

Definition xyPlanes : Result -> Result :=
  forZ 1 nx (fun x => forZ 1 ny (fun y res =>
    add x y nz (mkVector3f 0 0 (-1)) (add x y 0%Z (mkVector3f 0 0 1) res))).

Definition xzPlanes : Result -> Result :=
  forZ 1 nx (fun x => forZ 1 nz (fun z res =>
    add x ny z (mkVector3f 0 (-1) 0) (add x 0%Z z (mkVector3f 0 1 0) res))).

Definition yzPlanes : Result -> Result :=
  forZ 1 ny (fun y => forZ 1 nz (fun z res =>
    add nx y z (mkVector3f (-1) 0 0) (add 0%Z y z (mkVector3f 1 0 0) res))).

Definition xBorders : Result -> Result :=
  forZ 1 nx (fun x res =>
    add x ny nz (normalized (mkVector3f 0 (-1) (-1)))
   (add x 0%Z nz (normalized (mkVector3f 0 1 (-1)))
   (add x ny 0%Z (normalized (mkVector3f 0 (-1) 1))
   (add x 0%Z 0%Z (normalized (mkVector3f 0 1 1)) res)))).

Definition yBorders : Result -> Result :=
  forZ 1 ny (fun y res =>
    add nx y nz (normalized (mkVector3f (-1) 0 (-1)))
   (add 0%Z y nz (normalized (mkVector3f 1 0 (-1)))
   (add nx y 0%Z (normalized (mkVector3f (-1) 0 1))
   (add 0%Z y 0%Z (normalized (mkVector3f 1 0 1)) res)))).

Definition zBorders : Result -> Result :=
  forZ 1 nz (fun z res =>
    add nx ny z (normalized (mkVector3f (-1) (-1) 0))
   (add 0%Z ny z (normalized (mkVector3f 1 (-1) 0))
   (add nx 0%Z z (normalized (mkVector3f (-1) 1 0))
   (add 0%Z 0%Z z (normalized (mkVector3f 1 1 0)) res)))).

Definition corners : Result -> Result :=
  forZ 0 8 (fun c res =>
    let x := Z.land c 1 in
    let y := Z.land (Z.shiftr c 1) 1 in
    let z := Z.land (Z.shiftr c 2) 1 in
    add (ternary x 0%Z nx) (ternary y 0%Z ny) (ternary z 0%Z nz)
        (normalized (mkVector3f (ternary x 1 (-1)) (ternary y 1 (-1))
                                (ternary z 1 (-1))))
        res).

Definition boxParticles : Result :=
  corners (zBorders (yBorders (xBorders
    (yzPlanes (xzPlanes (xyPlanes emptyResult)))))).
End BoxLoops.

(** [generateSurfaceParticles(const Box3f &box, float particleRadius)]. *)
Definition generateSurfaceParticles_box (box : Box3f) (particleRadius : R)
    : Result :=
  let origin := box_min box in
  let ext := extents box in
  let nx := Zceil (vx ext / (2 * particleRadius)) in
  let ny := Zceil (vy ext / (2 * particleRadius)) in
  let nz := Zceil (vz ext / (2 * particleRadius)) in
  let d := cwiseQuotient ext (vofZ nx ny nz) in
  let normalScale := -1 in
  boxParticles origin d normalScale nx ny nz.

(** ** geometry/ParticleGenerator.cpp: mesh surfaces *)

Section MeshSurface.
Context {VoxelGrid Rng : Type}.
Context {geometry : Geometry VoxelGrid} {random : RandomGen Rng}.

(** The locals the seeding loop updates. *)
Record Seeding : Type := mkSeeding {
  rng : Rng;
  seeds : list Vector3f;
  totalArea : R
}.

(** The lambda [samplePoint]: two draws, one appended position. *)
Definition samplePoint (p0 e0 e1 : Vector3f) (st : Seeding) : Seeding :=
  let (s, rng1) := nextFloat (rng st) in
  let (t, rng2) := nextFloat rng1 in
  let ss := sqrt s in
  {| rng := rng2;
     seeds := seeds st ++ [(p0 +v e0 *s t *s ss +v e1 *s (1 - ss))%V];
     totalArea := totalArea st |}.

(** The body of the loop over the triangles. *)
Definition seedTriangle (mesh : Mesh) (density : R) (i : nat)
    (st : Seeding) : Seeding :=
  let '(i0, i1, i2) := triangles mesh !!! i in
  let p0 := vertices mesh !!! i0 in
  let p1 := vertices mesh !!! i1 in
  let p2 := vertices mesh !!! i2 in
  let e0 := (p1 -v p0)%V in
  let e1 := (p2 -v p0)%V in
  let area := 1 / 2 * Rabs (norm (cross e0 e1)) in
  let st := {| rng := rng st; seeds := seeds st;
               totalArea := totalArea st + area |} in
  let n := density * area in
  let ni := Zfloor n in
  let st := forZ 0 ni (fun _ => samplePoint p0 e0 e1) st in
  let (u, rng1) := nextFloat (rng st) in
  let st := {| rng := rng1; seeds := seeds st; totalArea := totalArea st |} in
  if decide (u < n) then samplePoint p0 e0 e1 st else st.

(** "Generate initial point distribution". *)
Definition seedMesh (mesh : Mesh) (density : R) : Seeding :=
  forN 0 (length (triangles mesh)) (seedTriangle mesh density)
    {| rng := defaultRng; seeds := []; totalArea := 0 |}.

(** The locals of one relaxation sweep. *)
Record Relax : Type := mkRelax {
  points : list Vector3f;
  velocities : list Vector3f;
  count : Z
}.

(** The body of the inner loop over [j > i]. *)
Definition relaxPair (radius2 : R) (i j : nat) (st : Relax) : Relax :=
  let r := (points st !!! j -v points st !!! i)%V in
  let r2 := squaredNorm r in
  if decide (r2 < radius2) then
    let r := (r *s (1 / sqrt r2))%V in
    let weight := 1 / 100 * cube (1 - r2 / radius2) in
    let vel := velocities st in
    let vel := <[i := (vel !!! i -v r *s weight)%V]> vel in
    let vel := <[j := (vel !!! j +v r *s weight)%V]> vel in
    {| points := points st; velocities := vel; count := (count st + 1)%Z |}
  else st.

(** "Relax positions": the loop over [i]. *)
Definition relaxPositions (radius2 : R) (st : Relax) : Relax :=
  let size := length (points st) in
  forN 0 size (fun i st =>
    let st := forN (i + 1) size (relaxPair radius2 i) st in
    {| points := <[i := (points st !!! i +v velocities st !!! i)%V]> (points st);
       velocities := velocities st; count := count st |}) st.


(** "Reproject to surface". *)
Definition reproject (sdf : VoxelGrid) (pts : list Vector3f) : list Vector3f :=
  forN 0 (length pts) (fun i pts =>
    let p := toVoxelSpace sdf (pts !!! i) in
    let n := normalized (gradient sdf p) in
    <[i := (pts !!! i -v n *s trilinear sdf p)%V]> pts) pts.

(** One of the ten iterations, without the [DBG] statement that ends it
    (its argument is [avgNeighbours] of the state after "Relax
    positions"). *)
Definition relaxIteration (sdf : VoxelGrid) (radius2 : R)
    (pts : list Vector3f) : list Vector3f :=
  let st := {| points := pts;
               velocities := replicate (length pts) vzero;
               count := 0%Z |} in
  reproject sdf (points (relaxPositions radius2 st)).

(** "Compute normals". *)
Definition orientNormals (sdf : VoxelGrid) (pts : list Vector3f)
    : list Vector3f :=
  forN 0 (length pts) (fun i nrm =>
    <[i := normalized (gradient sdf (toVoxelSpace sdf (pts !!! i)))]> nrm)
    (replicate (length pts) vzero).

(** [generateSurfaceParticles(const Mesh &mesh, float particleRadius,
    int cells)]. *)
Definition generateSurfaceParticles_mesh (mesh : Mesh) (particleRadius : R)
    (cells : Z) : Result :=
  let density := 1 / (PI * sqr particleRadius) in
  let bounds := computeBounds mesh in
  let bounds := expanded bounds (extents bounds *s (1 / 10))%V in
  let cellSize := coeff (extents bounds) (majorAxis bounds) / IZR cells in
  let size := (Zceil (vx (extents bounds) / cellSize),
               Zceil (vy (extents bounds) / cellSize),
               Zceil (vz (extents bounds) / cellSize)) in
  let sdf := buildSDF mesh size (box_min bounds) cellSize in
  let seeded := seedMesh mesh density in
  let pts := seeds seeded in
  let radius := sqrt (totalArea seeded / INR (length pts) * 10 / PI) in
  let radius2 := sqr radius in
  let pts := forZ 0 10 (fun _ => relaxIteration sdf radius2) pts in
  {| positions := pts; normals := orientNormals sdf pts |}.

End MeshSurface.

End ParticleGenerator.

(** ** sim/Kernel.h *)

(** The kernel object: each kernel function with its constant. *)
Record Kernel : Type := mkKernel {
  poly6 : R -> R;
  poly6Constant : R;
  poly6Grad : Vector3f -> R -> Vector3f;
  poly6GradConstant : R;
  spikyGrad : Vector3f -> R -> Vector3f;
  spikyGradConstant : R;
  viscosityLaplace : R -> R;
  viscosityLaplaceConstant : R;
  surfaceTension : R -> R;
  surfaceTensionConstant : R
}.

(** Modelled from the spec: [Kernel::init] (sim/Kernel.h is not among the
    sources).  The spec's section on kernels gives each function on [0, h]
    with its normalisation constant and asks for 0 outside [0, h]; it gives
    the same algebraic form for both branches of the surface tension
    kernel. *)
Definition Kernel_init (h : R) : Kernel :=
  let h2 := sqr h in
  let h6 := cube h2 in
  let h9 := cube (cube h) in
  let inside (r : R) := bool_decide (0 <= r /\ r <= h) in
  let inside2 (r2 : R) := bool_decide (0 <= r2 /\ r2 <= h2) in
  {| poly6 := fun r2 => if inside2 r2 then cube (h2 - r2) else 0;
     poly6Constant := 315 / (64 * PI * h9);
     poly6Grad := fun r r2 => if inside2 r2 then (r *s sqr (h2 - r2))%V else vzero;
     poly6GradConstant := - 945 / (32 * PI * h9);
     spikyGrad := fun r rn => if inside rn then (r /s rn *s sqr (h - rn))%V else vzero;
     spikyGradConstant := - 45 / (PI * h6);
     viscosityLaplace := fun rn => if inside rn then h - rn else 0;
     viscosityLaplaceConstant := 45 / (PI * h6);
     surfaceTension := fun rn =>
       if inside rn then 2 * cube (h - rn) * cube rn - h6 / 64 else 0;
     surfaceTensionConstant := 32 / (PI * h9) |}.

(** ** sim/Grid.h *)

(** The uniform grid, through the three operations the simulator calls.
    [grid_update g positions] is the grid rebuilt over [positions] together
    with the calls [swap(i, j)] it makes, in order; [grid_lookup g p radius]
    is the sequence of indices it passes to the visitor. *)
Class GridOps (Grid : Type) : Type := {
  grid_init : Box3f -> R -> Grid;
  grid_update : Grid -> list Vector3f -> Grid * list (nat * nat);
  grid_lookup : Grid -> Vector3f -> R -> list nat
}.

(** ** sim/Scene.h, geometry/ObjReader.h, geometry/Voxelizer.h *)

Inductive MeshType : Type := Liquid | Boundary.

Record SceneMesh : Type := mkSceneMesh { filename : string; type : MeshType }.

(** The scene: [settings.getFloat(name, default)] and
    [settings.getVector3(name, default)] read a property map. *)
Record Scene : Type := mkScene {
  floats : gmap string R;
  vectors : gmap string Vector3f;
  world_bounds : Box3f;
  boxes : list Box3f;
  spheres : list (Vector3f * R);
  meshes : list SceneMesh
}.

Definition getFloat (scene : Scene) (name : string) (def : R) : R :=
  default def (floats scene !! name).
Definition getVector3 (scene : Scene) (name : string) (def : Vector3f)
    : Vector3f :=
  default def (vectors scene !! name).

(** [ObjReader::load] and [Voxelizer::voxelize(mesh, cellSize, positions)],
    which appends to [positions]. *)
Class MeshIO : Type := {
  ObjReader_load : string -> Mesh;
  Voxelizer_voxelize : Mesh -> R -> list Vector3f -> list Vector3f
}.

(** ** sim/SPH.h *)

Module SPH.

Record Parameters : Type := mkParameters {
  particleRadius : R;
  particleDiameter : R;
  kernelRadius : R;
  kernelSupportParticles : Z;
  particleMass : R;
  restDensity : R
}.

(** The anonymous struct [wcsph]. *)
Record WCSPH : Type := mkWCSPH {
  gamma : R;
  cs : R;
  B : R;
  viscosity : R;
  dt : R
}.

Section Simulator.
Context {Grid : Type} {grid : GridOps Grid}.

(** The data members of [class SPH].  [_particleRadius2] is left out: the
    constructor assigns it the square of its own indeterminate value and
    nothing reads it.  [_boundaryGrid] is left out: nothing uses it. *)
Record SPH : Type := mkSPH {
  _particleRadius : R;
  _particleDiameter : R;
  _kernelRadius : R;
  _kernelRadius2 : R;
  _kernelSupportParticles : Z;
  _restDensity : R;
  _particleMass : R;
  _particleMass2 : R;
  _maxTimestep : R;
  _gravity : Vector3f;
  wcsph : WCSPH;
  _kernel : Kernel;
  _bounds : Box3f;
  _fluidPositions : list Vector3f;
  _fluidVelocities : list Vector3f;
  _fluidNormals : list Vector3f;
  _fluidForces : list Vector3f;
  _fluidDensities : list R;
  _fluidPressures : list R;
  _fluidGrid : Grid;
  _boundaryPositions : list Vector3f;
  _boundaryNormals : list Vector3f;
  _t : R
}.

Definition set_fluidPositions (a : list Vector3f) (s : SPH) : SPH :=
  mkSPH (_particleRadius s) (_particleDiameter s) (_kernelRadius s)
    (_kernelRadius2 s) (_kernelSupportParticles s) (_restDensity s)
    (_particleMass s) (_particleMass2 s) (_maxTimestep s) (_gravity s)
    (wcsph s) (_kernel s) (_bounds s) a (_fluidVelocities s)
    (_fluidNormals s) (_fluidForces s) (_fluidDensities s)
    (_fluidPressures s) (_fluidGrid s) (_boundaryPositions s)
    (_boundaryNormals s) (_t s).
Definition set_fluidVelocities (a : list Vector3f) (s : SPH) : SPH :=
  mkSPH (_particleRadius s) (_particleDiameter s) (_kernelRadius s)
    (_kernelRadius2 s) (_kernelSupportParticles s) (_restDensity s)
    (_particleMass s) (_particleMass2 s) (_maxTimestep s) (_gravity s)
    (wcsph s) (_kernel s) (_bounds s) (_fluidPositions s) a
    (_fluidNormals s) (_fluidForces s) (_fluidDensities s)
    (_fluidPressures s) (_fluidGrid s) (_boundaryPositions s)
    (_boundaryNormals s) (_t s).
Definition set_fluidNormals (a : list Vector3f) (s : SPH) : SPH :=
  mkSPH (_particleRadius s) (_particleDiameter s) (_kernelRadius s)
    (_kernelRadius2 s) (_kernelSupportParticles s) (_restDensity s)
    (_particleMass s) (_particleMass2 s) (_maxTimestep s) (_gravity s)
    (wcsph s) (_kernel s) (_bounds s) (_fluidPositions s)
    (_fluidVelocities s) a (_fluidForces s) (_fluidDensities s)
    (_fluidPressures s) (_fluidGrid s) (_boundaryPositions s)
    (_boundaryNormals s) (_t s).
Definition set_fluidForces (a : list Vector3f) (s : SPH) : SPH :=
  mkSPH (_particleRadius s) (_particleDiameter s) (_kernelRadius s)
    (_kernelRadius2 s) (_kernelSupportParticles s) (_restDensity s)
    (_particleMass s) (_particleMass2 s) (_maxTimestep s) (_gravity s)
    (wcsph s) (_kernel s) (_bounds s) (_fluidPositions s)
    (_fluidVelocities s) (_fluidNormals s) a (_fluidDensities s)
    (_fluidPressures s) (_fluidGrid s) (_boundaryPositions s)
    (_boundaryNormals s) (_t s).
Definition set_fluidDensities (a : list R) (s : SPH) : SPH :=
  mkSPH (_particleRadius s) (_particleDiameter s) (_kernelRadius s)
    (_kernelRadius2 s) (_kernelSupportParticles s) (_restDensity s)
    (_particleMass s) (_particleMass2 s) (_maxTimestep s) (_gravity s)
    (wcsph s) (_kernel s) (_bounds s) (_fluidPositions s)
    (_fluidVelocities s) (_fluidNormals s) (_fluidForces s) a
    (_fluidPressures s) (_fluidGrid s) (_boundaryPositions s)
    (_boundaryNormals s) (_t s).
Definition set_fluidPressures (a : list R) (s : SPH) : SPH :=
  mkSPH (_particleRadius s) (_particleDiameter s) (_kernelRadius s)
    (_kernelRadius2 s) (_kernelSupportParticles s) (_restDensity s)
    (_particleMass s) (_particleMass2 s) (_maxTimestep s) (_gravity s)
    (wcsph s) (_kernel s) (_bounds s) (_fluidPositions s)
    (_fluidVelocities s) (_fluidNormals s) (_fluidForces s)
    (_fluidDensities s) a (_fluidGrid s) (_boundaryPositions s)
    (_boundaryNormals s) (_t s).
Definition set_fluidGrid (a : Grid) (s : SPH) : SPH :=
  mkSPH (_particleRadius s) (_particleDiameter s) (_kernelRadius s)
    (_kernelRadius2 s) (_kernelSupportParticles s) (_restDensity s)
    (_particleMass s) (_particleMass2 s) (_maxTimestep s) (_gravity s)
    (wcsph s) (_kernel s) (_bounds s) (_fluidPositions s)
    (_fluidVelocities s) (_fluidNormals s) (_fluidForces s)
    (_fluidDensities s) (_fluidPressures s) a (_boundaryPositions s)
    (_boundaryNormals s) (_t s).
Definition set_boundaryPositions (a : list Vector3f) (s : SPH) : SPH :=
  mkSPH (_particleRadius s) (_particleDiameter s) (_kernelRadius s)
    (_kernelRadius2 s) (_kernelSupportParticles s) (_restDensity s)
    (_particleMass s) (_particleMass2 s) (_maxTimestep s) (_gravity s)
    (wcsph s) (_kernel s) (_bounds s) (_fluidPositions s)
    (_fluidVelocities s) (_fluidNormals s) (_fluidForces s)
    (_fluidDensities s) (_fluidPressures s) (_fluidGrid s) a
    (_boundaryNormals s) (_t s).
Definition set_boundaryNormals (a : list Vector3f) (s : SPH) : SPH :=
  mkSPH (_particleRadius s) (_particleDiameter s) (_kernelRadius s)
    (_kernelRadius2 s) (_kernelSupportParticles s) (_restDensity s)
    (_particleMass s) (_particleMass2 s) (_maxTimestep s) (_gravity s)
    (wcsph s) (_kernel s) (_bounds s) (_fluidPositions s)
    (_fluidVelocities s) (_fluidNormals s) (_fluidForces s)
    (_fluidDensities s) (_fluidPressures s) (_fluidGrid s)
    (_boundaryPositions s) a (_t s).
Definition set_t (a : R) (s : SPH) : SPH :=
  mkSPH (_particleRadius s) (_particleDiameter s) (_kernelRadius s)
    (_kernelRadius2 s) (_kernelSupportParticles s) (_restDensity s)
    (_particleMass s) (_particleMass2 s) (_maxTimestep s) (_gravity s)
    (wcsph s) (_kernel s) (_bounds s) (_fluidPositions s)
    (_fluidVelocities s) (_fluidNormals s) (_fluidForces s)
    (_fluidDensities s) (_fluidPressures s) (_fluidGrid s)
    (_boundaryPositions s) (_boundaryNormals s) a.

(** [iterateNeighbours(grid, positions, p, func)], with [func] acting on
    the state [A] it captures by reference. *)
Definition iterateNeighbours {A : Type} (this : SPH) (grid : Grid)
    (positions : list Vector3f) (p : Vector3f)
    (func : nat -> Vector3f -> R -> A -> A) (a : A) : A :=
  fold_left (fun a j =>
      let r := (p -v positions !!! j)%V in
      let r2 := squaredNorm r in
      if decide (r2 < _kernelRadius2 this) then func j r r2 a else a)
    (grid_lookup grid p (_kernelRadius this)) a.

(** The body of the loop of [computeDensity]. *)
Definition densityAt (i : nat) (this : SPH) : SPH :=
  let density := 0 in
  let density :=
    iterateNeighbours this (_fluidGrid this) (_fluidPositions this)
      (_fluidPositions this !!! i)
      (fun j r r2 density => density + poly6 (_kernel this) r2) density in
  let density :=
    density * (_particleMass this * poly6Constant (_kernel this)) in
  let t := density / _restDensity this in
  let pressure := B (wcsph this) * ((t * t) * (t * t) * (t * t) * t - 1) in
  set_fluidPressures (<[i := pressure]> (_fluidPressures this))
    (set_fluidDensities (<[i := density]> (_fluidDensities this)) this).

Definition computeDensity (this : SPH) : SPH :=
  forN 0 (length (_fluidPositions this)) densityAt this.

(** The body of the loop of [computeNormals]. *)
Definition normalAt (i : nat) (this : SPH) : SPH :=
  let normal := vzero in
  let normal :=
    iterateNeighbours this (_fluidGrid this) (_fluidPositions this)
      (_fluidPositions this !!! i)
      (fun j r r2 normal =>
         (normal +v poly6Grad (_kernel this) r r2 /s _fluidDensities this !!! j)%V)
      normal in
  let normal :=
    (normal *s (_kernelRadius this * _particleMass this
                * poly6GradConstant (_kernel this)))%V in
  set_fluidNormals (<[i := normal]> (_fluidNormals this)) this.

Definition computeNormals (this : SPH) : SPH :=
  forN 0 (length (_fluidPositions this)) normalAt this.

(** The four accumulators of the loop body of [computeForces]. *)
Record Forces : Type := mkForces {
  force : Vector3f;
  forceViscosity : Vector3f;
  forceCohesion : Vector3f;
  forceCurvature : Vector3f
}.

(** The visitor of [computeForces] for particle [i] at candidate [j]: it
    updates the accumulators and may move [_fluidPositions[j]]. *)
Definition forcePair (i j : nat) (st : SPH * Forces) : SPH * Forces :=
  let (this, acc) := st in
  let v_i := _fluidVelocities this !!! i in
  let v_j := _fluidVelocities this !!! j in
  let n_i := _fluidNormals this !!! i in
  let n_j := _fluidNormals this !!! j in
  let density_i := _fluidDensities this !!! i in
  let density_j := _fluidDensities this !!! j in
  let pressure_i := _fluidPressures this !!! i in
  let pressure_j := _fluidPressures this !!! j in
  if decide (i <> j) then
    let r := (_fluidPositions this !!! i -v _fluidPositions this !!! j)%V in
    let r2 := squaredNorm r in
    if decide (r2 < _kernelRadius2 this /\ r2 > 0.00001) then
      let rn := sqrt r2 in
      let force :=
        (force acc -v
           smul (_particleMass2 this
                 * (pressure_i / sqr density_i + pressure_j / sqr density_j)
                 * spikyGradConstant (_kernel this))
                (spikyGrad (_kernel this) r rn))%V in
      let forceViscosity :=
        if decide (density_j > 0.0001) then
          (forceViscosity acc -v
             (v_i -v v_j) *s (viscosityLaplace (_kernel this) rn / density_j))%V
        else forceViscosity acc in
      let correctionFactor := 2 * _restDensity this / (density_i + density_j) in
      let forceCohesion :=
        (forceCohesion acc +v
           smul correctionFactor (r /s rn) *s surfaceTension (_kernel this) rn)%V in
      let forceCurvature :=
        (forceCurvature acc +v smul correctionFactor (n_i -v n_j))%V in
      (this, mkForces force forceViscosity forceCohesion forceCurvature)
    else if decide (r2 = 0) then
      (set_fluidPositions
         (<[j := (_fluidPositions this !!! j +v vconst 1e-5)%V]>
            (_fluidPositions this)) this, acc)
    else st
  else st.

(** The lookup loop of [computeForces] for particle [i]. *)
Definition forceLoop (i : nat) (this : SPH) : SPH * Forces :=
  fold_left (fun st j => forcePair i j st)
    (grid_lookup (_fluidGrid this) (_fluidPositions this !!! i)
       (_kernelRadius this))
    (this, mkForces (vconst 0) vzero vzero vzero).

(** The body of the loop of [computeForces]. *)
Definition forceAt (i : nat) (this : SPH) : SPH :=
  let (this, acc) := forceLoop i this in
  let viscosity := 0.0005 in
  let forceViscosity :=
    (forceViscosity acc *s (viscosity * _particleMass this
                            * viscosityLaplaceConstant (_kernel this)))%V in
  let surfaceTension := 2 in
  let forceCohesion :=
    (forceCohesion acc *s (- surfaceTension * _particleMass2 this
                           * surfaceTensionConstant (_kernel this)))%V in
  let forceCurvature :=
    (forceCurvature acc *s (- surfaceTension * _particleMass this))%V in
  let force :=
    (force acc +v (forceCohesion +v forceCurvature +v forceViscosity))%V in
  let force := (force +v smul (_particleMass this) (_gravity this))%V in
  set_fluidForces (<[i := force]> (_fluidForces this)) this.

Definition computeForces (this : SPH) : SPH :=
  forN 0 (length (_fluidPositions this)) forceAt this.

(** The body of the loop of [computeCollisions(handler)].  [p] is a
    reference to [_fluidPositions[i]]: each test reads the position as the
    handlers before it left it. *)
Definition collideParticle (handler : nat -> Vector3f -> R -> SPH -> SPH)
    (i : nat) : SPH -> SPH :=
  let p (this : SPH) := _fluidPositions this !!! i in
  let bmin (this : SPH) := box_min (_bounds this) in
  let bmax (this : SPH) := box_max (_bounds this) in
  when (fun this => vx (p this) < vx (bmin this))
    (fun this => handler i (mkVector3f 1 0 0) (vx (bmin this) - vx (p this)) this) >>>
  when (fun this => vx (p this) > vx (bmax this))
    (fun this => handler i (mkVector3f (-1) 0 0) (vx (p this) - vx (bmax this)) this) >>>
  when (fun this => vy (p this) < vy (bmin this))
    (fun this => handler i (mkVector3f 0 1 0) (vy (bmin this) - vy (p this)) this) >>>
  when (fun this => vy (p this) > vy (bmax this))
    (fun this => handler i (mkVector3f 0 (-1) 0) (vy (p this) - vy (bmax this)) this) >>>
  when (fun this => vz (p this) < vz (bmin this))
    (fun this => handler i (mkVector3f 0 0 1) (vz (bmin this) - vz (p this)) this) >>>
  when (fun this => vz (p this) > vz (bmax this))
    (fun this => handler i (mkVector3f 0 0 (-1)) (vz (p this) - vz (bmax this)) this).

Definition computeCollisions (handler : nat -> Vector3f -> R -> SPH -> SPH)
    (this : SPH) : SPH :=
  forN 0 (length (_fluidPositions this)) (collideParticle handler) this.

(** The swap callback of the grid update. *)
Definition swapParticles (ij : nat * nat) (this : SPH) : SPH :=
  let (i, j) := ij in
  let pos := _fluidPositions this in
  let vel := _fluidVelocities this in
  set_fluidVelocities (<[j := vel !!! i]> (<[i := vel !!! j]> vel))
    (set_fluidPositions (<[j := pos !!! i]> (<[i := pos !!! j]> pos)) this).

(** "Grid Update". *)
Definition gridUpdate (this : SPH) : SPH :=
  let (grid, swaps) := grid_update (_fluidGrid this) (_fluidPositions this) in
  set_fluidGrid grid (fold_left (fun this ij => swapParticles ij this) swaps this).

(** "Integrate". *)
Definition integrate (dt : R) (this : SPH) : SPH :=
  let invM := 1 / _particleMass this in
  forN 0 (length (_fluidPositions this)) (fun i this =>
    let a := (_fluidForces this !!! i *s invM)%V in
    let this :=
      set_fluidVelocities
        (<[i := (_fluidVelocities this !!! i +v a *s dt)%V]>
           (_fluidVelocities this)) this in
    set_fluidPositions
      (<[i := (_fluidPositions this !!! i +v _fluidVelocities this !!! i *s dt)%V]>
         (_fluidPositions this)) this) this.

(** The collision handler of [update]. *)
Definition collisionHandler (i : nat) (n : Vector3f) (d : R) (this : SPH)
    : SPH :=
  let c := 0.5 in
  let this :=
    set_fluidPositions
      (<[i := (_fluidPositions this !!! i +v n *s d)%V]> (_fluidPositions this))
      this in
  set_fluidVelocities
    (<[i := (_fluidVelocities this !!! i
             -v smul ((1 + c) * dot (_fluidVelocities this !!! i) n) n)%V]>
       (_fluidVelocities this)) this.

(** [update(dt)]. *)
Definition update (dt : R) (this : SPH) : SPH :=
  let this := set_t (_t this + dt) this in
  let this := gridUpdate this in
  let this := computeDensity this in
  let this := computeNormals this in
  let this := computeForces this in
  let this := integrate dt this in
  computeCollisions collisionHandler this.

Definition maxTimestep (this : SPH) : R := _maxTimestep this.
Definition bounds (this : SPH) : Box3f := _bounds this.
Definition parameters (this : SPH) : Parameters :=
  {| particleRadius := _particleRadius this;
     particleDiameter := _particleDiameter this;
     kernelRadius := _kernelRadius this;
     kernelSupportParticles := _kernelSupportParticles this;
     particleMass := _particleMass this;
     restDensity := _restDensity this |}.

End Simulator.

Arguments SPH : clear implicits.

(** Modelled from the spec: the default of the [cells] argument of the mesh
    generator (geometry/ParticleGenerator.h is not among the sources); the
    spec gives "default cells = 500". *)
Definition defaultCells : Z := 500.

Section Construction.
Context {Grid VoxelGrid Rng : Type}.
Context {grid : GridOps Grid} {geometry : Geometry VoxelGrid}.
Context {random : RandomGen Rng} {meshIO : MeshIO}.

Definition addBoundaryParticles (result : ParticleGenerator.Result)
    (this : SPH Grid) : SPH Grid :=
  set_boundaryNormals
    (_boundaryNormals this ++ ParticleGenerator.normals result)
    (set_boundaryPositions
       (_boundaryPositions this ++ ParticleGenerator.positions result) this).

Definition voxelizeBox (box : Box3f) (this : SPH Grid) : SPH Grid :=
  let d := _particleDiameter this in
  let '(minx, miny, minz) :=
    (Zceil (vx (box_min box) / d), Zceil (vy (box_min box) / d),
     Zceil (vz (box_min box) / d)) in
  let '(maxx, maxy, maxz) :=
    (Zfloor (vx (box_max box) / d), Zfloor (vy (box_max box) / d),
     Zfloor (vz (box_max box) / d)) in
  forZ minz (maxz + 1) (fun z =>
    forZ miny (maxy + 1) (fun y =>
      forZ minx (maxx + 1) (fun x this =>
        let p := mkVector3f (IZR x * d) (IZR y * d) (IZR z * d) in
        set_fluidPositions (_fluidPositions this ++ [p]) this))) this.

Definition voxelizeSphere (pos : Vector3f) (radius : R) (this : SPH Grid)
    : SPH Grid :=
  let d := _particleDiameter this in
  let '(minx, miny, minz) :=
    (Zceil ((vx pos - radius) / d), Zceil ((vy pos - radius) / d),
     Zceil ((vz pos - radius) / d)) in
  let '(maxx, maxy, maxz) :=
    (Zfloor ((vx pos + radius) / d), Zfloor ((vy pos + radius) / d),
     Zfloor ((vz pos + radius) / d)) in
  let r2 := sqr radius in
  forZ minz (maxz + 1) (fun z =>
    forZ miny (maxy + 1) (fun y =>
      forZ minx (maxx + 1) (fun x this =>
        let p := mkVector3f (IZR x * d) (IZR y * d) (IZR z * d) in
        if decide (squaredNorm (p -v pos) <= r2)
        then set_fluidPositions (_fluidPositions this ++ [p]) this
        else this))) this.

Definition voxelizeMesh (sceneMesh : SceneMesh) (this : SPH Grid)
    : SPH Grid :=
  let mesh := ObjReader_load (filename sceneMesh) in
  match type sceneMesh with
  | Liquid =>
      set_fluidPositions
        (Voxelizer_voxelize mesh (_particleDiameter this) (_fluidPositions this))
        this
  | Boundary =>
      addBoundaryParticles
        (ParticleGenerator.generateSurfaceParticles_mesh
           (VoxelGrid := VoxelGrid) (Rng := Rng)
           mesh (_particleRadius this) defaultCells) this
  end.

(** The constructor [SPH(const Scene &scene)].  The call that generates the
    boundary particles of the world box passes a third argument, [true];
    the definition among the sources takes the box and the radius only, and
    it is that definition that is called here. *)
Definition new (scene : Scene) : SPH Grid :=
  let particleRadius := getFloat scene "particleRadius" 0.01 in
  let particleDiameter := 2 * particleRadius in
  let kernelRadius := 4 * particleRadius in
  let kernelRadius2 := sqr kernelRadius in
  let kernelSupportParticles :=
    Zceil ((4 / 3 * PI * cube kernelRadius) / cube particleDiameter) in
  let restDensity := getFloat scene "restDensity" 1000 in
  let particleMass := restDensity / cube (1 / particleDiameter) in
  let particleMass2 := sqr particleMass in
  let gravity := getVector3 scene "gravity" (mkVector3f 0 (-9.81) 0) in
  let gamma := 7 in
  let cs := 10 in
  let viscosity := 0.005 in
  let B := restDensity * sqr cs / gamma in
  let dt :=
    Rmin (0.25 * kernelRadius / (particleMass * 9.81))
         (0.4 * kernelRadius / (cs * (1 + 0.6 * viscosity))) in
  let maxTimestep := 1e-3 in
  let bounds := world_bounds scene in
  let this :=
    {| _particleRadius := particleRadius;
       _particleDiameter := particleDiameter;
       _kernelRadius := kernelRadius;
       _kernelRadius2 := kernelRadius2;
       _kernelSupportParticles := kernelSupportParticles;
       _restDensity := restDensity;
       _particleMass := particleMass;
       _particleMass2 := particleMass2;
       _maxTimestep := maxTimestep;
       _gravity := gravity;
       wcsph := mkWCSPH gamma cs B viscosity dt;
       _kernel := Kernel_init kernelRadius;
       _bounds := bounds;
       _fluidPositions := [];
       _fluidVelocities := [];
       _fluidNormals := [];
       _fluidForces := [];
       _fluidDensities := [];
       _fluidPressures := [];
       _fluidGrid := grid_init bounds kernelRadius;
       _boundaryPositions := [];
       _boundaryNormals := [];
       _t := 0 |} in
  let this := fold_left (fun this box => voxelizeBox box this) (boxes scene) this in
  let this :=
    fold_left (fun this sphere => voxelizeSphere sphere.1 sphere.2 this)
      (spheres scene) this in
  let this :=
    fold_left (fun this mesh => voxelizeMesh mesh this) (meshes scene) this in
  let this :=
    addBoundaryParticles
      (ParticleGenerator.generateSurfaceParticles_box bounds particleRadius)
      this in
  let size := length (_fluidPositions this) in
  set_fluidPressures (replicate size 0)
    (set_fluidDensities (replicate size 0)
       (set_fluidForces (replicate size vzero)
          (set_fluidNormals (replicate size vzero)
             (set_fluidVelocities (replicate size vzero) this)))).

End Construction.
End SPH.

(** ** sim/SPH.h over binary32: the last two blocks of [update] *)

Module Binary32.

(** A [float]: an IEEE binary32 value (24 bits of precision, infinities at
    exponent 128).  The operations round to nearest, ties to even. *)
Definition float : Type := SpecFloat.spec_float.
Definition prec : Z := 24.
Definition emax : Z := 128.

Definition fadd : float -> float -> float := SpecFloat.SFadd prec emax.
Definition fsub : float -> float -> float := SpecFloat.SFsub prec emax.
Definition fmul : float -> float -> float := SpecFloat.SFmul prec emax.
Definition fdiv : float -> float -> float := SpecFloat.SFdiv prec emax.
(** [a < b]; [a > b] is [flt b a].  Both are false when either is a NaN. *)
Definition flt : float -> float -> bool := SpecFloat.SFltb.

(** The float nearest to [m * 2^e], and the float of an integer literal
    such as [1.f]. *)
Definition dyadic (m e : Z) : float :=
  SpecFloat.binary_normalize prec emax m e false.
Definition literal (m : Z) : float := dyadic m 0.

Record Vector3f : Type := mkVector3f { vx : float; vy : float; vz : float }.

(** Eigen evaluates these coefficient by coefficient, each operation
    rounded on its own.  The order in which [dot] adds the three products
    is Eigen's business; it is taken from left to right. *)
Definition vadd (a b : Vector3f) : Vector3f :=
  mkVector3f (fadd (vx a) (vx b)) (fadd (vy a) (vy b)) (fadd (vz a) (vz b)).
Definition vsub (a b : Vector3f) : Vector3f :=
  mkVector3f (fsub (vx a) (vx b)) (fsub (vy a) (vy b)) (fsub (vz a) (vz b)).
Definition vscale (a : Vector3f) (s : float) : Vector3f :=
  mkVector3f (fmul (vx a) s) (fmul (vy a) s) (fmul (vz a) s).
Definition smul (s : float) (a : Vector3f) : Vector3f :=
  mkVector3f (fmul s (vx a)) (fmul s (vy a)) (fmul s (vz a)).
Definition dot (a b : Vector3f) : float :=
  fadd (fadd (fmul (vx a) (vx b)) (fmul (vy a) (vy b))) (fmul (vz a) (vz b)).

#[global] Instance Vector3f_zero : Inhabited Vector3f :=
  populate (mkVector3f (literal 0) (literal 0) (literal 0)).

Record Box3f : Type := mkBox3f { box_min : Vector3f; box_max : Vector3f }.

(** The data members of [class SPH] that the blocks "Integrate" and
    "Collision Update" read or write. *)
Record SPH : Type := mkSPH {
  _particleMass : float;
  _bounds : Box3f;
  _fluidPositions : list Vector3f;
  _fluidVelocities : list Vector3f;
  _fluidForces : list Vector3f
}.

Definition set_fluidPositions (a : list Vector3f) (s : SPH) : SPH :=
  mkSPH (_particleMass s) (_bounds s) a (_fluidVelocities s) (_fluidForces s).
Definition set_fluidVelocities (a : list Vector3f) (s : SPH) : SPH :=
  mkSPH (_particleMass s) (_bounds s) (_fluidPositions s) a (_fluidForces s).

(** The body of the loop of [computeCollisions(handler)]. *)
Definition collideParticle (handler : nat -> Vector3f -> float -> SPH -> SPH)
    (i : nat) : SPH -> SPH :=
  let p (this : SPH) := _fluidPositions this !!! i in
  let bmin (this : SPH) := box_min (_bounds this) in
  let bmax (this : SPH) := box_max (_bounds this) in
  when (fun this => flt (vx (p this)) (vx (bmin this)))
    (fun this =>
       handler i (mkVector3f (literal 1) (literal 0) (literal 0))
         (fsub (vx (bmin this)) (vx (p this))) this) >>>
  when (fun this => flt (vx (bmax this)) (vx (p this)))
    (fun this =>
       handler i (mkVector3f (literal (-1)) (literal 0) (literal 0))
         (fsub (vx (p this)) (vx (bmax this))) this) >>>
  when (fun this => flt (vy (p this)) (vy (bmin this)))
    (fun this =>
       handler i (mkVector3f (literal 0) (literal 1) (literal 0))
         (fsub (vy (bmin this)) (vy (p this))) this) >>>
  when (fun this => flt (vy (bmax this)) (vy (p this)))
    (fun this =>
       handler i (mkVector3f (literal 0) (literal (-1)) (literal 0))
         (fsub (vy (p this)) (vy (bmax this))) this) >>>
  when (fun this => flt (vz (p this)) (vz (bmin this)))
    (fun this =>
       handler i (mkVector3f (literal 0) (literal 0) (literal 1))
         (fsub (vz (bmin this)) (vz (p this))) this) >>>
  when (fun this => flt (vz (bmax this)) (vz (p this)))
    (fun this =>
       handler i (mkVector3f (literal 0) (literal 0) (literal (-1)))
         (fsub (vz (p this)) (vz (bmax this))) this).

Definition computeCollisions (handler : nat -> Vector3f -> float -> SPH -> SPH)
    (this : SPH) : SPH :=
  forN 0 (length (_fluidPositions this)) (collideParticle handler) this.

(** "Integrate". *)
Definition integrate (dt : float) (this : SPH) : SPH :=
  let invM := fdiv (literal 1) (_particleMass this) in
  forN 0 (length (_fluidPositions this)) (fun i this =>
    let a := vscale (_fluidForces this !!! i) invM in
    let this :=
      set_fluidVelocities
        (<[i := vadd (_fluidVelocities this !!! i) (vscale a dt)]>
           (_fluidVelocities this)) this in
    set_fluidPositions
      (<[i := vadd (_fluidPositions this !!! i)
                (vscale (_fluidVelocities this !!! i) dt)]>
         (_fluidPositions this)) this) this.

(** The collision handler of [update]. *)
Definition collisionHandler (i : nat) (n : Vector3f) (d : float) (this : SPH)
    : SPH :=
  let c := dyadic 1 (-1) in
  let this :=
    set_fluidPositions
      (<[i := vadd (_fluidPositions this !!! i) (vscale n d)]>
         (_fluidPositions this)) this in
  set_fluidVelocities
    (<[i := vsub (_fluidVelocities this !!! i)
              (smul (fmul (fadd (literal 1) c)
                          (dot (_fluidVelocities this !!! i) n)) n)]>
       (_fluidVelocities this)) this.


End Binary32.

(** * Reference inputs and the notions the properties are stated with *)

(** The unit box. *)
Definition unitBox : Box3f := mkBox3f (mkVector3f 0 0 0) (mkVector3f 1 1 1).

(** The inward normal of the faces through grid index [k] along one axis
    with [n] steps: [+1] on the face at the minimum, [-1] on the face at
    the maximum, [0] strictly between. *)
Definition inwardComponent (n k : Z) : R :=
  if (k =? 0)%Z then 1 else if (k =? n)%Z then -1 else 0.

(** The sum of the inward normals of the faces incident to grid index
    [(x, y, z)]: one face on a face interior, two on an edge, three at a
    corner. *)
Definition incidentNormalSum (nx ny nz x y z : Z) : Vector3f :=
  mkVector3f (inwardComponent nx x) (inwardComponent ny y)
             (inwardComponent nz z).

(** Grid indices on the surface of the box. *)
Definition onSurface (nx ny nz x y z : Z) : Prop :=
  (0 <= x <= nx /\ 0 <= y <= ny /\ 0 <= z <= nz
   /\ (x = 0 \/ x = nx \/ y = 0 \/ y = ny \/ z = 0 \/ z = nz))%Z.

(** A normal [n] at a surface point [p] of a box points inward when it
    points to the side of the centre, and outward when it points away. *)
Definition inwardPointing (box : Box3f) (p n : Vector3f) : Prop :=
  0 < dot n (center box -v p).
Definition outwardPointing (box : Box3f) (p n : Vector3f) : Prop :=
  dot n (center box -v p) < 0.

(** A generator that returns the draw [u] every time; its state counts the
    draws made. *)
Definition constantRng (u : R) : RandomGen nat :=
  {| defaultRng := 0%nat; nextFloat := fun k => (u, Datatypes.S k) |}.

(** The draw with index [k] (from 0) that a generator in state [g] will
    make. *)
Definition draw {Rng : Type} {random : RandomGen Rng} (k : nat) (g : Rng) : R :=
  (nextFloat (Nat.iter k (fun g => (nextFloat g).2) g)).1.

(** The geometry of the plane z = 0: the signed distance of a point is its
    height, the gradient points up, voxel space is world space. *)
Definition planeGeometry : Geometry unit :=
  {| computeBounds := fun _ => mkBox3f (mkVector3f 0 0 0) (mkVector3f 1 1 1);
     buildSDF := fun _ _ _ _ => tt;
     toVoxelSpace := fun _ p => p;
     gradient := fun _ _ => mkVector3f 0 0 1;
     trilinear := fun _ p => vz p |}.

(** The mesh with the single triangle (0,0,0), (1,0,0), (0,1,0). *)
Definition triangleMesh : Mesh :=
  {| vertices := [mkVector3f 0 0 0; mkVector3f 1 0 0; mkVector3f 0 1 0];
     triangles := [(0%nat, 1%nat, 2%nat)] |}.

(** The area of triangle [i] of a mesh, as the seeding loop computes it. *)
Definition triangleArea (mesh : Mesh) (i : nat) : R :=
  let '(i0, i1, i2) := triangles mesh !!! i in
  let p0 := vertices mesh !!! i0 in
  let p1 := vertices mesh !!! i1 in
  let p2 := vertices mesh !!! i2 in
  1 / 2 * Rabs (norm (cross (p1 -v p0) (p2 -v p0))).

(** The number of samples the spec asks for on a triangle with expected
    count [n] when the draw after the deterministic samples is [u]: the
    integer part of [n], and one more exactly when [u] is below the
    fractional part of [n]. *)
Definition statedSeedCount (n u : R) : nat :=
  let extra := if decide (u < n - IZR (Zfloor n)) then 1%nat else 0%nat in
  (Z.to_nat (Zfloor n) + extra)%nat.

(** The faces of the world box. *)
Inductive Face : Type := XMin | XMax | YMin | YMax | ZMin | ZMax.

(** The inward axis-aligned unit normal of a face. *)
Definition faceNormal (f : Face) : Vector3f :=
  match f with
  | XMin => mkVector3f 1 0 0
  | XMax => mkVector3f (-1) 0 0
  | YMin => mkVector3f 0 1 0
  | YMax => mkVector3f 0 (-1) 0
  | ZMin => mkVector3f 0 0 1
  | ZMax => mkVector3f 0 0 (-1)
  end.

(** The coordinate of a point along the axis of a face, and the value of
    that coordinate on the face. *)
Definition coordinate (f : Face) (p : Vector3f) : R :=
  match f with
  | XMin | XMax => vx p
  | YMin | YMax => vy p
  | ZMin | ZMax => vz p
  end.
Definition faceBound (box : Box3f) (f : Face) : R :=
  match f with
  | XMin | YMin | ZMin => coordinate f (box_min box)
  | XMax | YMax | ZMax => coordinate f (box_max box)
  end.

(** A point violates a face when its coordinate is beyond the face; the
    penetration depth is the distance by which it is. *)
Definition outside (box : Box3f) (f : Face) (p : Vector3f) : Prop :=
  match f with
  | XMin | YMin | ZMin => coordinate f p < faceBound box f
  | XMax | YMax | ZMax => coordinate f p > faceBound box f
  end.
Definition penetration (box : Box3f) (f : Face) (p : Vector3f) : R :=
  match f with
  | XMin | YMin | ZMin => faceBound box f - coordinate f p
  | XMax | YMax | ZMax => coordinate f p - faceBound box f
  end.

#[global] Instance outside_decision box f p : Decision (outside box f p).
Proof. destruct f; simpl; apply _. Defined.

(** The stated response to a collision with normal [n], depth [d] and
    restitution [c], on the position and the velocity of a particle:
    x += n d and v -= (1 + c) (v . n) n. *)
Definition respond (c : R) (n : Vector3f) (d : R)
    (pv : Vector3f * Vector3f) : Vector3f * Vector3f :=
  ((pv.1 +v n *s d)%V, (pv.2 -v smul ((1 + c) * dot pv.2 n) n)%V).

(** The stated collision stage for one particle: each face in turn, with
    restitution 0.5. *)
Definition collideFace (box : Box3f) (f : Face)
    (pv : Vector3f * Vector3f) : Vector3f * Vector3f :=
  if decide (outside box f pv.1)
  then respond 0.5 (faceNormal f) (penetration box f pv.1) pv
  else pv.
Definition collideBox (box : Box3f) (pv : Vector3f * Vector3f)
    : Vector3f * Vector3f :=
  fold_left (fun pv f => collideFace box f pv)
    [XMin; XMax; YMin; YMax; ZMin; ZMax] pv.

(** The projection of a point that violates a face onto that face. *)
Definition projectOnFace (box : Box3f) (f : Face) (p : Vector3f) : Vector3f :=
  if decide (outside box f p) then
    match f with
    | XMin | XMax => mkVector3f (faceBound box f) (vy p) (vz p)
    | YMin | YMax => mkVector3f (vx p) (faceBound box f) (vz p)
    | ZMin | ZMax => mkVector3f (vx p) (vy p) (faceBound box f)
    end
  else p.

(** A point inside a box, faces included. *)
Definition inBox (box : Box3f) (p : Vector3f) : Prop :=
  vx (box_min box) <= vx p <= vx (box_max box)
  /\ vy (box_min box) <= vy p <= vy (box_max box)
  /\ vz (box_min box) <= vz p <= vz (box_max box).

(** One test of the collision stage, for face [f] and particle [i]: when
    the particle violates the face, the handler is called with the normal
    of the face and the penetration depth. *)
Definition faceTest {Grid : Type}
    (handler : nat -> Vector3f -> R -> SPH.SPH Grid -> SPH.SPH Grid)
    (i : nat) (f : Face) : SPH.SPH Grid -> SPH.SPH Grid :=
  when (fun this => outside (SPH._bounds this) f (SPH._fluidPositions this !!! i))
    (fun this =>
       handler i (faceNormal f)
         (penetration (SPH._bounds this) f (SPH._fluidPositions this !!! i))
         this).

(** Two states with the same world box, as many positions and velocities,
    and the same elapsed time. *)
Definition sameShape {Grid : Type} (a b : SPH.SPH Grid) : Prop :=
  SPH._bounds b = SPH._bounds a
  /\ length (SPH._fluidPositions b) = length (SPH._fluidPositions a)
  /\ length (SPH._fluidVelocities b) = length (SPH._fluidVelocities a)
  /\ SPH._t b = SPH._t a.

(** Two states with the same simulation parameters. *)
Definition sameParameters {Grid : Type} (a b : SPH.SPH Grid) : Prop :=
  SPH.parameters b = SPH.parameters a
  /\ SPH._kernelRadius2 b = SPH._kernelRadius2 a
  /\ SPH._particleMass2 b = SPH._particleMass2 a
  /\ SPH._maxTimestep b = SPH._maxTimestep a
  /\ SPH._gravity b = SPH._gravity a
  /\ SPH.wcsph b = SPH.wcsph a
  /\ SPH._kernel b = SPH._kernel a
  /\ SPH._bounds b = SPH._bounds a.

(** A scene with no fluid and no obstacle whose particle radius is 0.005,
    and a reader of meshes that knows of no mesh. *)
Definition fineScene : Scene :=
  {| floats := {[ "particleRadius" := 0.005 ]};
     vectors := ∅;
     world_bounds := mkBox3f (mkVector3f (-1) (-1) (-1)) (mkVector3f 1 1 1);
     boxes := [];
     spheres := [];
     meshes := [] |}.
Definition noMeshes : MeshIO :=
  {| ObjReader_load := fun _ => mkMesh [] [];
     Voxelizer_voxelize := fun _ _ positions => positions |}.

(** The state with the position and the velocity of particle [i]
    overwritten. *)
Definition setParticle {Grid : Type} (i : nat) (pv : Vector3f * Vector3f)
    (s : SPH.SPH Grid) : SPH.SPH Grid :=
  SPH.set_fluidVelocities (<[i := pv.2]> (SPH._fluidVelocities s))
    (SPH.set_fluidPositions (<[i := pv.1]> (SPH._fluidPositions s)) s).

(** The contract of [Grid::lookup] that the simulator relies on, for a
    grid built over [positions]: a query at [p] visits indices of
    particles, none twice, and misses no particle within the radius. *)
Definition lookupContract {Grid : Type} {grid : GridOps Grid} (g : Grid)
    (positions : list Vector3f) (radius : R) : Prop :=
  forall p : Vector3f,
    let visited := grid_lookup g p radius in
    NoDup visited
    /\ (forall j, j ∈ visited -> (j < length positions)%nat)
    /\ (forall j, (j < length positions)%nat ->
                  squaredNorm (p -v positions !!! j) < sqr radius ->
                  j ∈ visited).

(** The grid that visits every particle on every query and never asks
    for a swap; its state is the number of particles. *)
Definition bruteGrid : GridOps nat :=
  {| grid_init := fun _ _ => 0%nat;
     grid_update := fun _ positions => (length positions, []);
     grid_lookup := fun g _ _ => seq 0 g |}.

(** The sum of [f] over a list of indices. *)
Definition sumOver (l : list nat) (f : nat -> R) : R :=
  foldr (fun j acc => f j + acc) 0 l.

(** N(i): the particles within the kernel radius of particle [i]. *)
Definition neighbours {Grid : Type} (s : SPH.SPH Grid) (i : nat) : list nat :=
  filter (fun j => squaredNorm (SPH._fluidPositions s !!! i
                                -v SPH._fluidPositions s !!! j)
                   < SPH._kernelRadius2 s)
    (seq 0 (length (SPH._fluidPositions s))).

(** The state with the density and pressure buffers overwritten. *)
Definition setDP {Grid : Type} (D P : list R) (s : SPH.SPH Grid) : SPH.SPH Grid :=
  SPH.set_fluidPressures P (SPH.set_fluidDensities D s).

(** The stated density and pressure of particle [i]. *)
Definition statedDensity {Grid : Type} (s : SPH.SPH Grid) (i : nat) : R :=
  poly6Constant (SPH._kernel s) * SPH._particleMass s
  * sumOver (neighbours s i) (fun j =>
      poly6 (SPH._kernel s)
        (squaredNorm (SPH._fluidPositions s !!! i -v SPH._fluidPositions s !!! j))).
Definition taitPressure {Grid : Type} (s : SPH.SPH Grid) (rho : R) : R :=
  SPH.B (SPH.wcsph s) * ((rho / SPH._restDensity s) ^ 7 - 1).

(** The pressure-force contribution of particle [i]: the value of the
    accumulator [force] when the lookup loop of [computeForces] for [i],
    entered in state [s], is over. *)
Definition pressureContribution {Grid : Type} {grid : GridOps Grid}
    (i : nat) (s : SPH.SPH Grid) : Vector3f :=
  SPH.force (SPH.forceLoop i s).2.

(** The test that lets a pair contribute, and the term it contributes to
    the pressure force on [i]. *)
Definition inRange {Grid : Type} (s : SPH.SPH Grid) (i j : nat) : Prop :=
  let r2 := squaredNorm (SPH._fluidPositions s !!! i -v SPH._fluidPositions s !!! j) in
  r2 < SPH._kernelRadius2 s /\ r2 > 0.00001.
Definition pairForce {Grid : Type} (s : SPH.SPH Grid) (i j : nat) : Vector3f :=
  let r := (SPH._fluidPositions s !!! i -v SPH._fluidPositions s !!! j)%V in
  smul (SPH._particleMass2 s
        * (SPH._fluidPressures s !!! i / sqr (SPH._fluidDensities s !!! i)
           + SPH._fluidPressures s !!! j / sqr (SPH._fluidDensities s !!! j))
        * spikyGradConstant (SPH._kernel s))
       (spikyGrad (SPH._kernel s) r (sqrt (squaredNorm r))).

(** The state with particle [j] moved by the symmetry-breaking nudge. *)
Definition nudged {Grid : Type} (j : nat) (s : SPH.SPH Grid) : SPH.SPH Grid :=
  SPH.set_fluidPositions
    (<[j := (SPH._fluidPositions s !!! j +v vconst 1e-5)%V]> (SPH._fluidPositions s))
    s.

(** The stated maximum timestep: the smaller of the two terms, capped. *)
Definition statedMaxTimestep (h m : R) (g : Vector3f) (cs nu : R) : R :=
  Rmin (Rmin (0.25 * h / (m * norm g)) (0.4 * h / (cs * (1 + 0.6 * nu)))) 1e-3.

(** A fluid of one particle at rest at the centre of the box [-1, 1]^3,
    with the parameters the constructor derives from the defaults. *)
Definition restingDrop : SPH.SPH nat :=
  {| SPH._particleRadius := 0.01;
     SPH._particleDiameter := 2 * 0.01;
     SPH._kernelRadius := 4 * 0.01;
     SPH._kernelRadius2 := sqr (4 * 0.01);
     SPH._kernelSupportParticles :=
       Zceil ((4 / 3 * PI * cube (4 * 0.01)) / cube (2 * 0.01));
     SPH._restDensity := 1000;
     SPH._particleMass := 1000 / cube (1 / (2 * 0.01));
     SPH._particleMass2 := sqr (1000 / cube (1 / (2 * 0.01)));
     SPH._maxTimestep := 1e-3;
     SPH._gravity := mkVector3f 0 (-9.81) 0;
     SPH.wcsph :=
       SPH.mkWCSPH 7 10 (1000 * sqr 10 / 7) 0.005
         (Rmin (0.25 * (4 * 0.01) / (1000 / cube (1 / (2 * 0.01)) * 9.81))
               (0.4 * (4 * 0.01) / (10 * (1 + 0.6 * 0.005))));
     SPH._kernel := Kernel_init (4 * 0.01);
     SPH._bounds := mkBox3f (mkVector3f (-1) (-1) (-1)) (mkVector3f 1 1 1);
     SPH._fluidPositions := [mkVector3f 0 0 0];
     SPH._fluidVelocities := [vzero];
     SPH._fluidNormals := [vzero];
     SPH._fluidForces := [vzero];
     SPH._fluidDensities := [0];
     SPH._fluidPressures := [0];
     SPH._fluidGrid := 1%nat;
     SPH._boundaryPositions := [];
     SPH._boundaryNormals := [];
     SPH._t := 0 |}.

(** A fluid of two particles 0.02 apart, at rest density. *)
Definition twoDrops : SPH.SPH nat :=
  SPH.set_fluidGrid 2%nat
    (SPH.set_fluidPressures [0; 0]
       (SPH.set_fluidDensities [1000; 1000]
          (SPH.set_fluidForces [vzero; vzero]
             (SPH.set_fluidNormals [vzero; vzero]
                (SPH.set_fluidVelocities [vzero; vzero]
                   (SPH.set_fluidPositions
                      [mkVector3f 0 0 0; mkVector3f 0.02 0 0] restingDrop)))))).

(** The same two particles, both at pressure 5. *)
Definition pressedDrops : SPH.SPH nat :=
  SPH.set_fluidPressures [5; 5] twoDrops.

(** What [addParticle] records for a call at grid index [(x, y, z)] made
    with the normalised sum of the incident inward face normals: the
    position of the index and that sum scaled by [normalScale]. *)
Definition emitted (origin d : Vector3f) (normalScale : R) (nx ny nz : Z)
    (p n : Vector3f) : Prop :=
  exists x y z,
    onSurface nx ny nz x y z
    /\ p = (origin +v cwiseProduct (vofZ x y z) d)%V
    /\ n = (normalized (incidentNormalSum nx ny nz x y z) *s normalScale)%V.

Definition allEmitted (origin d : Vector3f) (normalScale : R) (nx ny nz : Z)
    (res : ParticleGenerator.Result) : Prop :=
  Forall2 (emitted origin d normalScale nx ny nz)
    (ParticleGenerator.positions res) (ParticleGenerator.normals res).

(** A point on the surface of a box: inside it, with a coordinate on a
    face. *)
Definition onBoxSurface (box : Box3f) (p : Vector3f) : Prop :=
  inBox box p
  /\ (vx p = vx (box_min box) \/ vx p = vx (box_max box)
      \/ vy p = vy (box_min box) \/ vy p = vy (box_max box)
      \/ vz p = vz (box_min box) \/ vz p = vz (box_max box)).

(** A point of the triangle with corners [p0], [p1], [p2]: a combination
    of the corners with non-negative weights that add up to 1. *)
Definition inTriangle (p0 p1 p2 p : Vector3f) : Prop :=
  exists a b c : R,
    0 <= a /\ 0 <= b /\ 0 <= c /\ a + b + c = 1
    /\ p = (p0 *s a +v p1 *s b +v p2 *s c)%V.

(** A point of triangle [i] of a mesh. *)
Definition inMeshTriangle (mesh : Mesh) (i : nat) (p : Vector3f) : Prop :=
  let '(i0, i1, i2) := triangles mesh !!! i in
  inTriangle (vertices mesh !!! i0) (vertices mesh !!! i1)
    (vertices mesh !!! i2) p.

(** The signed distance field that the mesh generator builds for a mesh
    and a cell count. *)
Definition meshField {VoxelGrid : Type} {geometry : Geometry VoxelGrid}
    (mesh : Mesh) (cells : Z) : VoxelGrid :=
  let bounds := computeBounds mesh in
  let bounds := expanded bounds (extents bounds *s (1 / 10))%V in
  let cellSize := coeff (extents bounds) (majorAxis bounds) / IZR cells in
  let size := (Zceil (vx (extents bounds) / cellSize),
               Zceil (vy (extents bounds) / cellSize),
               Zceil (vz (extents bounds) / cellSize)) in
  buildSDF mesh size (box_min bounds) cellSize.


(** The point of the cubic lattice of spacing [d] with index [(x, y, z)],
    and the points of that lattice. *)
Definition latticePoint (d : R) (x y z : Z) : Vector3f :=
  mkVector3f (IZR x * d) (IZR y * d) (IZR z * d).
Definition onLattice (d : R) (p : Vector3f) : Prop :=
  exists x y z : Z, p = latticePoint d x y z.

(** A point of the closed ball around [pos]. *)
Definition inBall (pos : Vector3f) (radius : R) (p : Vector3f) : Prop :=
  squaredNorm (p -v pos) <= sqr radius.

(** A scene that sets no property and holds no object. *)
Definition bareScene : Scene :=
  {| floats := ∅;
     vectors := ∅;
     world_bounds := mkBox3f (mkVector3f (-1) (-1) (-1)) (mkVector3f 1 1 1);
     boxes := [];
     spheres := [];
     meshes := [] |}.

(** A grid like [bruteGrid] that asks on every update for the first two
    particles to be exchanged. *)
Definition exchangingGrid : GridOps nat :=
  {| grid_init := fun _ _ => 0%nat;
     grid_update := fun _ positions => (length positions, [(0%nat, 1%nat)]);
     grid_lookup := fun g _ _ => seq 0 g |}.

(** A fluid of two particles at rest half a metre apart, out of reach of
    each other. *)
Definition farDrops : SPH.SPH nat :=
  SPH.set_fluidGrid 2%nat
    (SPH.set_fluidPressures [0; 0]
       (SPH.set_fluidDensities [1000; 1000]
          (SPH.set_fluidForces [vzero; vzero]
             (SPH.set_fluidNormals [vzero; vzero]
                (SPH.set_fluidVelocities [vzero; vzero]
                   (SPH.set_fluidPositions
                      [mkVector3f 0 0 0; mkVector3f 0.5 0 0] restingDrop)))))).

(** The squared distance of particles [i] and [j]. *)
Definition squaredDistance {Grid : Type} (s : SPH.SPH Grid) (i j : nat) : R :=
  squaredNorm (SPH._fluidPositions s !!! i -v SPH._fluidPositions s !!! j).

(** A fluid of two particles at the same place. *)
Definition stackedDrops : SPH.SPH nat :=
  SPH.set_fluidPositions [mkVector3f 0 0 0; mkVector3f 0 0 0] twoDrops.

(** Two states of one simulation: the same parameters, the same boundary
    particles, and buffers of the same sizes. *)
Definition sameLayout {Grid : Type} (a b : SPH.SPH Grid) : Prop :=
  sameParameters a b
  /\ SPH._kernelSupportParticles b = SPH._kernelSupportParticles a
  /\ SPH._boundaryPositions b = SPH._boundaryPositions a
  /\ SPH._boundaryNormals b = SPH._boundaryNormals a
  /\ length (SPH._fluidPositions b) = length (SPH._fluidPositions a)
  /\ length (SPH._fluidVelocities b) = length (SPH._fluidVelocities a)
  /\ length (SPH._fluidNormals b) = length (SPH._fluidNormals a)
  /\ length (SPH._fluidForces b) = length (SPH._fluidForces a)
  /\ length (SPH._fluidDensities b) = length (SPH._fluidDensities a)
  /\ length (SPH._fluidPressures b) = length (SPH._fluidPressures a).

(** The state after a run of steps, one for each timestep of the list. *)
Definition run {Grid : Type} {grid : GridOps Grid} (dts : list R)
    (s : SPH.SPH Grid) : SPH.SPH Grid :=
  fold_left (fun s dt => SPH.update dt s) dts s.

(** A fluid of one particle below the floor of the world box, moving
    down. *)
Definition strayDrop : SPH.SPH nat :=
  SPH.set_fluidVelocities [mkVector3f 0 (-1) 0]
    (SPH.set_fluidPositions [mkVector3f 0 (-2) 0] restingDrop).

(** A scene with the default settings and a cube of fluid of side 0.1. *)
Definition poolScene : Scene :=
  {| floats := ∅;
     vectors := ∅;
     world_bounds := mkBox3f (mkVector3f (-1) (-1) (-1)) (mkVector3f 1 1 1);
     boxes := [mkBox3f (mkVector3f 0 0 0) (mkVector3f 0.1 0.1 0.1)];
     spheres := [];
     meshes := [] |}.

(** A simulator without fluid. *)
Definition dryTank : SPH.SPH nat :=
  SPH.set_fluidGrid 0%nat
    (SPH.set_fluidPressures []
       (SPH.set_fluidDensities []
          (SPH.set_fluidForces []
             (SPH.set_fluidNormals []
                (SPH.set_fluidVelocities []
                   (SPH.set_fluidPositions [] restingDrop)))))).

(** The sum of the vectors [f j] over a list of indices. *)
Definition vsumOver (l : list nat) (f : nat -> Vector3f) : Vector3f :=
  foldr (fun j acc => (f j +v acc)%V) vzero l.

(** The normal of particle [i] as a sum over its neighbours: the gradient
    of poly6 at the offset to each neighbour over the density of the
    neighbour, scaled by h m and the constant of the gradient. *)
Definition neighbourNormal {Grid : Type} (s : SPH.SPH Grid) (i : nat)
    : Vector3f :=
  (vsumOver (neighbours s i) (fun j =>
     poly6Grad (SPH._kernel s)
       (SPH._fluidPositions s !!! i -v SPH._fluidPositions s !!! j)
       (squaredDistance s i j)
     /s SPH._fluidDensities s !!! j)
   *s (SPH._kernelRadius s * SPH._particleMass s
       * poly6GradConstant (SPH._kernel s)))%V.

(** The sum of a list of timesteps. *)
Definition totalTime (dts : list R) : R := foldr Rplus 0 dts.



(** * Properties *)

(** ** Loops *)

Lemma forZ_unfold {S : Type} (lo : Z) (n : nat) (body : Z -> S -> S) (s : S) :
  forZ lo (lo + Z.of_nat (Datatypes.S n)) body s
  = body (lo + Z.of_nat n)%Z (forZ lo (lo + Z.of_nat n) body s).
Proof.
  unfold forZ, zrange.
  replace (Z.to_nat (lo + Z.of_nat (Datatypes.S n) - lo)) with (Datatypes.S n) by lia.
  replace (Z.to_nat (lo + Z.of_nat n - lo)) with n by lia.
  rewrite seq_S, map_app, fold_left_app. reflexivity.
Qed.

Lemma forZ_empty {S : Type} (lo hi : Z) (body : Z -> S -> S) (s : S) :
  (hi <= lo)%Z -> forZ lo hi body s = s.
Proof.
  intros Hle. unfold forZ, zrange.
  replace (Z.to_nat (hi - lo)) with 0%nat by lia. reflexivity.
Qed.

(** A loop invariant [I] that may depend on the loop variable. *)
Lemma forZ_ind {S : Type} (I : Z -> S -> Prop) (lo hi : Z)
    (body : Z -> S -> S) (s : S) :
  (lo <= hi)%Z ->
  I lo s ->
  (forall k st, (lo <= k < hi)%Z -> I k st -> I (k + 1)%Z (body k st)) ->
  I hi (forZ lo hi body s).
Proof.
  intros Hle H0 Hstep.
  replace hi with (lo + Z.of_nat (Z.to_nat (hi - lo)))%Z by lia.
  assert (Hn : (Z.to_nat (hi - lo) <= Z.to_nat (hi - lo))%nat) by lia.
  revert Hn. generalize (Z.to_nat (hi - lo)) at 1 3 4 as n.
  induction n as [|n IH]; intros Hn.
  - rewrite Z.add_0_r, forZ_empty by lia. exact H0.
  - rewrite forZ_unfold.
    replace (lo + Z.of_nat (Datatypes.S n))%Z with (lo + Z.of_nat n + 1)%Z by lia.
    apply Hstep; [lia | apply IH; lia].
Qed.

(** An invariant that every iteration preserves. *)
Lemma forZ_preserves {S : Type} (I : S -> Prop) (lo hi : Z)
    (body : Z -> S -> S) (s : S) :
  I s ->
  (forall k st, (lo <= k < hi)%Z -> I st -> I (body k st)) ->
  I (forZ lo hi body s).
Proof.
  intros H0 Hstep. destruct (Z_le_gt_dec lo hi) as [Hle|Hgt].
  - apply (forZ_ind (fun _ => I)); auto.
  - rewrite forZ_empty by lia. exact H0.
Qed.

(** A counter that every iteration advances by [c]. *)
Lemma forZ_measure {S : Type} (f : S -> nat) (c : nat) (lo hi : Z)
    (body : Z -> S -> S) (s : S) :
  (forall k st, (lo <= k < hi)%Z -> f (body k st) = (f st + c)%nat) ->
  f (forZ lo hi body s) = (f s + c * Z.to_nat (hi - lo))%nat.
Proof.
  intros Hstep. destruct (Z_le_gt_dec lo hi) as [Hle|Hgt].
  - apply (forZ_ind (fun k st => f st = (f s + c * Z.to_nat (k - lo))%nat));
      [assumption | rewrite Z.sub_diag; simpl; lia |].
    intros k st Hk Hst. rewrite Hstep, Hst by assumption.
    replace (Z.to_nat (k + 1 - lo)) with (Datatypes.S (Z.to_nat (k - lo))) by lia.
    lia.
  - rewrite forZ_empty by lia. replace (Z.to_nat (hi - lo)) with 0%nat by lia. lia.
Qed.

Lemma forN_unfold {S : Type} (lo n : nat) (body : nat -> S -> S) (s : S) :
  forN lo (lo + Datatypes.S n) body s
  = body (lo + n)%nat (forN lo (lo + n) body s).
Proof.
  unfold forN.
  replace (lo + Datatypes.S n - lo)%nat with (Datatypes.S n) by lia.
  replace (lo + n - lo)%nat with n by lia.
  rewrite seq_S, fold_left_app. reflexivity.
Qed.

Lemma forN_empty {S : Type} (lo hi : nat) (body : nat -> S -> S) (s : S) :
  (hi <= lo)%nat -> forN lo hi body s = s.
Proof.
  intros Hle. unfold forN. replace (hi - lo)%nat with 0%nat by lia. reflexivity.
Qed.

Lemma forN_ind {S : Type} (I : nat -> S -> Prop) (lo hi : nat)
    (body : nat -> S -> S) (s : S) :
  (lo <= hi)%nat ->
  I lo s ->
  (forall i st, (lo <= i < hi)%nat -> I i st -> I (Datatypes.S i) (body i st)) ->
  I hi (forN lo hi body s).
Proof.
  intros Hle H0 Hstep.
  replace hi with (lo + (hi - lo))%nat by lia.
  assert (Hn : (hi - lo <= hi - lo)%nat) by lia.
  revert Hn. generalize (hi - lo)%nat at 1 3 4 as n.
  induction n as [|n IH]; intros Hn.
  - rewrite Nat.add_0_r, forN_empty by lia. exact H0.
  - rewrite forN_unfold.
    replace (lo + Datatypes.S n)%nat with (Datatypes.S (lo + n)) by lia.
    apply Hstep; [lia | apply IH; lia].
Qed.

Lemma forN_preserves {S : Type} (I : S -> Prop) (lo hi : nat)
    (body : nat -> S -> S) (s : S) :
  I s ->
  (forall i st, (lo <= i < hi)%nat -> I st -> I (body i st)) ->
  I (forN lo hi body s).
Proof.
  intros H0 Hstep. destruct (le_gt_dec lo hi) as [Hle|Hgt].
  - apply (forN_ind (fun _ => I)); auto.
  - rewrite forN_empty by lia. exact H0.
Qed.

(** ** Box surfaces: how many particles each stage emits *)

Section BoxCount.
Import ParticleGenerator.
Variables (origin d : Vector3f) (normalScale : R) (nx ny nz : Z).
(** [f] counts the emitted positions, or the emitted normals. *)
Variable f : Result -> nat.
Hypothesis f_add : forall x y z n res,
  f (addParticle origin d normalScale x y z n res) = Datatypes.S (f res).

Lemma planes_count (body : Z -> Z -> Result -> Result) (a b : Z) (res : Result) :
  (forall x y r, f (body x y r) = (f r + 2)%nat) ->
  f (forZ 1 a (fun x => forZ 1 b (fun y r => body x y r)) res)
  = (f res + 2 * Z.to_nat (b - 1) * Z.to_nat (a - 1))%nat.
Proof.
  intros Hbody.
  rewrite (forZ_measure f (2 * Z.to_nat (b - 1))); [lia |].
  intros x st _. rewrite (forZ_measure f 2); [lia |].
  intros y r _. apply Hbody.
Qed.

Lemma xyPlanes_count res :
  f (xyPlanes origin d normalScale nx ny nz res)
  = (f res + 2 * Z.to_nat (ny - 1) * Z.to_nat (nx - 1))%nat.
Proof.
  unfold xyPlanes. apply planes_count. intros. rewrite !f_add. lia.
Qed.

Lemma xzPlanes_count res :
  f (xzPlanes origin d normalScale nx ny nz res)
  = (f res + 2 * Z.to_nat (nz - 1) * Z.to_nat (nx - 1))%nat.
Proof.
  unfold xzPlanes. apply planes_count. intros. rewrite !f_add. lia.
Qed.

Lemma yzPlanes_count res :
  f (yzPlanes origin d normalScale nx ny nz res)
  = (f res + 2 * Z.to_nat (nz - 1) * Z.to_nat (ny - 1))%nat.
Proof.
  unfold yzPlanes. apply planes_count. intros. rewrite !f_add. lia.
Qed.

Lemma xBorders_count res :
  f (xBorders origin d normalScale nx ny nz res)
  = (f res + 4 * Z.to_nat (nx - 1))%nat.
Proof.
  unfold xBorders. apply forZ_measure. intros. rewrite !f_add. lia.
Qed.

Lemma yBorders_count res :
  f (yBorders origin d normalScale nx ny nz res)
  = (f res + 4 * Z.to_nat (ny - 1))%nat.
Proof.
  unfold yBorders. apply forZ_measure. intros. rewrite !f_add. lia.
Qed.

Lemma zBorders_count res :
  f (zBorders origin d normalScale nx ny nz res)
  = (f res + 4 * Z.to_nat (nz - 1))%nat.
Proof.
  unfold zBorders. apply forZ_measure. intros. rewrite !f_add. lia.
Qed.

Lemma corners_count res :
  f (corners origin d normalScale nx ny nz res) = (f res + 8)%nat.
Proof.
  unfold corners. rewrite (forZ_measure f 1); [simpl; lia |].
  intros. rewrite f_add. lia.
Qed.

Lemma boxParticles_count :
  f emptyResult = 0%nat ->
  f (boxParticles origin d normalScale nx ny nz)
  = (2 * (Z.to_nat (nx - 1) * Z.to_nat (ny - 1)
          + Z.to_nat (nx - 1) * Z.to_nat (nz - 1)
          + Z.to_nat (ny - 1) * Z.to_nat (nz - 1))
     + 4 * (Z.to_nat (nx - 1) + Z.to_nat (ny - 1) + Z.to_nat (nz - 1))
     + 8)%nat.
Proof.
  intros H0. unfold boxParticles.
  rewrite corners_count, zBorders_count, yBorders_count, xBorders_count,
    yzPlanes_count, xzPlanes_count, xyPlanes_count, H0.
  lia.
Qed.

End BoxCount.

Lemma positions_addParticle origin d normalScale x y z n res :
  length (ParticleGenerator.positions
            (ParticleGenerator.addParticle origin d normalScale x y z n res))
  = Datatypes.S (length (ParticleGenerator.positions res)).
Proof. simpl. rewrite length_app. simpl. lia. Qed.

Lemma normals_addParticle origin d normalScale x y z n res :
  length (ParticleGenerator.normals
            (ParticleGenerator.addParticle origin d normalScale x y z n res))
  = Datatypes.S (length (ParticleGenerator.normals res)).
Proof. simpl. rewrite length_app. simpl. lia. Qed.

Lemma unitBox_counts :
  Zceil (vx (extents unitBox) / (2 * 0.05)) = 10%Z
  /\ Zceil (vy (extents unitBox) / (2 * 0.05)) = 10%Z
  /\ Zceil (vz (extents unitBox) / (2 * 0.05)) = 10%Z.
Proof. repeat split; apply Zceil_eq; simpl; lra. Qed.

Lemma unitBox_particles :
  ParticleGenerator.generateSurfaceParticles_box unitBox 0.05
  = ParticleGenerator.boxParticles (mkVector3f 0 0 0)
      (cwiseQuotient (extents unitBox) (vofZ 10 10 10)) (-1) 10 10 10.
Proof.
  unfold ParticleGenerator.generateSurfaceParticles_box.
  destruct unitBox_counts as (-> & -> & ->). reflexivity.
Qed.

(** C8.  For the unit box and particle radius 0.05 the generator derives
    nx = ny = nz = 10 and emits 602 = 6*81 + 12*9 + 8 positions and as many
    normals: each of the three plane stages adds two face interiors of 81
    particles, each of the three border stages adds four edges of 9, and
    the last stage adds the 8 corners. *)
Theorem box_particle_count_unit :
  let res := ParticleGenerator.generateSurfaceParticles_box unitBox 0.05 in
  let origin := box_min unitBox in
  let d := cwiseQuotient (extents unitBox) (vofZ 10 10 10) in
  let count r := length (ParticleGenerator.positions r) in
  res = ParticleGenerator.boxParticles origin d (-1) 10 10 10
  /\ count res = 602%nat
  /\ length (ParticleGenerator.normals res) = 602%nat
  /\ 602%nat = (6 * 81 + 12 * 9 + 8)%nat
  /\ (forall r, count (ParticleGenerator.xyPlanes origin d (-1) 10 10 10 r)
                = (count r + 2 * 81)%nat)
  /\ (forall r, count (ParticleGenerator.xzPlanes origin d (-1) 10 10 10 r)
                = (count r + 2 * 81)%nat)
  /\ (forall r, count (ParticleGenerator.yzPlanes origin d (-1) 10 10 10 r)
                = (count r + 2 * 81)%nat)
  /\ (forall r, count (ParticleGenerator.xBorders origin d (-1) 10 10 10 r)
                = (count r + 4 * 9)%nat)
  /\ (forall r, count (ParticleGenerator.yBorders origin d (-1) 10 10 10 r)
                = (count r + 4 * 9)%nat)
  /\ (forall r, count (ParticleGenerator.zBorders origin d (-1) 10 10 10 r)
                = (count r + 4 * 9)%nat)
  /\ (forall r, count (ParticleGenerator.corners origin d (-1) 10 10 10 r)
                = (count r + 8)%nat).
Proof.
  cbv zeta. rewrite unitBox_particles.
  split; [reflexivity |].
  split; [rewrite (boxParticles_count _ _ _ _ _ _ _ (positions_addParticle _ _ _));
          reflexivity |].
  split; [rewrite (boxParticles_count _ _ _ _ _ _ _ (normals_addParticle _ _ _));
          reflexivity |].
  split; [reflexivity |].
  repeat split; intros r.
  - rewrite (xyPlanes_count _ _ _ _ _ _ _ (positions_addParticle _ _ _)). reflexivity.
  - rewrite (xzPlanes_count _ _ _ _ _ _ _ (positions_addParticle _ _ _)). reflexivity.
  - rewrite (yzPlanes_count _ _ _ _ _ _ _ (positions_addParticle _ _ _)). reflexivity.
  - rewrite (xBorders_count _ _ _ _ _ _ _ (positions_addParticle _ _ _)). reflexivity.
  - rewrite (yBorders_count _ _ _ _ _ _ _ (positions_addParticle _ _ _)). reflexivity.
  - rewrite (zBorders_count _ _ _ _ _ _ _ (positions_addParticle _ _ _)). reflexivity.
  - rewrite (corners_count _ _ _ _ _ _ _ (positions_addParticle _ _ _)). reflexivity.
Qed.

(** ** Box surfaces: the normal of every emitted particle *)

Lemma normalized_unit (a : Vector3f) : squaredNorm a = 1 -> normalized a = a.
Proof.
  intros H. unfold normalized, norm. rewrite H, sqrt_1.
  destruct a as [ax ay az]. unfold vdiv. simpl. f_equal; field.
Qed.

Lemma squaredNorm_normalized (a : Vector3f) :
  0 < squaredNorm a -> squaredNorm (normalized a) = 1.
Proof.
  intros H. unfold normalized, norm.
  assert (Hs : sqrt (squaredNorm a) * sqrt (squaredNorm a) = squaredNorm a)
    by (apply sqrt_sqrt; lra).
  assert (Hpos : 0 < sqrt (squaredNorm a)) by (apply sqrt_lt_R0; lra).
  revert Hs Hpos. generalize (sqrt (squaredNorm a)) as n. intros n Hs Hpos.
  destruct a as [ax ay az]. unfold squaredNorm, dot, vdiv in *. simpl in *.
  field_simplify_eq; lra.
Qed.

Lemma squaredNorm_vscale_m1 (a : Vector3f) :
  squaredNorm (a *s (-1))%V = squaredNorm a.
Proof. destruct a. unfold squaredNorm, dot, vscale. simpl. ring. Qed.

Lemma dot_normalized_flipped (a v : Vector3f) :
  0 < squaredNorm a -> 0 < dot a v -> dot (normalized a *s (-1))%V v < 0.
Proof.
  intros Ha Hd. unfold normalized, norm.
  assert (Hpos : 0 < sqrt (squaredNorm a)) by (apply sqrt_lt_R0; lra).
  revert Hpos. generalize (sqrt (squaredNorm a)) as n. intros n Hpos.
  destruct a as [ax ay az], v as [u1 u2 u3].
  unfold dot, vdiv, vscale in *. simpl in *.
  replace (ax / n * -1 * u1 + ay / n * -1 * u2 + az / n * -1 * u3)
    with (- ((ax * u1 + ay * u2 + az * u3) * / n)) by (field; lra).
  assert (0 < / n) by (apply Rinv_0_lt_compat; lra). nra.
Qed.

Section BoxNormals.
Import ParticleGenerator.
Variables (origin d : Vector3f) (normalScale : R) (nx ny nz : Z).
Hypothesis nx_pos : (1 <= nx)%Z.
Hypothesis ny_pos : (1 <= ny)%Z.
Hypothesis nz_pos : (1 <= nz)%Z.

#[local] Abbreviation recorded := (allEmitted origin d normalScale nx ny nz).

Lemma addParticle_emitted x y z n res :
  recorded res ->
  onSurface nx ny nz x y z ->
  n = normalized (incidentNormalSum nx ny nz x y z) ->
  recorded (addParticle origin d normalScale x y z n res).
Proof.
  intros Hres Hs Hn. unfold allEmitted, addParticle. simpl.
  apply Forall2_app; [exact Hres |].
  constructor; [| constructor].
  exists x, y, z. subst n. auto.
Qed.

Ltac eqb_cases :=
  repeat match goal with
         | |- context [(?a =? ?b)%Z] => destruct (Z.eqb_spec a b); try lia
         end.

Ltac call :=
  apply addParticle_emitted;
  [ | unfold onSurface; lia
    | unfold incidentNormalSum, inwardComponent; eqb_cases;
      first [ reflexivity
            | symmetry; apply normalized_unit;
              unfold squaredNorm, dot; simpl; lra ] ].

Lemma xyPlanes_emitted res :
  recorded res -> recorded (xyPlanes origin d normalScale nx ny nz res).
Proof.
  intros H. unfold xyPlanes. apply forZ_preserves; [exact H |].
  intros x st Hx Hst. apply forZ_preserves; [exact Hst |].
  intros y r Hy Hr. call. call. exact Hr.
Qed.

Lemma xzPlanes_emitted res :
  recorded res -> recorded (xzPlanes origin d normalScale nx ny nz res).
Proof.
  intros H. unfold xzPlanes. apply forZ_preserves; [exact H |].
  intros x st Hx Hst. apply forZ_preserves; [exact Hst |].
  intros z r Hz Hr. call. call. exact Hr.
Qed.

Lemma yzPlanes_emitted res :
  recorded res -> recorded (yzPlanes origin d normalScale nx ny nz res).
Proof.
  intros H. unfold yzPlanes. apply forZ_preserves; [exact H |].
  intros y st Hy Hst. apply forZ_preserves; [exact Hst |].
  intros z r Hz Hr. call. call. exact Hr.
Qed.

Lemma xBorders_emitted res :
  recorded res -> recorded (xBorders origin d normalScale nx ny nz res).
Proof.
  intros H. unfold xBorders. apply forZ_preserves; [exact H |].
  intros x r Hx Hr. call. call. call. call. exact Hr.
Qed.

Lemma yBorders_emitted res :
  recorded res -> recorded (yBorders origin d normalScale nx ny nz res).
Proof.
  intros H. unfold yBorders. apply forZ_preserves; [exact H |].
  intros y r Hy Hr. call. call. call. call. exact Hr.
Qed.

Lemma zBorders_emitted res :
  recorded res -> recorded (zBorders origin d normalScale nx ny nz res).
Proof.
  intros H. unfold zBorders. apply forZ_preserves; [exact H |].
  intros z r Hz Hr. call. call. call. call. exact Hr.
Qed.

Lemma corners_emitted res :
  recorded res -> recorded (corners origin d normalScale nx ny nz res).
Proof.
  intros H. unfold corners. apply forZ_preserves; [exact H |].
  intros c r Hc Hr.
  assert (Hcases : (c = 0 \/ c = 1 \/ c = 2 \/ c = 3 \/ c = 4 \/ c = 5
                    \/ c = 6 \/ c = 7)%Z) by lia.
  destruct Hcases as [->|[->|[->|[->|[->|[->|[->| ->]]]]]]];
    cbv zeta; unfold ternary; simpl; call; exact Hr.
Qed.

Lemma boxParticles_emitted :
  recorded (boxParticles origin d normalScale nx ny nz).
Proof.
  unfold boxParticles.
  apply corners_emitted, zBorders_emitted, yBorders_emitted, xBorders_emitted,
    yzPlanes_emitted, xzPlanes_emitted, xyPlanes_emitted.
  constructor.
Qed.

End BoxNormals.

Lemma Zceil_pos (a : R) : 0 < a -> (1 <= Zceil a)%Z.
Proof.
  intros Ha. destruct (Zceil_bound a) as [_ Hb].
  assert (H : (0 < Zceil a)%Z) by (apply lt_IZR; lra). lia.
Qed.

Lemma incidentNormalSum_nonzero nx ny nz x y z :
  onSurface nx ny nz x y z ->
  0 < squaredNorm (incidentNormalSum nx ny nz x y z).
Proof.
  unfold onSurface, incidentNormalSum, inwardComponent, squaredNorm, dot.
  intros Hs. simpl.
  repeat match goal with
         | |- context [(?a =? ?b)%Z] => destruct (Z.eqb_spec a b)
         end; try lra; lia.
Qed.

Lemma inwardComponent_toward_centre (n k : Z) (lo hi step : R) :
  (1 <= n)%Z -> (0 <= k <= n)%Z -> lo < hi -> step = (hi - lo) / IZR n ->
  0 <= inwardComponent n k * ((hi + lo) * (1 / 2) - (lo + IZR k * step))
  /\ ((k = 0 \/ k = n)%Z ->
      0 < inwardComponent n k * ((hi + lo) * (1 / 2) - (lo + IZR k * step))).
Proof.
  intros Hn Hk Hlt ->.
  assert (Hn' : 1 <= IZR n) by (apply IZR_le; exact Hn).
  unfold inwardComponent.
  destruct (Z.eqb_spec k 0) as [-> | Hk0].
  - split; [| intros _]; lra.
  - destruct (Z.eqb_spec k n) as [-> | Hkn].
    + replace (IZR n * ((hi - lo) / IZR n)) with (hi - lo) by (field; lra).
      split; [| intros _]; lra.
    + split; [lra | lia].
Qed.

(** Every recorded pair is a unit normal that points out of the box. *)
Lemma emitted_unit_outward (box : Box3f) (nx ny nz : Z) (p n : Vector3f) :
  (1 <= nx)%Z -> (1 <= ny)%Z -> (1 <= nz)%Z ->
  vx (box_min box) < vx (box_max box) ->
  vy (box_min box) < vy (box_max box) ->
  vz (box_min box) < vz (box_max box) ->
  emitted (box_min box) (cwiseQuotient (extents box) (vofZ nx ny nz)) (-1)
    nx ny nz p n ->
  squaredNorm n = 1 /\ outwardPointing box p n.
Proof.
  intros Hnx Hny Hnz Hx Hy Hz (x & y & z & Hs & -> & ->).
  pose proof (incidentNormalSum_nonzero _ _ _ _ _ _ Hs) as Hnonzero.
  split.
  - rewrite squaredNorm_vscale_m1. apply squaredNorm_normalized, Hnonzero.
  - unfold outwardPointing. apply dot_normalized_flipped; [exact Hnonzero |].
    destruct Hs as (Hxr & Hyr & Hzr & Hface).
    destruct box as [[lx ly lz] [hx hy hz]]. simpl in *.
    unfold dot, center, extents, cwiseQuotient, cwiseProduct, vofZ,
      incidentNormalSum. simpl.
    destruct (inwardComponent_toward_centre nx x lx hx ((hx - lx) / IZR nx))
      as [Hx0 Hx1]; auto.
    destruct (inwardComponent_toward_centre ny y ly hy ((hy - ly) / IZR ny))
      as [Hy0 Hy1]; auto.
    destruct (inwardComponent_toward_centre nz z lz hz ((hz - lz) / IZR nz))
      as [Hz0 Hz1]; auto.
    destruct Hface as [H|[H|[H|[H|[H|H]]]]];
      [ specialize (Hx1 (or_introl H)) | specialize (Hx1 (or_intror H))
      | specialize (Hy1 (or_introl H)) | specialize (Hy1 (or_intror H))
      | specialize (Hz1 (or_introl H)) | specialize (Hz1 (or_intror H)) ];
      lra.
Qed.

Lemma generateSurfaceParticles_box_emitted (box : Box3f) (particleRadius : R) :
  0 < particleRadius ->
  vx (box_min box) < vx (box_max box) ->
  vy (box_min box) < vy (box_max box) ->
  vz (box_min box) < vz (box_max box) ->
  let nx := Zceil (vx (extents box) / (2 * particleRadius)) in
  let ny := Zceil (vy (extents box) / (2 * particleRadius)) in
  let nz := Zceil (vz (extents box) / (2 * particleRadius)) in
  ((1 <= nx)%Z /\ (1 <= ny)%Z /\ (1 <= nz)%Z)
  /\ allEmitted (box_min box) (cwiseQuotient (extents box) (vofZ nx ny nz))
       (-1) nx ny nz
       (ParticleGenerator.generateSurfaceParticles_box box particleRadius).
Proof.
  intros Hr Hx Hy Hz nx ny nz.
  assert (Hn : (1 <= nx)%Z /\ (1 <= ny)%Z /\ (1 <= nz)%Z).
  { repeat split; apply Zceil_pos, Rdiv_lt_0_compat;
      unfold extents; simpl; lra. }
  split; [exact Hn |]. destruct Hn as (Hnx & Hny & Hnz).
  unfold ParticleGenerator.generateSurfaceParticles_box.
  apply boxParticles_emitted; assumption.
Qed.

(** C6, as the code has it.  For a box of positive extent and a positive
    particle radius, every particle the box generator emits sits at a grid
    index on the surface and carries a unit normal that points out of the
    box: the normalised sum of the inward normals of the incident faces (one
    on a face interior, two on an edge, three at a corner) scaled by
    [normalScale = -1]. *)
Theorem box_normals_outward (box : Box3f) (particleRadius : R) :
  0 < particleRadius ->
  vx (box_min box) < vx (box_max box) ->
  vy (box_min box) < vy (box_max box) ->
  vz (box_min box) < vz (box_max box) ->
  let res := ParticleGenerator.generateSurfaceParticles_box box particleRadius in
  let nx := Zceil (vx (extents box) / (2 * particleRadius)) in
  let ny := Zceil (vy (extents box) / (2 * particleRadius)) in
  let nz := Zceil (vz (extents box) / (2 * particleRadius)) in
  let d := cwiseQuotient (extents box) (vofZ nx ny nz) in
  Forall2 (fun p n =>
      (exists x y z,
          onSurface nx ny nz x y z
          /\ p = (box_min box +v cwiseProduct (vofZ x y z) d)%V
          /\ n = (normalized (incidentNormalSum nx ny nz x y z) *s (-1))%V)
      /\ squaredNorm n = 1
      /\ outwardPointing box p n)
    (ParticleGenerator.positions res) (ParticleGenerator.normals res).
Proof.
  intros Hr Hx Hy Hz res nx ny nz d.
  destruct (generateSurfaceParticles_box_emitted box particleRadius Hr Hx Hy Hz)
    as [(Hnx & Hny & Hnz) Hall].
  eapply Forall2_impl; [exact Hall |].
  intros p n Hpn. split; [exact Hpn |].
  apply (emitted_unit_outward box nx ny nz); assumption.
Qed.

(** C6 at the unit box and radius 0.05. *)
Lemma box_normals_outward_witness :
  let res := ParticleGenerator.generateSurfaceParticles_box unitBox 0.05 in
  let nx := Zceil (vx (extents unitBox) / (2 * 0.05)) in
  let ny := Zceil (vy (extents unitBox) / (2 * 0.05)) in
  let nz := Zceil (vz (extents unitBox) / (2 * 0.05)) in
  let d := cwiseQuotient (extents unitBox) (vofZ nx ny nz) in
  Forall2 (fun p n =>
      (exists x y z,
          onSurface nx ny nz x y z
          /\ p = (box_min unitBox +v cwiseProduct (vofZ x y z) d)%V
          /\ n = (normalized (incidentNormalSum nx ny nz x y z) *s (-1))%V)
      /\ squaredNorm n = 1
      /\ outwardPointing unitBox p n)
    (ParticleGenerator.positions res) (ParticleGenerator.normals res).
Proof. apply (box_normals_outward unitBox 0.05); simpl; lra. Defined.

(** C6, as stated, fails: for the unit box and radius 0.05 it is not the
    case that every emitted normal points into the box. *)
Lemma box_normals_not_inward :
  let res := ParticleGenerator.generateSurfaceParticles_box unitBox 0.05 in
  ~ Forall2 (inwardPointing unitBox)
      (ParticleGenerator.positions res) (ParticleGenerator.normals res).
Proof.
  intros res Hin.
  assert (Hr : 0 < 0.05) by lra.
  assert (Hx : vx (box_min unitBox) < vx (box_max unitBox)) by (simpl; lra).
  assert (Hy : vy (box_min unitBox) < vy (box_max unitBox)) by (simpl; lra).
  assert (Hz : vz (box_min unitBox) < vz (box_max unitBox)) by (simpl; lra).
  destruct (generateSurfaceParticles_box_emitted unitBox 0.05 Hr Hx Hy Hz)
    as [(Hnx & Hny & Hnz) Hall].
  assert (Hlen : length (ParticleGenerator.positions res) = 602%nat).
  { unfold res. rewrite unitBox_particles.
    rewrite (boxParticles_count _ _ _ _ _ _ _ (positions_addParticle _ _ _));
      reflexivity. }
  unfold allEmitted in Hall. fold res in Hall.
  destruct Hall as [| p n ps ns Hpn _]; [discriminate Hlen |].
  apply Forall2_cons_1 in Hin. destruct Hin as [Hinward _].
  destruct (emitted_unit_outward unitBox _ _ _ p n Hnx Hny Hnz Hx Hy Hz Hpn)
    as [_ Hout].
  unfold inwardPointing in Hinward. unfold outwardPointing in Hout. lra.
Qed.

(** ** Mesh surfaces: seeding *)

Section Seeding.
Import ParticleGenerator.
Context {Rng : Type} {random : RandomGen Rng}.

Lemma samplePoint_seeds (p0 e0 e1 : Vector3f) (st : Seeding) :
  length (seeds (samplePoint p0 e0 e1 st)) = Datatypes.S (length (seeds st)).
Proof.
  unfold samplePoint.
  destruct (nextFloat (rng st)) as [s rng1].
  destruct (nextFloat rng1) as [t rng2].
  simpl. rewrite length_app. simpl. lia.
Qed.

(** When the expected count of a triangle is at least 1, the draw that
    follows the deterministic samples is compared with the whole expected
    count, so the additional sample is emitted whatever the draw is. *)
Lemma seedTriangle_extra_sample (mesh : Mesh) (density : R) (i : nat)
    (st : Seeding) :
  (forall g : Rng, 0 <= (nextFloat g).1 < 1) ->
  1 <= density * triangleArea mesh i ->
  length (seeds (seedTriangle mesh density i st))
  = (length (seeds st) + Z.to_nat (Zfloor (density * triangleArea mesh i)) + 1)%nat.
Proof.
  intros Hdraw Hn. unfold seedTriangle, triangleArea in *.
  destruct (triangles mesh !!! i) as [[i0 i1] i2].
  cbv zeta in *.
  set (p0 := vertices mesh !!! i0) in *.
  set (e0 := (vertices mesh !!! i1 -v p0)%V) in *.
  set (e1 := (vertices mesh !!! i2 -v p0)%V) in *.
  set (n := density * (1 / 2 * Rabs (norm (cross e0 e1)))) in *.
  match goal with
  | |- context [forZ 0 (Zfloor n) ?body ?st0] => set (st1 := forZ 0 (Zfloor n) body st0)
  end.
  assert (Hst1 : length (seeds st1)
                 = (length (seeds st) + Z.to_nat (Zfloor n))%nat).
  { unfold st1.
    rewrite (forZ_measure (fun s => length (seeds s)) 1).
    - simpl. rewrite Z.sub_0_r. lia.
    - intros k s _. rewrite samplePoint_seeds. lia. }
  pose proof (Hdraw (rng st1)) as Hu.
  destruct (nextFloat (rng st1)) as [u rng1]. simpl in Hu.
  destruct (decide (u < n)) as [_ | Hge]; [| lra].
  rewrite samplePoint_seeds. simpl. lia.
Qed.

End Seeding.

Lemma triangleMesh_area : triangleArea triangleMesh 0 = 1 / 2.
Proof.
  unfold triangleArea, triangleMesh, norm, squaredNorm, dot, cross. simpl.
  replace ((0 - 0) * (0 - 0) - (0 - 0) * (1 - 0)) with 0 by ring.
  replace ((0 - 0) * (0 - 0) - (1 - 0) * (0 - 0)) with 0 by ring.
  replace ((1 - 0) * (1 - 0) - (0 - 0) * (0 - 0)) with 1 by ring.
  replace (0 * 0 + 0 * 0 + 1 * 1) with 1 by ring.
  rewrite sqrt_1, Rabs_R1. lra.
Qed.

Lemma PI_bounds : 3.14 < PI < 3.15.
Proof.
  pose proof (PI_2_3_7_ineq 1) as [Hlo Hhi].
  unfold PI_2_3_7_tg, tg_alt, Ratan_seq in Hlo, Hhi.
  simpl sum_f_R0 in Hlo, Hhi. lra.
Qed.

(** The expected count of the triangle mesh at particle radius 0.36. *)
Lemma triangleMesh_expected :
  let n := 1 / (PI * sqr 0.36) * triangleArea triangleMesh 0 in
  1.22 < n < 1.23.
Proof.
  cbv zeta. rewrite triangleMesh_area. unfold sqr.
  pose proof PI_bounds as [Hlo Hhi].
  set (D := PI * (0.36 * 0.36)).
  assert (HD : 0.4069 < D < 0.4083) by (unfold D; lra).
  assert (Hinv : / D * D = 1) by (apply Rinv_l; lra).
  assert (Hpos : 0 < / D) by (apply Rinv_0_lt_compat; lra).
  unfold Rdiv. rewrite !Rmult_1_l. nra.
Qed.

(** The generator seeded with (42, 54) gives the outputs that the
    reference implementation of PCG32 prints for that seed. *)
Lemma pcg32_reference_outputs :
  outputs 6 (seed 42 54)
  = [0xa15c02b7; 0x7b47f409; 0xba1d3330; 0x83d2f293; 0xbfa4784b;
     0xcbed606e]%Z.
Proof. vm_compute. reflexivity. Qed.

(** Every draw of the generator is one of the 2^23 floats k / 2^23 of
    [0, 1). *)
Lemma pcg32_draws_in_unit (g : pcg32) :
  0 <= (nextFloat (RandomGen := pcg32_random) g).1 < 1.
Proof.
  cbn [nextFloat pcg32_random pcg32_nextFloat fst].
  set (u := (nextUInt g).1).
  assert (Hu : (0 <= u < 2 ^ 32)%Z).
  { unfold u, nextUInt. cbn [fst]. unfold uint32 at 1.
    apply Z.mod_pos_bound. lia. }
  assert (Hk : (0 <= Z.shiftr u 9 < 8388608)%Z).
  { rewrite Z.shiftr_div_pow2 by lia. split.
    - apply Z.div_pos; lia.
    - apply Z.div_lt_upper_bound; lia. }
  destruct Hk as [Hk0 Hk1]. apply IZR_le in Hk0. apply IZR_lt in Hk1.
  lra.
Qed.

(** The third draw of a default-constructed generator. *)
Lemma pcg32_third_draw :
  draw (random := pcg32_random) 2
             (defaultRng (RandomGen := pcg32_random)) = 6652893 / 8388608.
Proof.
  unfold draw. cbn [Nat.iter nextFloat defaultRng pcg32_random pcg32_nextFloat fst snd].
  replace (Z.shiftr (nextUInt (nextUInt (nextUInt
             (mkPcg32 PCG32_DEFAULT_STATE PCG32_DEFAULT_STREAM)).2).2).1 9)
    with 6652893%Z by (vm_compute; reflexivity).
  reflexivity.
Qed.

(** The seeds of the triangle mesh at particle radius 0.36: the one
    deterministic sample and the extra one. *)
Lemma triangleMesh_seeds :
  length (ParticleGenerator.seeds
            (ParticleGenerator.seedMesh (random := pcg32_random)
               triangleMesh (1 / (PI * sqr 0.36)))) = 2%nat.
Proof.
  pose proof triangleMesh_expected as Hn. cbv zeta in Hn.
  set (n := 1 / (PI * sqr 0.36) * triangleArea triangleMesh 0) in *.
  assert (Hfloor : Zfloor n = 1%Z) by (apply Zfloor_eq; lra).
  unfold ParticleGenerator.seedMesh. simpl length.
  change (forN 0 1 ?f ?s) with (f 0%nat s).
  rewrite (seedTriangle_extra_sample (random := pcg32_random)).
  - fold n. rewrite Hfloor. reflexivity.
  - apply pcg32_draws_in_unit.
  - fold n. lra.
Qed.

(** C7, the code at a failing input.  The mesh is the single triangle
    (0,0,0), (1,0,0), (0,1,0) of area 1/2 and the particle radius is 0.36,
    so the expected count n is 1 / (0.2592 pi), about 1.228.  The generator
    is the default-constructed [pcg32]: its first two draws place the one
    deterministic sample, and its third draw, 6652893 / 2^23 (about
    0.793), is the draw the extra sample depends on.  The stated count is
    1, since the draw is not below the fractional part of n (about 0.228);
    the seeding stage emits 2 samples. *)
Theorem seedMesh_failing_input :
  let density := 1 / (PI * sqr 0.36) in
  let n := density * triangleArea triangleMesh 0 in
  let u := draw (random := pcg32_random) 2
             (defaultRng (RandomGen := pcg32_random)) in
  Zfloor n = 1%Z
  /\ u = 6652893 / 8388608
  /\ ~ u < n - IZR (Zfloor n)
  /\ statedSeedCount n u = 1%nat
  /\ length (ParticleGenerator.seeds
               (ParticleGenerator.seedMesh (random := pcg32_random)
                  triangleMesh density)) = 2%nat.
Proof.
  cbv zeta. pose proof triangleMesh_expected as Hn. cbv zeta in Hn.
  set (n := 1 / (PI * sqr 0.36) * triangleArea triangleMesh 0) in *.
  rewrite pcg32_third_draw.
  assert (Hfloor : Zfloor n = 1%Z) by (apply Zfloor_eq; lra).
  assert (Hfrac : ~ 6652893 / 8388608 < n - IZR (Zfloor n))
    by (rewrite Hfloor; lra).
  split; [exact Hfloor |]. split; [reflexivity |]. split; [exact Hfrac |].
  split.
  - unfold statedSeedCount.
    destruct (decide (6652893 / 8388608 < n - IZR (Zfloor n))) as [Hlt | _];
      [contradiction | rewrite Hfloor; reflexivity].
  - apply triangleMesh_seeds.
Qed.

(** ** The collision stage *)

Lemma insert_lookup_total_id {A : Type} `{!Inhabited A} (l : list A) (i : nat) :
  (i < length l)%nat -> <[i := l !!! i]> l = l.
Proof.
  intros Hi. apply list_insert_id, list_lookup_lookup_total_lt, Hi.
Qed.

Section Collisions.
Context {Grid : Type}.
Implicit Types (s : SPH.SPH Grid) (pv : Vector3f * Vector3f).

Lemma setParticle_id s i :
  (i < length (SPH._fluidPositions s))%nat ->
  (i < length (SPH._fluidVelocities s))%nat ->
  setParticle i (SPH._fluidPositions s !!! i, SPH._fluidVelocities s !!! i) s = s.
Proof.
  intros Hp Hv. unfold setParticle. destruct s. simpl in *.
  rewrite !insert_lookup_total_id by assumption. reflexivity.
Qed.

Lemma setParticle_position s i pv :
  (i < length (SPH._fluidPositions s))%nat ->
  SPH._fluidPositions (setParticle i pv s) !!! i = pv.1.
Proof.
  intros Hp. unfold setParticle. destruct s. simpl in *.
  apply list_lookup_total_insert_eq, Hp.
Qed.

Lemma setParticle_bounds s i pv :
  SPH._bounds (setParticle i pv s) = SPH._bounds s.
Proof. destruct s. reflexivity. Qed.

Lemma collisionHandler_setParticle s i n d pv :
  (i < length (SPH._fluidPositions s))%nat ->
  (i < length (SPH._fluidVelocities s))%nat ->
  SPH.collisionHandler i n d (setParticle i pv s)
  = setParticle i (respond 0.5 n d pv) s.
Proof.
  intros Hp Hv. unfold SPH.collisionHandler, setParticle, respond.
  destruct s. simpl in *.
  rewrite !list_lookup_total_insert_eq by assumption.
  rewrite !list_insert_insert_eq. reflexivity.
Qed.

(** One test with the handler of [update], on a state whose particle [i]
    is [pv]: the stated response for that face. *)
Lemma faceTest_setParticle s i pv (f : Face) :
  (i < length (SPH._fluidPositions s))%nat ->
  (i < length (SPH._fluidVelocities s))%nat ->
  faceTest SPH.collisionHandler i f (setParticle i pv s)
  = setParticle i (collideFace (SPH._bounds s) f pv) s.
Proof.
  intros Hp Hv. unfold faceTest, when, collideFace.
  rewrite setParticle_position, setParticle_bounds by assumption.
  destruct (decide (outside (SPH._bounds s) f pv.1)); [| reflexivity].
  apply collisionHandler_setParticle; assumption.
Qed.

(** The six tests of [computeCollisions], one after the other. *)
Lemma collideParticle_tests
    (handler : nat -> Vector3f -> R -> SPH.SPH Grid -> SPH.SPH Grid) i :
  SPH.collideParticle handler i
  = (faceTest handler i XMin >>> faceTest handler i XMax >>>
     faceTest handler i YMin >>> faceTest handler i YMax >>>
     faceTest handler i ZMin >>> faceTest handler i ZMax).
Proof. reflexivity. Qed.

Lemma collideParticle_collideBox s i :
  (i < length (SPH._fluidPositions s))%nat ->
  (i < length (SPH._fluidVelocities s))%nat ->
  SPH.collideParticle SPH.collisionHandler i s
  = setParticle i
      (collideBox (SPH._bounds s)
         (SPH._fluidPositions s !!! i, SPH._fluidVelocities s !!! i)) s.
Proof.
  intros Hp Hv. rewrite collideParticle_tests. unfold andThen.
  rewrite <- (setParticle_id s i Hp Hv) at 1.
  rewrite !faceTest_setParticle by assumption. reflexivity.
Qed.

End Collisions.

Lemma fold_left_preserves {A S : Type} (I : S -> Prop) (f : S -> A -> S)
    (l : list A) (s : S) :
  I s -> (forall a st, a ∈ l -> I st -> I (f st a)) -> I (fold_left f l s).
Proof.
  revert s. induction l as [|a l IH]; intros s H0 Hstep; simpl; [exact H0 |].
  apply IH.
  - apply Hstep; [left | exact H0].
  - intros b st Hb. apply Hstep. right. exact Hb.
Qed.

(** The stated response puts a particle that violates a face on that face
    and leaves its other coordinates alone. *)
Lemma respond_on_face (box : Box3f) (f : Face) (p v : Vector3f) :
  outside box f p ->
  let p' := (respond 0.5 (faceNormal f) (penetration box f p) (p, v)).1 in
  0 < penetration box f p
  /\ coordinate f p' = faceBound box f
  /\ (forall g, coordinate g p' <> coordinate g p ->
                coordinate g p' = coordinate f p').
Proof.
  destruct p as [x y z], box as [[lx ly lz] [hx hy hz]].
  destruct f; simpl; intros Hout; repeat split; try lra;
    intros g; destruct g; simpl; lra.
Qed.

(** The normal of a face has unit length, has a single non-zero component
    and points into a box of positive extent from every point of the
    face. *)
Lemma faceNormal_inward (box : Box3f) (f : Face) :
  squaredNorm (faceNormal f) = 1
  /\ (forall g, coordinate g (faceNormal f) <> 0 ->
                coordinate g = coordinate f)
  /\ (vx (box_min box) < vx (box_max box) ->
      vy (box_min box) < vy (box_max box) ->
      vz (box_min box) < vz (box_max box) ->
      forall q, coordinate f q = faceBound box f ->
                inwardPointing box q (faceNormal f)).
Proof.
  destruct box as [[lx ly lz] [hx hy hz]].
  split; [destruct f; unfold squaredNorm, dot; simpl; lra |].
  split.
  - intros g. destruct f, g; simpl; intros H; try reflexivity; lra.
  - simpl. intros Hx Hy Hz [qx qy qz]. unfold inwardPointing, dot, center.
    destruct f; simpl; intros ->; lra.
Qed.

Lemma collideFace_position (box : Box3f) (f : Face) (pv : Vector3f * Vector3f) :
  (collideFace box f pv).1 = projectOnFace box f pv.1.
Proof.
  unfold collideFace, projectOnFace.
  destruct (decide (outside box f pv.1)); [| reflexivity].
  destruct pv as [[x y z] v], box as [[lx ly lz] [hx hy hz]].
  destruct f; simpl; unfold vadd, vscale; simpl; f_equal; lra.
Qed.

Lemma collideBox_position (box : Box3f) (pv : Vector3f * Vector3f) :
  (collideBox box pv).1
  = projectOnFace box ZMax (projectOnFace box ZMin
      (projectOnFace box YMax (projectOnFace box YMin
        (projectOnFace box XMax (projectOnFace box XMin pv.1))))).
Proof.
  unfold collideBox. cbn [fold_left]. rewrite !collideFace_position. reflexivity.
Qed.


(** ** Every stage keeps the world box and the number of particles *)

Section Shape.
Context {Grid : Type} {grid : GridOps Grid}.
Implicit Types (s st : SPH.SPH Grid).

Lemma sameShape_refl s : sameShape s s.
Proof. repeat split. Qed.

Lemma sameShape_trans s1 s2 s3 :
  sameShape s1 s2 -> sameShape s2 s3 -> sameShape s1 s3.
Proof.
  unfold sameShape. intros (-> & -> & -> & ->) (-> & -> & -> & ->).
  repeat split.
Qed.

Ltac shape := unfold sameShape; simpl; rewrite ?length_insert; repeat split.

Lemma forN_shape s (count : nat) (body : nat -> SPH.SPH Grid -> SPH.SPH Grid) :
  (forall i st, sameShape st (body i st)) ->
  sameShape s (forN 0 count body s).
Proof.
  intros Hbody. apply forN_preserves; [apply sameShape_refl |].
  intros i st _ Hst. eapply sameShape_trans; [exact Hst | apply Hbody].
Qed.

Lemma computeDensity_shape s : sameShape s (SPH.computeDensity s).
Proof. apply forN_shape. intros i st. destruct st. shape. Qed.

Lemma computeNormals_shape s : sameShape s (SPH.computeNormals s).
Proof. apply forN_shape. intros i st. destruct st. shape. Qed.

Lemma forcePair_shape i j (st : SPH.SPH Grid * SPH.Forces) :
  sameShape st.1 (SPH.forcePair i j st).1.
Proof.
  destruct st as [this acc]. unfold SPH.forcePair.
  repeat case_decide; try apply sameShape_refl.
  destruct this. shape.
Qed.

Lemma forceLoop_shape i s : sameShape s (SPH.forceLoop i s).1.
Proof.
  unfold SPH.forceLoop.
  apply (fold_left_preserves (fun x : SPH.SPH Grid * SPH.Forces => sameShape s x.1));
    [apply sameShape_refl |].
  intros j x _ Hx. eapply sameShape_trans; [exact Hx | apply forcePair_shape].
Qed.

Lemma computeForces_shape s : sameShape s (SPH.computeForces s).
Proof.
  apply forN_shape. intros i st. unfold SPH.forceAt.
  pose proof (forceLoop_shape i st) as H.
  destruct (SPH.forceLoop i st) as [this acc]. simpl in H.
  eapply sameShape_trans; [exact H |]. destruct this. shape.
Qed.

Lemma integrate_shape dt s : sameShape s (SPH.integrate dt s).
Proof. apply forN_shape. intros i st. destruct st. shape. Qed.

Lemma gridUpdate_shape s : sameShape s (SPH.gridUpdate s).
Proof.
  unfold SPH.gridUpdate.
  destruct (grid_update (SPH._fluidGrid s) (SPH._fluidPositions s)) as [g swaps].
  apply (sameShape_trans _ (fold_left (fun this ij => SPH.swapParticles ij this) swaps s)).
  - apply (fold_left_preserves (sameShape s)); [apply sameShape_refl |].
    intros [i j] st _ Hst. eapply sameShape_trans; [exact Hst |].
    destruct st. shape.
  - destruct (fold_left _ swaps s). shape.
Qed.


(** The stages of [update] before the collision stage. *)
Lemma before_collisions_shape dt s :
  sameShape (SPH.set_t (SPH._t s + dt) s)
    (SPH.integrate dt
       (SPH.computeForces
          (SPH.computeNormals
             (SPH.computeDensity
                (SPH.gridUpdate (SPH.set_t (SPH._t s + dt) s)))))).
Proof.
  eapply sameShape_trans; [| apply integrate_shape].
  eapply sameShape_trans; [| apply computeForces_shape].
  eapply sameShape_trans; [| apply computeNormals_shape].
  eapply sameShape_trans; [| apply computeDensity_shape].
  apply gridUpdate_shape.
Qed.


End Shape.




(** ** The timestep *)

Section Frames.
Context {Grid : Type} {grid : GridOps Grid}.
Implicit Types (s : SPH.SPH Grid).

Lemma densityAt_frame i s :
  exists D P, SPH.densityAt i s
              = SPH.set_fluidPressures P (SPH.set_fluidDensities D s).
Proof. unfold SPH.densityAt. eauto. Qed.

Lemma normalAt_frame i s :
  exists N, SPH.normalAt i s = SPH.set_fluidNormals N s.
Proof. unfold SPH.normalAt. eauto. Qed.

Lemma forcePair_self i (st : SPH.SPH Grid * SPH.Forces) :
  SPH.forcePair i i st = st.
Proof.
  unfold SPH.forcePair. destruct st as [this acc].
  destruct (decide (i <> i)) as [Hne | _]; [contradiction | reflexivity].
Qed.

(** A particle whose only candidate is itself feels gravity alone. *)
Lemma forceAt_alone i s :
  grid_lookup (SPH._fluidGrid s) (SPH._fluidPositions s !!! i)
    (SPH._kernelRadius s) = [i] ->
  SPH.forceAt i s
  = SPH.set_fluidForces
      (<[i := smul (SPH._particleMass s) (SPH._gravity s)]> (SPH._fluidForces s)) s.
Proof.
  intros Hlookup. unfold SPH.forceAt, SPH.forceLoop. rewrite Hlookup.
  cbn [fold_left]. rewrite forcePair_self. cbn [SPH.force SPH.forceViscosity
    SPH.forceCohesion SPH.forceCurvature].
  f_equal. f_equal.
  destruct (SPH._gravity s) as [gx gy gz].
  unfold smul, vadd, vscale, vzero, vconst. simpl. f_equal; ring.
Qed.

End Frames.

(** The one-particle fluid after the stages of [update] that precede the
    collision stage: the particle has fallen freely for one step. *)
Lemma restingDrop_before_collisions (dt : R) :
  let pre :=
    SPH.integrate dt
      (SPH.computeForces (grid := bruteGrid)
         (SPH.computeNormals (grid := bruteGrid)
            (SPH.computeDensity (grid := bruteGrid)
               (SPH.gridUpdate (grid := bruteGrid)
                  (SPH.set_t (SPH._t restingDrop + dt) restingDrop))))) in
  SPH._fluidPositions pre = [mkVector3f 0 (-9.81 * dt * dt) 0]
  /\ length (SPH._fluidVelocities pre) = 1%nat
  /\ SPH._bounds pre = SPH._bounds restingDrop.
Proof.
  cbv zeta.
  change (SPH.gridUpdate (grid := bruteGrid)
            (SPH.set_t (SPH._t restingDrop + dt) restingDrop))
    with (SPH.set_fluidGrid 1%nat (SPH.set_t (SPH._t restingDrop + dt) restingDrop)).
  set (s1 := SPH.set_fluidGrid 1%nat _).
  change (SPH.computeDensity (grid := bruteGrid) s1)
    with (SPH.densityAt (grid := bruteGrid) 0 s1).
  destruct (densityAt_frame (grid := bruteGrid) 0 s1) as (D & P & ->).
  set (s2 := SPH.set_fluidPressures P _).
  change (SPH.computeNormals (grid := bruteGrid) s2)
    with (SPH.normalAt (grid := bruteGrid) 0 s2).
  destruct (normalAt_frame (grid := bruteGrid) 0 s2) as (N & ->).
  set (s3 := SPH.set_fluidNormals N _).
  change (SPH.computeForces (grid := bruteGrid) s3)
    with (SPH.forceAt (grid := bruteGrid) 0 s3).
  rewrite (forceAt_alone (grid := bruteGrid) 0 s3) by reflexivity.
  split; [| split; reflexivity].
  unfold SPH.integrate, forN. cbn -[Rplus Rmult Rdiv Ropp IZR Rminus cube].
  f_equal. unfold smul, vadd, vscale, vzero, vconst, cube. simpl.
  f_equal; field; lra.
Qed.

Lemma projectOnFace_inside (box : Box3f) (f : Face) (p : Vector3f) :
  ~ outside box f p -> projectOnFace box f p = p.
Proof.
  intros Hin. unfold projectOnFace.
  destruct (decide (outside box f p)); [contradiction | reflexivity].
Qed.

(** The positions of the one-particle fluid after [update]. *)
Lemma restingDrop_update (dt : R) :
  SPH._fluidPositions (SPH.update (grid := bruteGrid) dt restingDrop)
  = [(collideBox (SPH._bounds restingDrop)
        (mkVector3f 0 (-9.81 * dt * dt) 0,
         SPH._fluidVelocities
           (SPH.integrate dt
              (SPH.computeForces (grid := bruteGrid)
                 (SPH.computeNormals (grid := bruteGrid)
                    (SPH.computeDensity (grid := bruteGrid)
                       (SPH.gridUpdate (grid := bruteGrid)
                          (SPH.set_t (SPH._t restingDrop + dt) restingDrop))))))
           !!! 0%nat)).1].
Proof.
  unfold SPH.update. cbv zeta.
  destruct (restingDrop_before_collisions dt) as (Hpos & Hvel & Hb).
  cbv zeta in Hpos, Hvel, Hb.
  set (pre := SPH.integrate dt _) in *.
  unfold SPH.computeCollisions. rewrite Hpos. cbn [length].
  change (forN 0 1 ?f ?st) with (f 0%nat st).
  rewrite collideParticle_collideBox by (rewrite ?Hpos, ?Hvel; simpl; lia).
  rewrite Hb, Hpos. unfold setParticle.
  destruct pre. simpl in *. rewrite Hpos. reflexivity.
Qed.

(** C5, as stated, fails: on the one-particle fluid a step of one second
    and a step of [min(1, maxTimestep())] leave the particle at different
    heights. *)
Lemma update_does_not_clamp :
  SPH.update (grid := bruteGrid) 1 restingDrop
  <> SPH.update (grid := bruteGrid) (Rmin 1 (SPH.maxTimestep restingDrop))
       restingDrop.
Proof.
  intros Heq. apply (f_equal SPH._fluidPositions) in Heq.
  assert (Hmin : Rmin 1 (SPH.maxTimestep restingDrop) = 1e-3).
  { unfold SPH.maxTimestep. simpl. apply Rmin_right. lra. }
  rewrite Hmin, !restingDrop_update in Heq.
  injection Heq as Heq.
  rewrite !collideBox_position in Heq. cbn [fst] in Heq.
  set (box := mkBox3f (mkVector3f (-1) (-1) (-1)) (mkVector3f 1 1 1)) in *.
  assert (Hlong :
    projectOnFace box ZMax (projectOnFace box ZMin
      (projectOnFace box YMax (projectOnFace box YMin
        (projectOnFace box XMax (projectOnFace box XMin
          (mkVector3f 0 (-9.81 * 1 * 1) 0))))))
    = mkVector3f 0 (-1) 0).
  { rewrite (projectOnFace_inside _ XMin) by (simpl; lra).
    rewrite (projectOnFace_inside _ XMax) by (simpl; lra).
    replace (projectOnFace box YMin (mkVector3f 0 (-9.81 * 1 * 1) 0))
      with (mkVector3f 0 (-1) 0).
    - rewrite (projectOnFace_inside _ YMax) by (simpl; lra).
      rewrite (projectOnFace_inside _ ZMin) by (simpl; lra).
      apply projectOnFace_inside. simpl. lra.
    - unfold projectOnFace.
      destruct (decide (outside box YMin (mkVector3f 0 (-9.81 * 1 * 1) 0)))
        as [_ | Hn]; [reflexivity |].
      exfalso. apply Hn. simpl. lra. }
  assert (Hshort :
    projectOnFace box ZMax (projectOnFace box ZMin
      (projectOnFace box YMax (projectOnFace box YMin
        (projectOnFace box XMax (projectOnFace box XMin
          (mkVector3f 0 (-9.81 * 1e-3 * 1e-3) 0))))))
    = mkVector3f 0 (-9.81 * 1e-3 * 1e-3) 0).
  { rewrite (projectOnFace_inside _ XMin) by (simpl; lra).
    rewrite (projectOnFace_inside _ XMax) by (simpl; lra).
    rewrite (projectOnFace_inside _ YMin) by (simpl; lra).
    rewrite (projectOnFace_inside _ YMax) by (simpl; lra).
    rewrite (projectOnFace_inside _ ZMin) by (simpl; lra).
    apply projectOnFace_inside. simpl. lra. }
  rewrite Hlong, Hshort in Heq.
  injection Heq as Heq. lra.
Qed.

Section NoClamp.
Context {Grid : Type} {grid : GridOps Grid}.
Implicit Types (s : SPH.SPH Grid).

Lemma faceTest_shape s i f :
  sameShape s (faceTest SPH.collisionHandler i f s).
Proof.
  unfold faceTest, when. case_decide; [| apply sameShape_refl].
  destruct s. unfold sameShape. simpl. rewrite !length_insert. repeat split.
Qed.

Lemma collideParticle_shape s i :
  sameShape s (SPH.collideParticle SPH.collisionHandler i s).
Proof.
  rewrite collideParticle_tests. unfold andThen.
  repeat (eapply sameShape_trans; [| apply faceTest_shape]).
  apply sameShape_refl.
Qed.

Lemma update_shape dt s :
  sameShape (SPH.set_t (SPH._t s + dt) s) (SPH.update dt s).
Proof.
  unfold SPH.update. cbv zeta.
  eapply sameShape_trans; [apply before_collisions_shape |].
  unfold SPH.computeCollisions. apply forN_shape.
  intros i st. apply collideParticle_shape.
Qed.

End NoClamp.

(** ** The constructor keeps the parameters it derives *)

Section Construction.
Context {Grid VoxelGrid Rng : Type}.
Context {grid : GridOps Grid} {geometry : Geometry VoxelGrid}.
Context {random : RandomGen Rng} {meshIO : MeshIO}.
Implicit Types (s : SPH.SPH Grid).

Lemma sameParameters_refl s : sameParameters s s.
Proof. repeat split. Qed.

Lemma sameParameters_trans s1 s2 s3 :
  sameParameters s1 s2 -> sameParameters s2 s3 -> sameParameters s1 s3.
Proof.
  unfold sameParameters.
  intros (-> & -> & -> & -> & -> & -> & -> & ->)
         (-> & -> & -> & -> & -> & -> & -> & ->).
  repeat split.
Qed.

Ltac params := unfold sameParameters; simpl; repeat split.

Lemma voxelizeBox_parameters box s : sameParameters s (SPH.voxelizeBox box s).
Proof.
  unfold SPH.voxelizeBox.
  apply forZ_preserves; [apply sameParameters_refl |]. intros z st1 _ H1.
  apply forZ_preserves; [exact H1 |]. intros y st2 _ H2.
  apply forZ_preserves; [exact H2 |]. intros x st3 _ H3.
  eapply sameParameters_trans; [exact H3 |]. destruct st3. params.
Qed.

Lemma voxelizeSphere_parameters pos radius s :
  sameParameters s (SPH.voxelizeSphere pos radius s).
Proof.
  unfold SPH.voxelizeSphere.
  apply forZ_preserves; [apply sameParameters_refl |]. intros z st1 _ H1.
  apply forZ_preserves; [exact H1 |]. intros y st2 _ H2.
  apply forZ_preserves; [exact H2 |]. intros x st3 _ H3.
  case_decide; [| exact H3].
  eapply sameParameters_trans; [exact H3 |]. destruct st3. params.
Qed.

Lemma voxelizeMesh_parameters mesh s :
  sameParameters s
    (SPH.voxelizeMesh (VoxelGrid := VoxelGrid) (Rng := Rng) mesh s).
Proof.
  unfold SPH.voxelizeMesh, SPH.addBoundaryParticles.
  destruct (type mesh); destruct s; params.
Qed.

(** The parameters of a freshly constructed simulator. *)
Lemma new_parameters (scene : Scene) :
  let this := SPH.new (VoxelGrid := VoxelGrid) (Rng := Rng) scene in
  let r := getFloat scene "particleRadius" 0.01 in
  let rho0 := getFloat scene "restDensity" 1000 in
  let h := 4 * r in
  let m := rho0 / cube (1 / (2 * r)) in
  SPH._kernelRadius this = h
  /\ SPH._particleMass this = m
  /\ SPH._maxTimestep this = 1e-3
  /\ SPH._gravity this = getVector3 scene "gravity" (mkVector3f 0 (-9.81) 0)
  /\ SPH.wcsph this
     = SPH.mkWCSPH 7 10 (rho0 * sqr 10 / 7) 0.005
         (Rmin (0.25 * h / (m * 9.81)) (0.4 * h / (10 * (1 + 0.6 * 0.005)))).
Proof.
  cbv zeta. unfold SPH.new. cbv zeta.
  match goal with
  | |- context [fold_left _ (boxes scene) ?s0] => set (this0 := s0)
  end.
  set (this1 := fold_left _ (boxes scene) this0).
  set (this2 := fold_left _ (spheres scene) this1).
  set (this3 := fold_left _ (meshes scene) this2).
  assert (H1 : sameParameters this0 this1).
  { apply (fold_left_preserves (sameParameters this0)); [apply sameParameters_refl |].
    intros box st _ Hst. eapply sameParameters_trans; [exact Hst |].
    apply voxelizeBox_parameters. }
  assert (H2 : sameParameters this1 this2).
  { apply (fold_left_preserves (sameParameters this1)); [apply sameParameters_refl |].
    intros sphere st _ Hst. eapply sameParameters_trans; [exact Hst |].
    apply voxelizeSphere_parameters. }
  assert (H3 : sameParameters this2 this3).
  { apply (fold_left_preserves (sameParameters this2)); [apply sameParameters_refl |].
    intros mesh st _ Hst. eapply sameParameters_trans; [exact Hst |].
    apply voxelizeMesh_parameters. }
  pose proof (sameParameters_trans _ _ _ (sameParameters_trans _ _ _ H1 H2) H3)
    as (Hpar & _ & _ & Hmax & Hg & Hw & _ & _).
  clearbody this3. clear H1 H2 H3 this1 this2.
  pose proof (f_equal SPH.kernelRadius Hpar) as Hh.
  pose proof (f_equal SPH.particleMass Hpar) as Hm.
  destruct this3. simpl in *.
  repeat split; assumption.
Qed.

End Construction.

(** C4, as the code has it.  For every configuration [maxTimestep()]
    returns the cap 0.001.  The smaller of the two terms is computed, with
    the constant 9.81 for the gravity, and kept in [wcsph.dt]; it does not
    enter [maxTimestep()], which therefore is the stated minimum exactly
    when the two terms are at least 0.001. *)
Theorem maxTimestep_is_the_cap {Grid VoxelGrid Rng : Type}
    {grid : GridOps Grid} {geometry : Geometry VoxelGrid}
    {random : RandomGen Rng} {meshIO : MeshIO} (scene : Scene) :
  let this := SPH.new (Grid := Grid) (VoxelGrid := VoxelGrid) (Rng := Rng) scene in
  let r := getFloat scene "particleRadius" 0.01 in
  let rho0 := getFloat scene "restDensity" 1000 in
  let g := getVector3 scene "gravity" (mkVector3f 0 (-9.81) 0) in
  let h := 4 * r in
  let m := rho0 / cube (1 / (2 * r)) in
  let terms :=
    Rmin (0.25 * h / (m * norm g)) (0.4 * h / (10 * (1 + 0.6 * 0.005))) in
  SPH.maxTimestep this = 1e-3
  /\ SPH.dt (SPH.wcsph this)
     = Rmin (0.25 * h / (m * 9.81)) (0.4 * h / (10 * (1 + 0.6 * 0.005)))
  /\ statedMaxTimestep (SPH._kernelRadius this) (SPH._particleMass this)
       (SPH._gravity this) (SPH.cs (SPH.wcsph this))
       (SPH.viscosity (SPH.wcsph this))
     = Rmin terms 1e-3
  /\ (SPH.maxTimestep this
      = statedMaxTimestep (SPH._kernelRadius this) (SPH._particleMass this)
          (SPH._gravity this) (SPH.cs (SPH.wcsph this))
          (SPH.viscosity (SPH.wcsph this))
      <-> 1e-3 <= terms).
Proof.
  cbv zeta.
  destruct (new_parameters (Grid := Grid) (VoxelGrid := VoxelGrid) (Rng := Rng) scene)
    as (Hh & Hm & Hmax & Hg & Hw).
  cbv zeta in Hh, Hm, Hmax, Hg, Hw.
  unfold SPH.maxTimestep. rewrite Hh, Hm, Hmax, Hg, Hw. simpl.
  unfold statedMaxTimestep.
  split; [reflexivity |]. split; [reflexivity |]. split; [reflexivity |].
  split.
  - intros Heq. rewrite Heq. apply Rmin_l.
  - intros Hle. symmetry. apply Rmin_right. exact Hle.
Qed.

Lemma fineScene_radius : getFloat fineScene "particleRadius" 0.01 = 0.005.
Proof. unfold getFloat, fineScene. simpl. rewrite lookup_singleton_eq. reflexivity. Qed.

(** C4, as stated, fails: for a particle radius of 0.005 the second term is
    below 0.001, and [maxTimestep()] still returns 0.001. *)
Lemma maxTimestep_not_the_stated_minimum :
  let this :=
    SPH.new (grid := bruteGrid) (geometry := planeGeometry)
      (random := constantRng 0.9) (meshIO := noMeshes) fineScene in
  SPH.maxTimestep this
  <> statedMaxTimestep (SPH._kernelRadius this) (SPH._particleMass this)
       (SPH._gravity this) (SPH.cs (SPH.wcsph this))
       (SPH.viscosity (SPH.wcsph this)).
Proof.
  cbv zeta.
  destruct (new_parameters (grid := bruteGrid) (geometry := planeGeometry)
              (random := constantRng 0.9) (meshIO := noMeshes) fineScene)
    as (Hh & Hm & Hmax & Hg & Hw).
  cbv zeta in Hh, Hm, Hmax, Hg, Hw.
  unfold SPH.maxTimestep. rewrite Hh, Hm, Hmax, Hg, Hw. simpl.
  rewrite fineScene_radius. unfold statedMaxTimestep.
  intros Heq.
  assert (Hsecond : 0.4 * (4 * 0.005) / (10 * (1 + 0.6 * 0.005)) < 1e-3).
  { apply Rmult_lt_reg_r with (10 * (1 + 0.6 * 0.005)); [lra |].
    unfold Rdiv. rewrite Rmult_assoc, Rinv_l by lra. lra. }
  match type of Heq with
  | _ = Rmin (Rmin ?a ?b) ?c =>
      pose proof (Rmin_l (Rmin a b) c) as H1; pose proof (Rmin_r a b) as H2
  end.
  lra.
Qed.

(** ** The density stage *)

Lemma sumOver_Permutation (l l' : list nat) (f : nat -> R) :
  l ≡ₚ l' -> sumOver l f = sumOver l' f.
Proof.
  induction 1 as [| j l l' _ IH | j k l | l1 l2 l3 _ IH1 _ IH2]; simpl.
  - reflexivity.
  - rewrite IH. reflexivity.
  - ring.
  - rewrite IH1. exact IH2.
Qed.

(** A loop that adds [f j] for the visited [j] that pass a test computes
    the sum over the visited [j] that pass it. *)
Lemma fold_left_sum (P : nat -> Prop) `{!forall j, Decision (P j)}
    (f : nat -> R) (l : list nat) (a : R) :
  fold_left (fun a j => if decide (P j) then a + f j else a) l a
  = a + sumOver (filter P l) f.
Proof.
  revert a. induction l as [|j l IH]; intros a; simpl.
  - ring.
  - rewrite IH, filter_cons. destruct (decide (P j)); simpl; ring.
Qed.

(** Under the contract of the grid, the visited indices that pass the
    distance test are the neighbours, in some order. *)
Lemma filter_visited (P : nat -> Prop) `{!forall j, Decision (P j)}
    (visited : list nat) (size : nat) :
  NoDup visited ->
  (forall j, j ∈ visited -> (j < size)%nat) ->
  (forall j, (j < size)%nat -> P j -> j ∈ visited) ->
  filter P visited ≡ₚ filter P (seq 0 size).
Proof.
  intros Hnodup Hrange Hcomplete.
  apply NoDup_Permutation.
  - apply NoDup_filter, Hnodup.
  - apply NoDup_filter, NoDup_seq.
  - intros j. rewrite !list_elem_of_filter, elem_of_seq. split.
    + intros [HP Hj]. split; [exact HP |]. specialize (Hrange j Hj). lia.
    + intros [HP Hj]. split; [exact HP |]. apply Hcomplete; [lia | exact HP].
Qed.

Lemma insert_congr {A : Type} (l : list A) (i : nat) (a b : A) :
  a = b -> <[i := a]> l = <[i := b]> l.
Proof. intros ->. reflexivity. Qed.

Section Density.
Context {Grid : Type} {grid : GridOps Grid}.
Implicit Types (s : SPH.SPH Grid).


(** The sum that [computeDensity] accumulates for particle [i]. *)
Lemma iterateNeighbours_sum s i :
  lookupContract (SPH._fluidGrid s) (SPH._fluidPositions s) (SPH._kernelRadius s) ->
  SPH._kernelRadius2 s = sqr (SPH._kernelRadius s) ->
  SPH.iterateNeighbours s (SPH._fluidGrid s) (SPH._fluidPositions s)
    (SPH._fluidPositions s !!! i)
    (fun j r r2 density => density + poly6 (SPH._kernel s) r2) 0
  = sumOver (neighbours s i) (fun j =>
      poly6 (SPH._kernel s)
        (squaredNorm (SPH._fluidPositions s !!! i -v SPH._fluidPositions s !!! j))).
Proof.
  intros Hgrid Hh2. unfold SPH.iterateNeighbours, neighbours.
  destruct (Hgrid (SPH._fluidPositions s !!! i)) as (Hnodup & Hrange & Hcomplete).
  set (P := fun j => squaredNorm (SPH._fluidPositions s !!! i
                                  -v SPH._fluidPositions s !!! j)
                     < SPH._kernelRadius2 s).
  set (f := fun j => poly6 (SPH._kernel s)
                       (squaredNorm (SPH._fluidPositions s !!! i
                                     -v SPH._fluidPositions s !!! j))).
  change (fold_left (fun a j => if decide (P j) then a + f j else a)
            (grid_lookup (SPH._fluidGrid s) (SPH._fluidPositions s !!! i)
               (SPH._kernelRadius s)) 0
          = sumOver (filter P (seq 0 (length (SPH._fluidPositions s)))) f).
  rewrite fold_left_sum, Rplus_0_l.
  apply sumOver_Permutation, filter_visited; [exact Hnodup | exact Hrange |].
  intros j Hj HP. apply Hcomplete; [exact Hj |].
  unfold P in HP. rewrite <- Hh2. exact HP.
Qed.

Lemma densityAt_setDP s i D P :
  lookupContract (SPH._fluidGrid s) (SPH._fluidPositions s) (SPH._kernelRadius s) ->
  SPH._kernelRadius2 s = sqr (SPH._kernelRadius s) ->
  SPH.densityAt i (setDP D P s)
  = setDP (<[i := statedDensity s i]> D)
          (<[i := taitPressure s (statedDensity s i)]> P) s.
Proof.
  intros Hgrid Hh2. unfold SPH.densityAt, setDP.
  pose proof (iterateNeighbours_sum s i Hgrid Hh2) as Hsum.
  destruct s. simpl in *.
  unfold SPH.iterateNeighbours in *. simpl in *. rewrite Hsum.
  unfold statedDensity, taitPressure. simpl.
  unfold SPH.set_fluidPressures, SPH.set_fluidDensities. simpl.
  f_equal; apply insert_congr; unfold Rdiv; ring.
Qed.

Lemma computeDensity_setDP s :
  lookupContract (SPH._fluidGrid s) (SPH._fluidPositions s) (SPH._kernelRadius s) ->
  SPH._kernelRadius2 s = sqr (SPH._kernelRadius s) ->
  length (SPH._fluidDensities s) = length (SPH._fluidPositions s) ->
  length (SPH._fluidPressures s) = length (SPH._fluidPositions s) ->
  exists D P,
    SPH.computeDensity s = setDP D P s
    /\ forall i, (i < length (SPH._fluidPositions s))%nat ->
                 D !!! i = statedDensity s i
                 /\ P !!! i = taitPressure s (statedDensity s i).
Proof.
  intros Hgrid Hh2 HlenD HlenP. unfold SPH.computeDensity.
  set (size := length (SPH._fluidPositions s)) in *.
  pose (I := fun (k : nat) (st : SPH.SPH Grid) =>
       exists D P,
         st = setDP D P s /\ length D = size /\ length P = size
         /\ forall i, (i < k)%nat ->
                      D !!! i = statedDensity s i
                      /\ P !!! i = taitPressure s (statedDensity s i)).
  assert (Hloop : I size (forN 0 size SPH.densityAt s)).
  { apply (forN_ind I); unfold I; [lia | |].
    - exists (SPH._fluidDensities s), (SPH._fluidPressures s).
      split; [destruct s; reflexivity |].
      split; [exact HlenD |]. split; [exact HlenP |]. intros i Hi. lia.
    - intros k st Hk (D & P & -> & HD & HP & Hdone).
      rewrite densityAt_setDP by assumption.
      eexists _, _. split; [reflexivity |].
      rewrite !length_insert. split; [exact HD |]. split; [exact HP |].
      intros i Hi. destruct (decide (i = k)) as [-> | Hne].
      + rewrite !list_lookup_total_insert_eq by lia. split; reflexivity.
      + rewrite !list_lookup_total_insert_ne by auto. apply Hdone. lia. }
  destruct Hloop as (D & P & Heq & _ & _ & Hall). eauto.
Qed.

End Density.

(** C1.  For a fluid particle [i], the density stage stores the density
    K_p m times the sum of poly6(|x_i - x_j|^2) over the particles [j]
    within the kernel radius, [i] itself among them, and the pressure
    B ((rho_i / rho_0)^7 - 1), also where that pressure is negative.  The
    grid meets its contract, [h^2] is the cached square of [h > 0], and
    the two buffers are as long as the position buffer. *)
Theorem density_stage {Grid : Type} {grid : GridOps Grid}
    (s : SPH.SPH Grid) (i : nat) :
  lookupContract (SPH._fluidGrid s) (SPH._fluidPositions s) (SPH._kernelRadius s) ->
  SPH._kernelRadius2 s = sqr (SPH._kernelRadius s) ->
  0 < SPH._kernelRadius2 s ->
  (i < length (SPH._fluidPositions s))%nat ->
  length (SPH._fluidDensities s) = length (SPH._fluidPositions s) ->
  length (SPH._fluidPressures s) = length (SPH._fluidPositions s) ->
  let s' := SPH.computeDensity s in
  let rho := SPH._fluidDensities s' !!! i in
  let p := SPH._fluidPressures s' !!! i in
  rho = poly6Constant (SPH._kernel s) * SPH._particleMass s
        * sumOver (neighbours s i) (fun j =>
            poly6 (SPH._kernel s)
              (squaredNorm (SPH._fluidPositions s !!! i
                            -v SPH._fluidPositions s !!! j)))
  /\ i ∈ neighbours s i
  /\ (forall j, j ∈ neighbours s i <->
                (j < length (SPH._fluidPositions s))%nat
                /\ squaredNorm (SPH._fluidPositions s !!! i
                                -v SPH._fluidPositions s !!! j)
                   < SPH._kernelRadius2 s)
  /\ p = SPH.B (SPH.wcsph s) * ((rho / SPH._restDensity s) ^ 7 - 1)
  /\ (0 < SPH.B (SPH.wcsph s) -> 0 <= rho < SPH._restDensity s -> p < 0).
Proof.
  intros Hgrid Hh2 Hpos Hi HlenD HlenP. cbv zeta.
  destruct (computeDensity_setDP s Hgrid Hh2 HlenD HlenP) as (D & P & -> & Hall).
  unfold setDP. destruct (Hall i Hi) as [HD HP].
  assert (Hmem : forall j, j ∈ neighbours s i <->
                (j < length (SPH._fluidPositions s))%nat
                /\ squaredNorm (SPH._fluidPositions s !!! i
                                -v SPH._fluidPositions s !!! j)
                   < SPH._kernelRadius2 s).
  { intros j. unfold neighbours. rewrite list_elem_of_filter, elem_of_seq.
    split; intros [H1 H2]; split; auto; lia. }
  assert (Hrho : SPH._fluidDensities
                   (SPH.set_fluidPressures P (SPH.set_fluidDensities D s)) !!! i
                 = statedDensity s i) by (destruct s; exact HD).
  assert (Hp : SPH._fluidPressures
                 (SPH.set_fluidPressures P (SPH.set_fluidDensities D s)) !!! i
               = taitPressure s (statedDensity s i)) by (destruct s; exact HP).
  rewrite Hrho, Hp.
  split; [reflexivity |]. split.
  { apply Hmem. split; [exact Hi |].
    replace (squaredNorm _) with 0; [exact Hpos |].
    destruct (SPH._fluidPositions s !!! i).
    unfold squaredNorm, dot, vsub. simpl. ring. }
  split; [exact Hmem |]. split; [reflexivity |].
  intros HB [Hlo Hhi]. unfold taitPressure.
  set (rho := statedDensity s i) in *.
  assert (Ht : 0 <= rho / SPH._restDensity s < 1).
  { split.
    - apply Rmult_le_pos; [exact Hlo |]. left. apply Rinv_0_lt_compat. lra.
    - apply Rmult_lt_reg_r with (SPH._restDensity s); [lra |].
      unfold Rdiv. rewrite Rmult_assoc, Rinv_l by lra. lra. }
  assert (Hpow : 0 <= (rho / SPH._restDensity s) ^ 7 < 1)
    by (apply pow_lt_1_compat; [exact Ht | lia]).
  nra.
Qed.

Lemma bruteGrid_contract (positions : list Vector3f) (radius : R) :
  lookupContract (grid := bruteGrid) (length positions) positions radius.
Proof.
  intros p. simpl. split; [apply NoDup_seq |].
  split; intros j; rewrite elem_of_seq; lia.
Qed.

(** C1 at the one-particle fluid. *)
Lemma density_stage_witness :
  let s := restingDrop in
  let i := 0%nat in
  let s' := SPH.computeDensity (grid := bruteGrid) s in
  let rho := SPH._fluidDensities s' !!! i in
  let p := SPH._fluidPressures s' !!! i in
  rho = poly6Constant (SPH._kernel s) * SPH._particleMass s
        * sumOver (neighbours s i) (fun j =>
            poly6 (SPH._kernel s)
              (squaredNorm (SPH._fluidPositions s !!! i
                            -v SPH._fluidPositions s !!! j)))
  /\ i ∈ neighbours s i
  /\ (forall j, j ∈ neighbours s i <->
                (j < length (SPH._fluidPositions s))%nat
                /\ squaredNorm (SPH._fluidPositions s !!! i
                                -v SPH._fluidPositions s !!! j)
                   < SPH._kernelRadius2 s)
  /\ p = SPH.B (SPH.wcsph s) * ((rho / SPH._restDensity s) ^ 7 - 1)
  /\ (0 < SPH.B (SPH.wcsph s) -> 0 <= rho < SPH._restDensity s -> p < 0).
Proof.
  apply (density_stage (grid := bruteGrid) restingDrop 0).
  - apply (bruteGrid_contract [mkVector3f 0 0 0]).
  - reflexivity.
  - simpl. unfold sqr. lra.
  - simpl. lia.
  - reflexivity.
  - reflexivity.
Defined.

(** ** The pressure force of an isolated pair *)

Section PairForces.
Context {Grid : Type} {grid : GridOps Grid}.
Implicit Types (s : SPH.SPH Grid) (acc : SPH.Forces).

(** The lookup loop of particle [i] when the only other particle is [j]:
    the visitor runs for [j] once, or not at all. *)
Lemma forcePair_fold i j (c : list nat) (st : SPH.SPH Grid * SPH.Forces) :
  i <> j -> NoDup c -> (forall k, k ∈ c -> k = i \/ k = j) ->
  fold_left (fun st k => SPH.forcePair i k st) c st
  = if decide (j ∈ c) then SPH.forcePair i j st else st.
Proof.
  intros Hij Hnodup Hc. revert st.
  induction c as [|k c IH]; intros st; simpl.
  - destruct (decide (j ∈ [])) as [Hin | _]; [inversion Hin | reflexivity].
  - apply NoDup_cons in Hnodup as [Hk Hnodup].
    assert (Hc' : forall k', k' ∈ c -> k' = i \/ k' = j)
      by (intros k' Hk'; apply Hc; right; exact Hk').
    rewrite (IH Hnodup Hc').
    assert (Hcase : k = i \/ k = j) by (apply Hc; left).
    destruct Hcase as [-> | ->].
    + rewrite forcePair_self.
      destruct (decide (j ∈ c)) as [Hin | Hout];
        destruct (decide (j ∈ i :: c)) as [Hin' | Hout']; try reflexivity.
      * exfalso. apply Hout'. right. exact Hin.
      * exfalso. apply elem_of_cons in Hin' as [Heq | Hin']; auto.
    + destruct (decide (j ∈ c)) as [Hin | _]; [contradiction |].
      destruct (decide (j ∈ j :: c)) as [_ | Hout]; [reflexivity |].
      exfalso. apply Hout. left.
Qed.

(** The three outcomes of the visitor for a pair of distinct particles. *)
Lemma forcePair_cases i j s acc :
  i <> j ->
  let r2 := squaredNorm (SPH._fluidPositions s !!! i -v SPH._fluidPositions s !!! j) in
  (inRange s i j ->
   (SPH.forcePair i j (s, acc)).1 = s
   /\ SPH.force (SPH.forcePair i j (s, acc)).2
      = (SPH.force acc -v pairForce s i j)%V)
  /\ (~ inRange s i j -> r2 = 0 ->
      SPH.forcePair i j (s, acc) = (nudged j s, acc))
  /\ (~ inRange s i j -> r2 <> 0 -> SPH.forcePair i j (s, acc) = (s, acc)).
Proof.
  intros Hij. cbv zeta. unfold SPH.forcePair, inRange, pairForce, nudged.
  destruct (decide (i <> j)) as [_ | Hn]; [| contradiction].
  cbv zeta.
  destruct (decide (_ /\ _)) as [Hin | Hout].
  - split; [intros _; split; reflexivity |].
    split; intros Hn; contradiction.
  - split; [intros Hin; contradiction |].
    destruct (decide (_ = 0)) as [H0 | Hn0].
    + split; [intros _ _; reflexivity | intros _ Hn; contradiction].
    + split; [intros _ H0; contradiction | intros _ _; reflexivity].
Qed.

(** The lookup loop of particle [i] in a fluid whose only other particle
    is [j]. *)
Lemma forceLoop_pair i j s :
  i <> j ->
  let c := grid_lookup (SPH._fluidGrid s) (SPH._fluidPositions s !!! i)
             (SPH._kernelRadius s) in
  NoDup c -> (forall k, k ∈ c -> k = i \/ k = j) ->
  let res := SPH.forceLoop i s in
  (inRange s i j -> j ∈ c ->
   res.1 = s /\ SPH.force res.2 = (vconst 0 -v pairForce s i j)%V)
  /\ (~ inRange s i j ->
      SPH.force res.2 = vconst 0
      /\ (res.1 = s
          \/ (squaredNorm (SPH._fluidPositions s !!! i -v SPH._fluidPositions s !!! j) = 0
              /\ res.1 = nudged j s))).
Proof.
  intros Hij c Hnodup Hc res. unfold res, SPH.forceLoop. fold c.
  rewrite (forcePair_fold i j c _ Hij Hnodup Hc).
  set (acc := SPH.mkForces (vconst 0) vzero vzero vzero).
  destruct (forcePair_cases i j s acc Hij) as (Hin & Hzero & Hfar).
  split.
  - intros Hrange Hj. destruct (decide (j ∈ c)); [| contradiction].
    apply Hin, Hrange.
  - intros Hout. destruct (decide (j ∈ c)); [| split; [reflexivity | left; reflexivity]].
    destruct (decide (squaredNorm (SPH._fluidPositions s !!! i
                                   -v SPH._fluidPositions s !!! j) = 0))
      as [H0 | Hn0].
    + rewrite (Hzero Hout H0). split; [reflexivity | right; split; [exact H0 | reflexivity]].
    + rewrite (Hfar Hout Hn0). split; [reflexivity | left; reflexivity].
Qed.

Lemma forceAt_state i s :
  exists F, SPH.forceAt i s = SPH.set_fluidForces F (SPH.forceLoop i s).1.
Proof.
  unfold SPH.forceAt. destruct (SPH.forceLoop i s) as [this acc]. simpl. eauto.
Qed.

End PairForces.

Lemma squaredNorm_vsub_sym (a b : Vector3f) :
  squaredNorm (a -v b) = squaredNorm (b -v a).
Proof. destruct a, b. unfold squaredNorm, dot, vsub. simpl. ring. Qed.

Lemma vsub_vopp (a b : Vector3f) : (b -v a)%V = vopp (a -v b).
Proof. destruct a, b. unfold vsub, vopp. simpl. f_equal; ring. Qed.

Lemma squaredNorm_zero (a b : Vector3f) : squaredNorm (a -v b) = 0 -> a = b.
Proof.
  destruct a as [ax ay az], b as [bx b_y bz].
  unfold squaredNorm, dot, vsub. simpl. intros H.
  assert (Hsq : forall t, t * t = 0 -> t = 0)
    by (intros t Ht; destruct (Rmult_integral _ _ Ht); assumption).
  pose proof (Rle_0_sqr (ax - bx)) as Hx. pose proof (Rle_0_sqr (ay - b_y)) as Hy.
  pose proof (Rle_0_sqr (az - bz)) as Hz. unfold Rsqr in Hx, Hy, Hz.
  assert (ax - bx = 0) by (apply Hsq; lra).
  assert (ay - b_y = 0) by (apply Hsq; lra).
  assert (az - bz = 0) by (apply Hsq; lra).
  f_equal; lra.
Qed.

(** Two particles at the same place, one of them nudged, are too close to
    contribute. *)
Lemma nudge_too_close (a : Vector3f) :
  squaredNorm ((a +v vconst 1e-5) -v a) <= 0.00001.
Proof.
  destruct a as [ax ay az]. unfold squaredNorm, dot, vsub, vadd, vconst. simpl.
  replace (ax + 1e-5 - ax) with 1e-5 by ring.
  replace (ay + 1e-5 - ay) with 1e-5 by ring.
  replace (az + 1e-5 - az) with 1e-5 by ring.
  lra.
Qed.

Lemma squaredNorm_vopp (a : Vector3f) : squaredNorm (vopp a) = squaredNorm a.
Proof. destruct a. unfold squaredNorm, dot, vopp. simpl. ring. Qed.

Section PairTheorem.
Context {Grid : Type} {grid : GridOps Grid}.
Implicit Types (s : SPH.SPH Grid).

(** In a fluid of two particles the pressure contributions of the two
    lookup loops of [computeForces] are opposite. *)
Lemma pressure_pair_opposite s :
  length (SPH._fluidPositions s) = 2%nat ->
  lookupContract (SPH._fluidGrid s) (SPH._fluidPositions s) (SPH._kernelRadius s) ->
  SPH._kernelRadius2 s = sqr (SPH._kernelRadius s) ->
  (forall r rn, spikyGrad (SPH._kernel s) (vopp r) rn
                = vopp (spikyGrad (SPH._kernel s) r rn)) ->
  pressureContribution 0 s = vopp (pressureContribution 1 (SPH.forceAt 0 s)).
Proof.
  intros Hlen Hgrid Hh2 Hodd. unfold pressureContribution.
  assert (Hpair : forall p k,
            k ∈ grid_lookup (SPH._fluidGrid s) p (SPH._kernelRadius s) ->
            forall i j, i <> j -> (i < 2)%nat -> (j < 2)%nat -> k = i \/ k = j).
  { intros p k Hk i j Hij Hi Hj. destruct (Hgrid p) as (_ & Hrange & _).
    specialize (Hrange k Hk). lia. }
  (* particle 0 *)
  destruct (Hgrid (SPH._fluidPositions s !!! 0%nat)) as (Hnodup0 & _ & Hcomplete0).
  destruct (forceLoop_pair 0 1 s) as [Hin0 Hout0];
    [lia | exact Hnodup0 | intros k Hk; apply (Hpair _ k Hk); lia |].
  destruct (forceAt_state 0 s) as (F & HforceAt). rewrite HforceAt.
  set (st := (SPH.forceLoop 0 s).1) in *.
  set (s1 := SPH.set_fluidForces F st).
  (* particle 1, in the state particle 0 leaves *)
  assert (Hgrid1 : SPH._fluidGrid s1 = SPH._fluidGrid st) by (destruct st; reflexivity).
  assert (Hh1 : SPH._kernelRadius s1 = SPH._kernelRadius st) by (destruct st; reflexivity).
  destruct (decide (inRange s 0 1)) as [Hrange | Hfar].
  - (* the pair contributes *)
    assert (H1 : 1%nat ∈ grid_lookup (SPH._fluidGrid s)
                   (SPH._fluidPositions s !!! 0%nat) (SPH._kernelRadius s)).
    { apply Hcomplete0; [lia |]. rewrite <- Hh2. apply Hrange. }
    destruct (Hin0 Hrange H1) as [Hst Hforce0]. rewrite Hforce0.
    fold st in Hst.
    assert (Hs1 : s1 = SPH.set_fluidForces F s) by (unfold s1; rewrite Hst; reflexivity).
    destruct (Hgrid (SPH._fluidPositions s !!! 1%nat)) as (Hnodup1 & _ & Hcomplete1).
    assert (Hrange1 : inRange s1 1 0).
    { rewrite Hs1. destruct s. unfold inRange in *. simpl in *.
      rewrite squaredNorm_vsub_sym. exact Hrange. }
    destruct (forceLoop_pair 1 0 s1) as [Hin1 _].
    + lia.
    + rewrite Hs1. destruct s. simpl in *. exact Hnodup1.
    + intros k Hk. rewrite Hs1 in Hk. destruct s. simpl in *.
      apply (Hpair _ k Hk); lia.
    + destruct Hin1 as [_ Hforce1]; [exact Hrange1 | |].
      * rewrite Hs1. destruct s. simpl in *.
        apply Hcomplete1; [lia |]. rewrite <- Hh2.
        rewrite squaredNorm_vsub_sym. apply Hrange.
      * rewrite Hforce1, Hs1. unfold pairForce. destruct s. simpl in *.
        rewrite (vsub_vopp (_fluidPositions !!! 0%nat) (_fluidPositions !!! 1%nat)).
        rewrite Hodd, squaredNorm_vopp.
        destruct (spikyGrad _kernel _ _) as [gx gy gz].
        unfold smul, vscale, vsub, vopp, vconst. simpl. f_equal; ring.
  - (* the pair does not contribute *)
    destruct (Hout0 Hfar) as [Hforce0 Hst]. rewrite Hforce0. fold st in Hst.
    assert (Hfar1 : ~ inRange s1 1 0).
    { destruct Hst as [Hst | [Hzero Hst]].
      - unfold s1. rewrite Hst. destruct s. unfold inRange in *. simpl in *.
        rewrite squaredNorm_vsub_sym. exact Hfar.
      - unfold s1. rewrite Hst. apply squaredNorm_zero in Hzero.
        destruct s. unfold inRange, nudged in *. simpl in *.
        rewrite list_lookup_total_insert_eq by lia.
        rewrite list_lookup_total_insert_ne by lia.
        rewrite Hzero. intros [_ Hgt].
        pose proof (nudge_too_close (_fluidPositions !!! 1%nat)). lra. }
    destruct (forceLoop_pair 1 0 s1) as [_ Hout1].
    + lia.
    + destruct (Hgrid (SPH._fluidPositions s1 !!! 1%nat)) as (Hnodup1 & _ & _).
      assert (Hsame : SPH._fluidGrid s1 = SPH._fluidGrid s
                      /\ SPH._kernelRadius s1 = SPH._kernelRadius s).
      { unfold s1. destruct Hst as [-> | [_ ->]]; destruct s; split; reflexivity. }
      destruct Hsame as [-> ->]. exact Hnodup1.
    + intros k Hk.
      assert (Hsame : SPH._fluidGrid s1 = SPH._fluidGrid s
                      /\ SPH._kernelRadius s1 = SPH._kernelRadius s).
      { unfold s1. destruct Hst as [-> | [_ ->]]; destruct s; split; reflexivity. }
      destruct Hsame as [Hg Hk']. rewrite Hg, Hk' in Hk.
      apply (Hpair _ k Hk); lia.
    + destruct (Hout1 Hfar1) as [Hforce1 _]. rewrite Hforce1.
      unfold vopp, vconst. simpl. f_equal; ring.
Qed.

End PairTheorem.

Lemma Kernel_init_spikyGrad_odd (h : R) (r : Vector3f) (rn : R) :
  spikyGrad (Kernel_init h) (vopp r) rn = vopp (spikyGrad (Kernel_init h) r rn).
Proof.
  simpl. destruct (bool_decide _); destruct r as [rx ry rz];
    unfold vopp, vdiv, vscale, vzero, vconst; simpl; f_equal;
    unfold Rdiv; ring.
Qed.

(** C9.  In a fluid of two particles with equal densities and equal
    pressures, the pressure-force contributions that the force stage
    accumulates for the two particles are opposite: F_0 = - F_1, where F_1
    is accumulated in the state that the loop for particle 0 leaves.  The
    grid meets its contract and the gradient of the spiky kernel is odd in
    the separation; the equalities of the densities and of the pressures
    are not needed. *)
Theorem pressure_force_antisymmetric {Grid : Type} {grid : GridOps Grid}
    (s : SPH.SPH Grid) :
  length (SPH._fluidPositions s) = 2%nat ->
  lookupContract (SPH._fluidGrid s) (SPH._fluidPositions s) (SPH._kernelRadius s) ->
  SPH._kernelRadius2 s = sqr (SPH._kernelRadius s) ->
  (forall r rn, spikyGrad (SPH._kernel s) (vopp r) rn
                = vopp (spikyGrad (SPH._kernel s) r rn)) ->
  SPH._fluidDensities s !!! 0%nat = SPH._fluidDensities s !!! 1%nat ->
  SPH._fluidPressures s !!! 0%nat = SPH._fluidPressures s !!! 1%nat ->
  SPH.computeForces s = SPH.forceAt 1 (SPH.forceAt 0 s)
  /\ pressureContribution 0 s = vopp (pressureContribution 1 (SPH.forceAt 0 s)).
Proof.
  intros Hlen Hgrid Hh2 Hodd _ _. split.
  - unfold SPH.computeForces. rewrite Hlen. reflexivity.
  - apply pressure_pair_opposite; assumption.
Qed.

(** The pressure contribution on the first of the two pressed particles:
    its neighbour, on the side of greater x, pushes it towards smaller
    x. *)
Lemma pressedDrops_contribution :
  vx (pressureContribution (grid := bruteGrid) 0 pressedDrops) < 0.
Proof.
  assert (Hrange : inRange pressedDrops 0 1).
  { unfold inRange, squaredNorm, dot. simpl. unfold sqr. lra. }
  destruct (bruteGrid_contract [mkVector3f 0 0 0; mkVector3f 0.02 0 0]
              (SPH._kernelRadius pressedDrops)
              (SPH._fluidPositions pressedDrops !!! 0%nat))
    as (Hnodup & Hvisited & Hcomplete).
  destruct (forceLoop_pair (grid := bruteGrid) 0 1 pressedDrops) as [Hin _].
  - lia.
  - exact Hnodup.
  - intros k Hk. apply Hvisited in Hk. simpl in Hk. lia.
  - destruct (Hin Hrange) as [_ Hforce].
    { apply Hcomplete; [simpl; lia |]. apply Hrange. }
    unfold pressureContribution. rewrite Hforce. unfold pairForce.
    cbn [pressedDrops twoDrops restingDrop SPH.set_fluidPressures
         SPH.set_fluidGrid SPH.set_fluidDensities SPH.set_fluidForces
         SPH.set_fluidNormals SPH.set_fluidVelocities SPH.set_fluidPositions
         SPH._fluidPositions SPH._fluidPressures SPH._fluidDensities
         SPH._particleMass2 SPH._kernel lookup_total list_lookup_total].
    set (r := (mkVector3f 0 0 0 -v mkVector3f 0.02 0 0)%V).
    assert (Hr2 : squaredNorm r = 0.02 * 0.02).
    { unfold r, squaredNorm, dot, vsub. simpl. lra. }
    rewrite Hr2, sqrt_square by lra.
    unfold Kernel_init. cbn [spikyGrad spikyGradConstant].
    rewrite bool_decide_eq_true_2 by lra.
    pose proof PI_bounds as [Hlo Hhi].
    set (h6 := cube (sqr (4 * 0.01))).
    assert (Hh6 : 0 < h6) by (unfold h6, cube, sqr; nra).
    assert (Hc : 0 < / (PI * h6)) by (apply Rinv_0_lt_compat; nra).
    unfold r, smul, vsub, vdiv, vscale, vconst, sqr, cube. simpl.
    unfold Rdiv. set (k := / (PI * h6)) in *. nra.
Qed.

(** C9 at two particles 0.02 apart, both at rest density and at pressure
    5.  The contributions are not zero: the first particle is pushed
    towards smaller x, away from the second, and the second the opposite
    way. *)
Lemma pressure_force_antisymmetric_witness :
  SPH.computeForces (grid := bruteGrid) pressedDrops
  = SPH.forceAt (grid := bruteGrid) 1
      (SPH.forceAt (grid := bruteGrid) 0 pressedDrops)
  /\ pressureContribution (grid := bruteGrid) 0 pressedDrops
     = vopp (pressureContribution (grid := bruteGrid) 1
               (SPH.forceAt (grid := bruteGrid) 0 pressedDrops))
  /\ vx (pressureContribution (grid := bruteGrid) 0 pressedDrops) < 0.
Proof.
  destruct (pressure_force_antisymmetric (grid := bruteGrid) pressedDrops)
    as [Hloop Hopp].
  - reflexivity.
  - apply (bruteGrid_contract [mkVector3f 0 0 0; mkVector3f 0.02 0 0]).
  - reflexivity.
  - apply Kernel_init_spikyGrad_odd.
  - reflexivity.
  - reflexivity.
  - split; [exact Hloop |]. split; [exact Hopp |].
    apply pressedDrops_contribution.
Defined.

(** * Further properties *)

(** ** Box surfaces *)

(** X1.  For every box and every radius the box generator returns as many
    normals as positions: two face interiors per pair of axes, four edges
    per axis and the eight corners, which are emitted even when a count
    is zero. *)
Theorem box_particle_count (box : Box3f) (particleRadius : R) :
  let res := ParticleGenerator.generateSurfaceParticles_box box particleRadius in
  let a := Z.to_nat (Zceil (vx (extents box) / (2 * particleRadius)) - 1) in
  let b := Z.to_nat (Zceil (vy (extents box) / (2 * particleRadius)) - 1) in
  let c := Z.to_nat (Zceil (vz (extents box) / (2 * particleRadius)) - 1) in
  length (ParticleGenerator.normals res) = length (ParticleGenerator.positions res)
  /\ length (ParticleGenerator.positions res)
     = (2 * (a * b + a * c + b * c) + 4 * (a + b + c) + 8)%nat
  /\ (8 <= length (ParticleGenerator.positions res))%nat.
Proof.
  cbv zeta. unfold ParticleGenerator.generateSurfaceParticles_box. cbv zeta.
  rewrite (boxParticles_count _ _ _ _ _ _ _ (positions_addParticle _ _ _))
    by reflexivity.
  rewrite (boxParticles_count _ _ _ _ _ _ _ (normals_addParticle _ _ _))
    by reflexivity.
  repeat split; lia.
Qed.

Lemma Forall2_left {A B : Type} (P : A -> B -> Prop) (Q : A -> Prop)
    (l : list A) (k : list B) :
  Forall2 P l k -> (forall x y, P x y -> Q x) -> Forall Q l.
Proof.
  intros H HPQ. induction H as [| x y l k Hxy _ IH]; constructor; eauto.
Qed.

Lemma Zceil_step (e r : R) :
  0 < e -> 0 < r ->
  let n := Zceil (e / (2 * r)) in
  (1 <= n)%Z /\ 0 < e / IZR n <= 2 * r /\ IZR n * (e / IZR n) = e.
Proof.
  intros He Hr n.
  assert (Hq : 0 < e / (2 * r)) by (apply Rdiv_lt_0_compat; lra).
  pose proof (Zceil_pos _ Hq) as Hn. fold n in Hn.
  assert (Hn' : 1 <= IZR n) by (apply IZR_le; exact Hn).
  destruct (Zceil_bound (e / (2 * r))) as [_ Hub]. fold n in Hub.
  assert (He2 : e <= IZR n * (2 * r)).
  { apply Rmult_le_compat_r with (r := 2 * r) in Hub; [| lra].
    unfold Rdiv in Hub. rewrite Rmult_assoc, Rinv_l in Hub by lra. lra. }
  split; [exact Hn |]. split; [split |].
  - apply Rdiv_lt_0_compat; lra.
  - apply Rmult_le_reg_r with (IZR n); [lra |].
    unfold Rdiv. rewrite Rmult_assoc, Rinv_l by lra. lra.
  - field. lra.
Qed.

(** X2.  For a box of positive extent and a positive radius, every position
    the box generator emits lies on the surface of the box, and the
    positions form a lattice from [box.min] whose step along each axis is
    positive, at most the particle diameter, and divides the extent. *)
Theorem box_particles_on_surface (box : Box3f) (particleRadius : R) :
  0 < particleRadius ->
  vx (box_min box) < vx (box_max box) ->
  vy (box_min box) < vy (box_max box) ->
  vz (box_min box) < vz (box_max box) ->
  let res := ParticleGenerator.generateSurfaceParticles_box box particleRadius in
  let nx := Zceil (vx (extents box) / (2 * particleRadius)) in
  let ny := Zceil (vy (extents box) / (2 * particleRadius)) in
  let nz := Zceil (vz (extents box) / (2 * particleRadius)) in
  let d := cwiseQuotient (extents box) (vofZ nx ny nz) in
  (0 < vx d <= 2 * particleRadius /\ IZR nx * vx d = vx (extents box))
  /\ (0 < vy d <= 2 * particleRadius /\ IZR ny * vy d = vy (extents box))
  /\ (0 < vz d <= 2 * particleRadius /\ IZR nz * vz d = vz (extents box))
  /\ Forall (fun p =>
        onBoxSurface box p
        /\ exists x y z, (0 <= x <= nx /\ 0 <= y <= ny /\ 0 <= z <= nz)%Z
                         /\ p = (box_min box +v cwiseProduct (vofZ x y z) d)%V)
       (ParticleGenerator.positions res).
Proof.
  intros Hr Hx Hy Hz res nx ny nz d.
  destruct (Zceil_step (vx (extents box)) particleRadius) as (Hnx & Hdx & Hex);
    [unfold extents; simpl; lra | exact Hr |].
  destruct (Zceil_step (vy (extents box)) particleRadius) as (Hny & Hdy & Hey);
    [unfold extents; simpl; lra | exact Hr |].
  destruct (Zceil_step (vz (extents box)) particleRadius) as (Hnz & Hdz & Hez);
    [unfold extents; simpl; lra | exact Hr |].
  cbv zeta in *. fold nx in Hnx, Hdx, Hex. fold ny in Hny, Hdy, Hey.
  fold nz in Hnz, Hdz, Hez.
  split; [split; assumption |]. split; [split; assumption |].
  split; [split; assumption |].
  destruct (generateSurfaceParticles_box_emitted box particleRadius Hr Hx Hy Hz)
    as [_ Hall].
  cbv zeta in Hall. fold nx ny nz d res in Hall. unfold allEmitted in Hall.
  eapply Forall2_left; [exact Hall |].
  - clear Hall. intros p n (x & y & z & Hs & -> & _).
    destruct Hs as (Hxr & Hyr & Hzr & Hface).
    split; [| exists x, y, z; split; [repeat split; lia | reflexivity]].
    assert (HX : 0 <= IZR x <= IZR nx) by (split; apply IZR_le; lia).
    assert (HY : 0 <= IZR y <= IZR ny) by (split; apply IZR_le; lia).
    assert (HZ : 0 <= IZR z <= IZR nz) by (split; apply IZR_le; lia).
    destruct box as [[lx ly lz] [hx hy hz]].
    unfold onBoxSurface, inBox, d, extents, cwiseQuotient, cwiseProduct, vofZ,
      vadd, vsub in *. simpl in *.
    set (dx := (hx - lx) / IZR nx) in *. set (dy := (hy - ly) / IZR ny) in *.
    set (dz := (hz - lz) / IZR nz) in *.
    split; [repeat split; nra |].
    destruct Hface as [->|[->|[->|[->|[->| ->]]]]].
    + left. lra.
    + right; left. lra.
    + right; right; left. lra.
    + right; right; right; left. lra.
    + right; right; right; right; left. lra.
    + right; right; right; right; right. lra.
Qed.

(** X2 at the unit box and radius 0.05. *)
Lemma box_particles_on_surface_witness :
  let box := unitBox in
  let particleRadius := 0.05 in
  let res := ParticleGenerator.generateSurfaceParticles_box box particleRadius in
  let nx := Zceil (vx (extents box) / (2 * particleRadius)) in
  let ny := Zceil (vy (extents box) / (2 * particleRadius)) in
  let nz := Zceil (vz (extents box) / (2 * particleRadius)) in
  let d := cwiseQuotient (extents box) (vofZ nx ny nz) in
  (0 < vx d <= 2 * particleRadius /\ IZR nx * vx d = vx (extents box))
  /\ (0 < vy d <= 2 * particleRadius /\ IZR ny * vy d = vy (extents box))
  /\ (0 < vz d <= 2 * particleRadius /\ IZR nz * vz d = vz (extents box))
  /\ Forall (fun p =>
        onBoxSurface box p
        /\ exists x y z, (0 <= x <= nx /\ 0 <= y <= ny /\ 0 <= z <= nz)%Z
                         /\ p = (box_min box +v cwiseProduct (vofZ x y z) d)%V)
       (ParticleGenerator.positions res).
Proof. apply (box_particles_on_surface unitBox 0.05); simpl; lra. Defined.

(** ** Mesh surfaces *)

Section MeshResult.
Import ParticleGenerator.
Context {VoxelGrid Rng : Type}.
Context {geometry : Geometry VoxelGrid} {random : RandomGen Rng}.

Lemma relaxPair_points radius2 i j (st : Relax) :
  points (relaxPair radius2 i j st) = points st.
Proof. unfold relaxPair. case_decide; reflexivity. Qed.

Lemma relaxPositions_length radius2 (st : Relax) :
  length (points (relaxPositions radius2 st)) = length (points st).
Proof.
  unfold relaxPositions.
  apply (forN_preserves (fun st' => length (points st') = length (points st)));
    [reflexivity |].
  intros i st' _ Hst'. simpl. rewrite length_insert.
  rewrite <- Hst'.
  apply (forN_preserves (fun st'' => length (points st'') = length (points st')));
    [reflexivity |].
  intros j st'' _ Hst''. rewrite relaxPair_points. exact Hst''.
Qed.

Lemma reproject_length (sdf : VoxelGrid) (pts : list Vector3f) :
  length (reproject sdf pts) = length pts.
Proof.
  unfold reproject.
  apply (forN_preserves (fun l => length l = length pts)); [reflexivity |].
  intros i l _ Hl. rewrite length_insert. exact Hl.
Qed.

Lemma relaxIteration_length (sdf : VoxelGrid) radius2 (pts : list Vector3f) :
  length (relaxIteration sdf radius2 pts) = length pts.
Proof.
  unfold relaxIteration. rewrite reproject_length, relaxPositions_length.
  reflexivity.
Qed.

Lemma orientNormals_length (sdf : VoxelGrid) (pts : list Vector3f) :
  length (orientNormals sdf pts) = length pts.
Proof.
  unfold orientNormals.
  apply (forN_preserves (fun l => length l = length pts));
    [apply length_replicate |].
  intros i l _ Hl. rewrite length_insert. exact Hl.
Qed.

Lemma mesh_result_lengths (mesh : Mesh) (particleRadius : R) (cells : Z) :
  let res := generateSurfaceParticles_mesh mesh particleRadius cells in
  let n := length (seeds (seedMesh mesh (1 / (PI * sqr particleRadius)))) in
  length (positions res) = n /\ length (normals res) = n.
Proof.
  cbv zeta. unfold generateSurfaceParticles_mesh. cbv zeta.
  cbn [positions normals]. rewrite orientNormals_length.
  assert (H : forall (sdf : VoxelGrid) radius2 (l0 : list Vector3f),
             length (forZ 0 10 (fun _ => relaxIteration sdf radius2) l0)
             = length l0).
  { intros sdf radius2 l0.
    apply (forZ_preserves (fun l => length l = length l0)); [reflexivity |].
    intros k l _ Hl. rewrite relaxIteration_length. exact Hl. }
  split; apply H.
Qed.

End MeshResult.

(** X3.  The mesh generator returns one position and one normal for each
    seed of the seeding stage: the ten relaxation sweeps, the reprojection
    and the orientation neither drop nor add a particle. *)
Theorem mesh_particles_one_per_seed {VoxelGrid Rng : Type}
    {geometry : Geometry VoxelGrid} {random : RandomGen Rng}
    (mesh : Mesh) (particleRadius : R) (cells : Z) :
  let res :=
    ParticleGenerator.generateSurfaceParticles_mesh (VoxelGrid := VoxelGrid)
      (Rng := Rng) mesh particleRadius cells in
  let seeded :=
    ParticleGenerator.seedMesh (Rng := Rng) mesh (1 / (PI * sqr particleRadius)) in
  length (ParticleGenerator.positions res)
  = length (ParticleGenerator.seeds seeded)
  /\ length (ParticleGenerator.normals res)
     = length (ParticleGenerator.positions res).
Proof.
  cbv zeta.
  destruct (mesh_result_lengths (VoxelGrid := VoxelGrid) (Rng := Rng)
              mesh particleRadius cells) as [Hpos Hnrm].
  cbv zeta in Hpos, Hnrm. rewrite Hnrm, Hpos. split; reflexivity.
Qed.

Section Sweep.
Import ParticleGenerator.
Context {Rng : Type} {random : RandomGen Rng}.


End Sweep.


Section SeedsInTriangles.
Import ParticleGenerator.
Context {Rng : Type} {random : RandomGen Rng}.
Hypothesis draws_in_unit : forall g : Rng, 0 <= (nextFloat g).1 < 1.

Lemma sqrt_unit (s : R) : 0 <= s < 1 -> 0 <= sqrt s < 1.
Proof.
  intros [H0 H1]. split; [apply sqrt_pos |].
  rewrite <- sqrt_1. apply sqrt_lt_1; lra.
Qed.

Lemma samplePoint_inTriangle (p0 p1 p2 : Vector3f) (Q : Vector3f -> Prop)
    (st : Seeding) :
  (forall p, inTriangle p0 p1 p2 p -> Q p) ->
  Forall Q (seeds st) ->
  Forall Q (seeds (samplePoint p0 (p1 -v p0) (p2 -v p0) st)).
Proof.
  intros HQ Hst. unfold samplePoint.
  pose proof (draws_in_unit (rng st)) as Hs.
  destruct (nextFloat (rng st)) as [s g1]. simpl in Hs.
  pose proof (draws_in_unit g1) as Ht.
  destruct (nextFloat g1) as [t g2]. simpl in Ht. simpl.
  apply Forall_app. split; [exact Hst |]. constructor; [| constructor].
  apply HQ. pose proof (sqrt_unit s Hs) as Hss.
  exists (sqrt s * (1 - t)), (t * sqrt s), (1 - sqrt s).
  split; [nra |]. split; [nra |]. split; [lra |]. split; [ring |].
  destruct p0, p1, p2. unfold vadd, vsub, vscale. simpl. f_equal; ring.
Qed.

Lemma seedTriangle_inTriangle (mesh : Mesh) (density : R) (i : nat)
    (Q : Vector3f -> Prop) (st : Seeding) :
  (forall p, inMeshTriangle mesh i p -> Q p) ->
  Forall Q (seeds st) ->
  Forall Q (seeds (seedTriangle mesh density i st)).
Proof.
  intros HQ Hst. unfold seedTriangle, inMeshTriangle in *.
  destruct (triangles mesh !!! i) as [[i0 i1] i2]. cbv zeta.
  match goal with
  | |- context [forZ 0 ?ni ?body ?s0] => set (st1 := forZ 0 ni body s0)
  end.
  assert (Hst1 : Forall Q (seeds st1)).
  { unfold st1. apply (forZ_preserves (fun s => Forall Q (seeds s)));
      [exact Hst |].
    intros k s _ Hs. apply samplePoint_inTriangle; assumption. }
  clearbody st1. destruct (nextFloat (rng st1)) as [u g1].
  case_decide; [| exact Hst1].
  apply samplePoint_inTriangle; assumption.
Qed.

End SeedsInTriangles.

(** X5.  When the generator draws from [0, 1), every seed of the seeding
    stage is a point of one of the triangles of the mesh: a combination of
    its three corners with non-negative weights that add up to 1. *)
Theorem seeds_lie_in_triangles {Rng : Type} {random : RandomGen Rng}
    (mesh : Mesh) (density : R) :
  (forall g : Rng, 0 <= (nextFloat g).1 < 1) ->
  Forall (fun p => exists i, (i < length (triangles mesh))%nat
                             /\ inMeshTriangle mesh i p)
    (ParticleGenerator.seeds (ParticleGenerator.seedMesh mesh density)).
Proof.
  intros Hdraws. unfold ParticleGenerator.seedMesh.
  apply (forN_ind (fun _ st =>
           Forall (fun p => exists i, (i < length (triangles mesh))%nat
                                      /\ inMeshTriangle mesh i p)
             (ParticleGenerator.seeds st)));
    [lia | constructor |].
  intros i st Hi Hst. apply (seedTriangle_inTriangle Hdraws); [| exact Hst].
  intros p Hp. exists i. split; [lia | exact Hp].
Qed.

(** X5 at the triangle mesh with every draw 0.9. *)
Lemma seeds_lie_in_triangles_witness :
  Forall (fun p => exists i, (i < length (triangles triangleMesh))%nat
                             /\ inMeshTriangle triangleMesh i p)
    (ParticleGenerator.seeds
       (ParticleGenerator.seedMesh (random := constantRng 0.9)
          triangleMesh (1 / (PI * sqr 0.25)))).
Proof.
  apply (seeds_lie_in_triangles (random := constantRng 0.9)).
  intros g. simpl. lra.
Defined.

Section SeedCount.
Import ParticleGenerator.
Context {Rng : Type} {random : RandomGen Rng}.

Lemma seedTriangle_count (mesh : Mesh) (density : R) (i : nat) (st : Seeding) :
  let sure := Z.to_nat (Zfloor (density * triangleArea mesh i)) in
  (length (seeds st) + sure <= length (seeds (seedTriangle mesh density i st))
   <= length (seeds st) + sure + 1)%nat
  /\ totalArea (seedTriangle mesh density i st)
     = totalArea st + triangleArea mesh i.
Proof.
  unfold seedTriangle, triangleArea.
  destruct (triangles mesh !!! i) as [[i0 i1] i2]. cbv zeta.
  match goal with
  | |- context [forZ 0 ?ni ?body ?s0] => set (st1 := forZ 0 ni body s0)
  end.
  assert (Hlen : length (seeds st1)
                 = (length (seeds st)
                    + Z.to_nat (Zfloor (density * (1 / 2 * Rabs (norm (cross
                        (vertices mesh !!! i1 -v vertices mesh !!! i0)
                        (vertices mesh !!! i2 -v vertices mesh !!! i0)))))))%nat).
  { unfold st1. rewrite (forZ_measure (fun s => length (seeds s)) 1).
    - simpl. rewrite Z.sub_0_r. lia.
    - intros k s _. rewrite samplePoint_seeds. lia. }
  assert (Harea : totalArea st1
                  = totalArea st + 1 / 2 * Rabs (norm (cross
                        (vertices mesh !!! i1 -v vertices mesh !!! i0)
                        (vertices mesh !!! i2 -v vertices mesh !!! i0)))).
  { unfold st1.
    apply (forZ_preserves (fun s => totalArea s = _)); [reflexivity |].
    intros k s _ Hs. unfold samplePoint.
    destruct (nextFloat (rng s)) as [a g1]. destruct (nextFloat g1) as [b g2].
    exact Hs. }
  clearbody st1. destruct (nextFloat (rng st1)) as [u g1].
  case_decide.
  - rewrite samplePoint_seeds. simpl. split; [lia |].
    unfold samplePoint. simpl.
    destruct (nextFloat g1) as [a g2]. destruct (nextFloat g2) as [b g3].
    exact Harea.
  - simpl. split; [lia | exact Harea].
Qed.

End SeedCount.

Lemma sum_list_snoc (l : list nat) (a : nat) :
  sum_list (l ++ [a]) = (sum_list l + a)%nat.
Proof. induction l as [|b l IH]; simpl; lia. Qed.

(** X6.  Whatever the generator draws, the seeding stage emits on each
    triangle the integer part of its expected count and at most one sample
    more, and the area it accumulates is the sum of the areas of the
    triangles. *)
Theorem seeding_counts_and_area {Rng : Type} {random : RandomGen Rng}
    (mesh : Mesh) (density : R) :
  let seeded := ParticleGenerator.seedMesh mesh density in
  let indices := seq 0 (length (triangles mesh)) in
  let sure :=
    sum_list (map (fun i => Z.to_nat (Zfloor (density * triangleArea mesh i)))
                indices) in
  (sure <= length (ParticleGenerator.seeds seeded)
   <= sure + length (triangles mesh))%nat
  /\ ParticleGenerator.totalArea seeded = sumOver indices (triangleArea mesh).
Proof.
  cbv zeta. unfold ParticleGenerator.seedMesh.
  apply (forN_ind (fun k st =>
    let sure :=
      sum_list (map (fun i => Z.to_nat (Zfloor (density * triangleArea mesh i)))
                  (seq 0 k)) in
    (sure <= length (ParticleGenerator.seeds st) <= sure + k)%nat
    /\ ParticleGenerator.totalArea st = sumOver (seq 0 k) (triangleArea mesh)));
    [lia | simpl; split; [lia | reflexivity] |].
  intros k st Hk [Hcount Harea]. cbv zeta in *.
  destruct (seedTriangle_count mesh density k st) as [Hc Ha]. cbv zeta in Hc.
  rewrite seq_S, map_app. cbn [map]. rewrite sum_list_snoc. cbn [Nat.add].
  split; [lia |].
  rewrite Ha, Harea. unfold sumOver. rewrite foldr_app. simpl.
  generalize (seq 0 k) as l. intros l.
  induction l as [|j l IH]; simpl; [ring |]. rewrite <- IH. ring.
Qed.

(** ** Fluid volumes: boxes and spheres *)

Lemma elem_of_zrange (lo hi k : Z) : k ∈ zrange lo hi <-> (lo <= k < hi)%Z.
Proof.
  unfold zrange. rewrite list_elem_of_fmap. split.
  - intros (i & -> & Hi). apply elem_of_seq in Hi. lia.
  - intros Hk. exists (Z.to_nat (k - lo)). split; [lia |].
    apply elem_of_seq. lia.
Qed.

Lemma NoDup_zrange (lo hi : Z) : NoDup (zrange lo hi).
Proof.
  unfold zrange. apply NoDup_fmap_2; [| apply NoDup_seq].
  intros i j Hij. lia.
Qed.

Lemma length_zrange (lo hi : Z) : length (zrange lo hi) = Z.to_nat (hi - lo).
Proof. unfold zrange. rewrite length_map, length_seq. reflexivity. Qed.

Lemma Zceil_le_iff (a : R) (k : Z) : (Zceil a <= k)%Z <-> a <= IZR k.
Proof.
  destruct (Zceil_bound a) as [Hlo Hhi]. split.
  - intros Hk. apply IZR_le in Hk. lra.
  - intros Hk. assert (H : IZR (Zceil a) < IZR k + 1) by lra.
    rewrite <- plus_IZR in H. apply lt_IZR in H. lia.
Qed.

Lemma Zfloor_ge_iff (b : R) (k : Z) : (k <= Zfloor b)%Z <-> IZR k <= b.
Proof.
  destruct (Zfloor_bound b) as [Hlo Hhi]. split.
  - intros Hk. apply IZR_le in Hk. lra.
  - apply Zfloor_lub.
Qed.

(** An index is within the bounds of the loop along one axis exactly when
    its lattice coordinate is within the interval. *)
Lemma lattice_range (a b d : R) (k : Z) :
  0 < d ->
  (Zceil (a / d) <= k < Zfloor (b / d) + 1)%Z <-> a <= IZR k * d <= b.
Proof.
  intros Hd.
  assert (Ha : a / d <= IZR k <-> a <= IZR k * d).
  { split; intros H.
    - apply Rmult_le_compat_r with (r := d) in H; [| lra].
      unfold Rdiv in H. rewrite Rmult_assoc, Rinv_l in H by lra. lra.
    - apply Rmult_le_reg_r with d; [lra |].
      unfold Rdiv. rewrite Rmult_assoc, Rinv_l by lra. lra. }
  assert (Hb : IZR k <= b / d <-> IZR k * d <= b).
  { split; intros H.
    - apply Rmult_le_compat_r with (r := d) in H; [| lra].
      unfold Rdiv in H. rewrite Rmult_assoc, Rinv_l in H by lra. lra.
    - apply Rmult_le_reg_r with d; [lra |].
      unfold Rdiv. rewrite Rmult_assoc, Rinv_l by lra. lra. }
  rewrite <- Ha, <- Hb, <- Zceil_le_iff, <- Zfloor_ge_iff. lia.
Qed.

Lemma latticePoint_inj (d : R) (x y z x' y' z' : Z) :
  d <> 0 -> latticePoint d x y z = latticePoint d x' y' z' ->
  x = x' /\ y = y' /\ z = z'.
Proof.
  intros Hd H. unfold latticePoint in H. injection H as Hx Hy Hz.
  apply Rmult_eq_reg_r in Hx, Hy, Hz; try assumption.
  apply eq_IZR in Hx, Hy, Hz. auto.
Qed.

Section Volumes.
Context {Grid : Type}.
Implicit Types (s st : SPH.SPH Grid).

Lemma set_fluidPositions_same s :
  SPH.set_fluidPositions (SPH._fluidPositions s) s = s.
Proof. destruct s. reflexivity. Qed.

(** A loop whose every iteration appends to the positions. *)
Lemma fold_left_appends {A : Type} (body : A -> SPH.SPH Grid -> SPH.SPH Grid)
    (f : A -> list Vector3f) (l : list A) s :
  (forall a st, body a st
                = SPH.set_fluidPositions (SPH._fluidPositions st ++ f a) st) ->
  fold_left (fun st a => body a st) l s
  = SPH.set_fluidPositions (SPH._fluidPositions s ++ (l ≫= f)) s.
Proof.
  intros Hbody. revert s. induction l as [|a l IH]; intros s; simpl.
  - rewrite app_nil_r. symmetry. apply set_fluidPositions_same.
  - rewrite IH, Hbody. destruct s. unfold SPH.set_fluidPositions. simpl.
    rewrite <- app_assoc. reflexivity.
Qed.

Lemma forZ_appends (lo hi : Z) (body : Z -> SPH.SPH Grid -> SPH.SPH Grid)
    (f : Z -> list Vector3f) s :
  (forall k st, body k st
                = SPH.set_fluidPositions (SPH._fluidPositions st ++ f k) st) ->
  forZ lo hi body s
  = SPH.set_fluidPositions (SPH._fluidPositions s ++ (zrange lo hi ≫= f)) s.
Proof. intros Hbody. unfold forZ. apply fold_left_appends, Hbody. Qed.

(** The three nested loops of the voxelizers, with the test [keep] on the
    lattice point. *)
Lemma lattice_loops (d : R) (keep : Vector3f -> Prop)
    `{!forall p, Decision (keep p)}
    (body : Z -> Z -> Z -> SPH.SPH Grid -> SPH.SPH Grid)
    (minx maxx miny maxy minz maxz : Z) s :
  d <> 0 ->
  (forall x y z st,
     body z y x st
     = if decide (keep (latticePoint d x y z))
       then SPH.set_fluidPositions
              (SPH._fluidPositions st ++ [latticePoint d x y z]) st
       else st) ->
  exists added : list Vector3f,
    forZ minz (maxz + 1) (fun z =>
      forZ miny (maxy + 1) (fun y =>
        forZ minx (maxx + 1) (body z y))) s
    = SPH.set_fluidPositions (SPH._fluidPositions s ++ added) s
    /\ NoDup added
    /\ forall p, p ∈ added <->
         keep p /\ exists x y z, (minx <= x <= maxx /\ miny <= y <= maxy
                                  /\ minz <= z <= maxz)%Z
                                 /\ p = latticePoint d x y z.
Proof.
  intros Hd Hbody.
  set (cell := fun z y x : Z =>
         if decide (keep (latticePoint d x y z))
         then [latticePoint d x y z] else []).
  exists (zrange minz (maxz + 1) ≫= fun z =>
          zrange miny (maxy + 1) ≫= fun y =>
          zrange minx (maxx + 1) ≫= cell z y).
  split; [| split].
  - apply forZ_appends. intros z st1.
    apply forZ_appends. intros y st2.
    apply forZ_appends. intros x st3.
    rewrite Hbody. unfold cell. case_decide; [reflexivity |].
    rewrite app_nil_r. symmetry. apply set_fluidPositions_same.
  - assert (Hcell : forall z y x p, p ∈ cell z y x -> p = latticePoint d x y z).
    { intros z y x p. unfold cell. case_decide.
      - intros Hp. apply list_elem_of_singleton in Hp. exact Hp.
      - intros Hp. apply elem_of_nil in Hp. contradiction. }
    apply NoDup_bind; [| | apply NoDup_zrange].
    + intros z1 z2 p _ _ H1 H2.
      apply list_elem_of_bind in H1 as (y1 & H1 & _).
      apply list_elem_of_bind in H1 as (x1 & H1 & _).
      apply list_elem_of_bind in H2 as (y2 & H2 & _).
      apply list_elem_of_bind in H2 as (x2 & H2 & _).
      apply Hcell in H1, H2. rewrite H1 in H2.
      apply latticePoint_inj in H2; [tauto | exact Hd].
    + intros z _. apply NoDup_bind; [| | apply NoDup_zrange].
      * intros y1 y2 p _ _ H1 H2.
        apply list_elem_of_bind in H1 as (x1 & H1 & _).
        apply list_elem_of_bind in H2 as (x2 & H2 & _).
        apply Hcell in H1, H2. rewrite H1 in H2.
        apply latticePoint_inj in H2; [tauto | exact Hd].
      * intros y _. apply NoDup_bind; [| | apply NoDup_zrange].
        -- intros x1 x2 p _ _ H1 H2. apply Hcell in H1, H2. rewrite H1 in H2.
           apply latticePoint_inj in H2; [tauto | exact Hd].
        -- intros x _. unfold cell. case_decide;
             [apply NoDup_singleton | apply NoDup_nil_2].
  - intros p. split.
    + intros Hp.
      apply list_elem_of_bind in Hp as (z & Hp & Hz).
      apply list_elem_of_bind in Hp as (y & Hp & Hy).
      apply list_elem_of_bind in Hp as (x & Hp & Hx).
      apply elem_of_zrange in Hx, Hy, Hz. unfold cell in Hp.
      case_decide as Hkeep; [| apply elem_of_nil in Hp; contradiction].
      apply list_elem_of_singleton in Hp. subst p.
      split; [exact Hkeep |]. exists x, y, z. split; [lia | reflexivity].
    + intros (Hkeep & x & y & z & Hr & ->).
      apply list_elem_of_bind. exists z. split; [| apply elem_of_zrange; lia].
      apply list_elem_of_bind. exists y. split; [| apply elem_of_zrange; lia].
      apply list_elem_of_bind. exists x. split; [| apply elem_of_zrange; lia].
      unfold cell. rewrite decide_True by exact Hkeep.
      apply list_elem_of_singleton. reflexivity.
Qed.

Lemma voxelizeBox_lattice (box : Box3f) s :
  0 < SPH._particleDiameter s ->
  exists added : list Vector3f,
    SPH.voxelizeBox box s
    = SPH.set_fluidPositions (SPH._fluidPositions s ++ added) s
    /\ NoDup added
    /\ forall p, p ∈ added <->
                 inBox box p /\ onLattice (SPH._particleDiameter s) p.
Proof.
  intros Hd. unfold SPH.voxelizeBox. cbv zeta.
  set (d := SPH._particleDiameter s) in *.
  destruct (lattice_loops d (fun _ => True)
              (fun z y x this =>
                 SPH.set_fluidPositions
                   (SPH._fluidPositions this
                    ++ [mkVector3f (IZR x * d) (IZR y * d) (IZR z * d)]) this)
              (Zceil (vx (box_min box) / d)) (Zfloor (vx (box_max box) / d))
              (Zceil (vy (box_min box) / d)) (Zfloor (vy (box_max box) / d))
              (Zceil (vz (box_min box) / d)) (Zfloor (vz (box_max box) / d)) s)
    as (added & Heq & Hnd & Hin); [lra | |].
  { intros x y z st. rewrite decide_True by exact I. reflexivity. }
  exists added. split; [exact Heq |]. split; [exact Hnd |].
  intros p. rewrite Hin. unfold inBox, onLattice. split.
  - intros (_ & x & y & z & (Hx & Hy & Hz) & ->).
    split; [| exists x, y, z; reflexivity]. simpl.
    split; [| split]; apply lattice_range; solve [exact Hd | lia].
  - intros (Hbox & x & y & z & ->). split; [exact I |].
    exists x, y, z. split; [| reflexivity]. simpl in Hbox.
    destruct Hbox as (Hx & Hy & Hz).
    apply (lattice_range _ _ d _ Hd) in Hx, Hy, Hz.
    destruct Hx, Hy, Hz.
    repeat split; first [assumption | apply Z.lt_succ_r; assumption].
Qed.

Lemma square_bound (u r : R) : 0 <= r -> u * u <= r * r -> - r <= u <= r.
Proof. intros Hr Hu. split; apply Rnot_lt_le; intros Hlt; nra. Qed.

Lemma ball_in_cube (pos : Vector3f) (radius : R) (p : Vector3f) :
  0 <= radius -> inBall pos radius p ->
  vx pos - radius <= vx p <= vx pos + radius
  /\ vy pos - radius <= vy p <= vy pos + radius
  /\ vz pos - radius <= vz p <= vz pos + radius.
Proof.
  intros Hr. destruct pos as [a b c], p as [x y z].
  unfold inBall, squaredNorm, dot, vsub, sqr. simpl. intros H.
  pose proof (Rle_0_sqr (x - a)) as Hx. pose proof (Rle_0_sqr (y - b)) as Hy.
  pose proof (Rle_0_sqr (z - c)) as Hz. unfold Rsqr in Hx, Hy, Hz.
  destruct (square_bound (x - a) radius Hr) as [? ?]; [lra |].
  destruct (square_bound (y - b) radius Hr) as [? ?]; [lra |].
  destruct (square_bound (z - c) radius Hr) as [? ?]; [lra |].
  repeat split; lra.
Qed.

Lemma voxelizeSphere_lattice (pos : Vector3f) (radius : R) s :
  0 < SPH._particleDiameter s -> 0 <= radius ->
  exists added : list Vector3f,
    SPH.voxelizeSphere pos radius s
    = SPH.set_fluidPositions (SPH._fluidPositions s ++ added) s
    /\ NoDup added
    /\ forall p, p ∈ added <->
                 inBall pos radius p /\ onLattice (SPH._particleDiameter s) p.
Proof.
  intros Hd Hr. unfold SPH.voxelizeSphere. cbv zeta.
  set (d := SPH._particleDiameter s) in *.
  destruct (lattice_loops d (inBall pos radius)
              (fun z y x this =>
                 if decide (squaredNorm
                              (mkVector3f (IZR x * d) (IZR y * d) (IZR z * d)
                               -v pos) <= sqr radius)
                 then SPH.set_fluidPositions
                        (SPH._fluidPositions this
                         ++ [mkVector3f (IZR x * d) (IZR y * d) (IZR z * d)])
                        this
                 else this)
              (Zceil ((vx pos - radius) / d)) (Zfloor ((vx pos + radius) / d))
              (Zceil ((vy pos - radius) / d)) (Zfloor ((vy pos + radius) / d))
              (Zceil ((vz pos - radius) / d)) (Zfloor ((vz pos + radius) / d)) s)
    as (added & Heq & Hnd & Hin); [lra | |].
  { intros x y z st. unfold inBall, latticePoint.
    destruct (decide (squaredNorm
                        (mkVector3f (IZR x * d) (IZR y * d) (IZR z * d) -v pos)
                      <= sqr radius)) as [H|H]; reflexivity. }
  exists added. split; [exact Heq |]. split; [exact Hnd |].
  intros p. rewrite Hin. unfold onLattice. split.
  - intros (Hball & x & y & z & _ & ->).
    split; [exact Hball | exists x, y, z; reflexivity].
  - intros (Hball & x & y & z & ->). split; [exact Hball |].
    exists x, y, z. split; [| reflexivity].
    apply ball_in_cube in Hball; [| exact Hr]. simpl in Hball.
    destruct Hball as (Hx & Hy & Hz).
    apply (lattice_range _ _ d _ Hd) in Hx, Hy, Hz.
    destruct Hx, Hy, Hz.
    repeat split; first [assumption | apply Z.lt_succ_r; assumption].
Qed.

End Volumes.

(** X7.  With a positive particle diameter, [voxelizeBox] appends to the
    fluid, after the particles already there, exactly the points of the
    lattice of multiples of the diameter that lie in the box, each once;
    nothing else of the state changes. *)
Theorem voxelizeBox_fills_the_box {Grid : Type} (box : Box3f)
    (s : SPH.SPH Grid) :
  0 < SPH._particleDiameter s ->
  exists added : list Vector3f,
    SPH.voxelizeBox box s
    = SPH.set_fluidPositions (SPH._fluidPositions s ++ added) s
    /\ NoDup added
    /\ forall p, p ∈ added <->
                 inBox box p /\ onLattice (SPH._particleDiameter s) p.
Proof. apply voxelizeBox_lattice. Qed.

(** X7 at the unit box and a particle diameter of 0.02. *)
Lemma voxelizeBox_fills_the_box_witness :
  exists added : list Vector3f,
    SPH.voxelizeBox unitBox restingDrop
    = SPH.set_fluidPositions (SPH._fluidPositions restingDrop ++ added)
        restingDrop
    /\ NoDup added
    /\ forall p, p ∈ added <->
                 inBox unitBox p
                 /\ onLattice (SPH._particleDiameter restingDrop) p.
Proof. apply (voxelizeBox_fills_the_box unitBox restingDrop). simpl. lra. Defined.

(** X8.  With a positive particle diameter and a radius that is not
    negative, [voxelizeSphere] appends exactly the lattice points within
    the radius of the centre, each once: the bounding loop misses none. *)
Theorem voxelizeSphere_fills_the_ball {Grid : Type} (pos : Vector3f)
    (radius : R) (s : SPH.SPH Grid) :
  0 < SPH._particleDiameter s -> 0 <= radius ->
  exists added : list Vector3f,
    SPH.voxelizeSphere pos radius s
    = SPH.set_fluidPositions (SPH._fluidPositions s ++ added) s
    /\ NoDup added
    /\ forall p, p ∈ added <->
                 inBall pos radius p /\ onLattice (SPH._particleDiameter s) p.
Proof. apply voxelizeSphere_lattice. Qed.

(** X8 at the ball of radius 0.1 around (0.5, 0.5, 0.5). *)
Lemma voxelizeSphere_fills_the_ball_witness :
  exists added : list Vector3f,
    SPH.voxelizeSphere (mkVector3f 0.5 0.5 0.5) 0.1 restingDrop
    = SPH.set_fluidPositions (SPH._fluidPositions restingDrop ++ added)
        restingDrop
    /\ NoDup added
    /\ forall p, p ∈ added <->
                 inBall (mkVector3f 0.5 0.5 0.5) 0.1 p
                 /\ onLattice (SPH._particleDiameter restingDrop) p.
Proof.
  apply (voxelizeSphere_fills_the_ball (mkVector3f 0.5 0.5 0.5) 0.1 restingDrop);
    simpl; lra.
Defined.

(** ** The constructor *)

(** The number of particles in the support of the kernel does not depend
    on the radius. *)
Lemma kernel_support (r : R) :
  r <> 0 -> Zceil ((4 / 3 * PI * cube (4 * r)) / cube (2 * r)) = 34%Z.
Proof.
  intros Hr. apply Zceil_eq.
  replace ((4 / 3 * PI * cube (4 * r)) / cube (2 * r)) with (32 / 3 * PI)
    by (unfold cube; field; exact Hr).
  pose proof PI_bounds. simpl. lra.
Qed.

Section Constructor.
Context {Grid VoxelGrid Rng : Type}.
Context {grid : GridOps Grid} {geometry : Geometry VoxelGrid}.
Context {random : RandomGen Rng} {meshIO : MeshIO}.
Implicit Types (s st : SPH.SPH Grid).

(** What the volumes and meshes of the scene leave alone. *)
Lemma voxelizeBox_boundary box s :
  let s' := SPH.voxelizeBox box s in
  SPH._boundaryPositions s' = SPH._boundaryPositions s
  /\ SPH._boundaryNormals s' = SPH._boundaryNormals s
  /\ SPH._t s' = SPH._t s.
Proof.
  cbv zeta. unfold SPH.voxelizeBox.
  apply (forZ_preserves (fun st =>
           SPH._boundaryPositions st = SPH._boundaryPositions s
           /\ SPH._boundaryNormals st = SPH._boundaryNormals s
           /\ SPH._t st = SPH._t s)); [auto |]. intros z st1 _ H1.
  apply (forZ_preserves (fun st =>
           SPH._boundaryPositions st = SPH._boundaryPositions s
           /\ SPH._boundaryNormals st = SPH._boundaryNormals s
           /\ SPH._t st = SPH._t s)); [exact H1 |]. intros y st2 _ H2.
  apply (forZ_preserves (fun st =>
           SPH._boundaryPositions st = SPH._boundaryPositions s
           /\ SPH._boundaryNormals st = SPH._boundaryNormals s
           /\ SPH._t st = SPH._t s)); [exact H2 |]. intros x st3 _ H3.
  destruct st3. exact H3.
Qed.

Lemma voxelizeSphere_boundary pos radius s :
  let s' := SPH.voxelizeSphere pos radius s in
  SPH._boundaryPositions s' = SPH._boundaryPositions s
  /\ SPH._boundaryNormals s' = SPH._boundaryNormals s
  /\ SPH._t s' = SPH._t s.
Proof.
  cbv zeta. unfold SPH.voxelizeSphere.
  apply (forZ_preserves (fun st =>
           SPH._boundaryPositions st = SPH._boundaryPositions s
           /\ SPH._boundaryNormals st = SPH._boundaryNormals s
           /\ SPH._t st = SPH._t s)); [auto |]. intros z st1 _ H1.
  apply (forZ_preserves (fun st =>
           SPH._boundaryPositions st = SPH._boundaryPositions s
           /\ SPH._boundaryNormals st = SPH._boundaryNormals s
           /\ SPH._t st = SPH._t s)); [exact H1 |]. intros y st2 _ H2.
  apply (forZ_preserves (fun st =>
           SPH._boundaryPositions st = SPH._boundaryPositions s
           /\ SPH._boundaryNormals st = SPH._boundaryNormals s
           /\ SPH._t st = SPH._t s)); [exact H2 |]. intros x st3 _ H3.
  case_decide; [| exact H3]. destruct st3. exact H3.
Qed.

Lemma voxelizeMesh_boundary sceneMesh s :
  let s' := SPH.voxelizeMesh (VoxelGrid := VoxelGrid) (Rng := Rng) sceneMesh s in
  length (SPH._boundaryNormals s) = length (SPH._boundaryPositions s) ->
  length (SPH._boundaryNormals s') = length (SPH._boundaryPositions s')
  /\ SPH._t s' = SPH._t s.
Proof.
  cbv zeta. intros Hs. unfold SPH.voxelizeMesh, SPH.addBoundaryParticles.
  destruct (type sceneMesh).
  - destruct s. simpl in *. auto.
  - destruct (mesh_result_lengths (VoxelGrid := VoxelGrid) (Rng := Rng)
                (ObjReader_load (filename sceneMesh)) (SPH._particleRadius s)
                SPH.defaultCells) as [Hpos Hnrm].
    cbv zeta in Hpos, Hnrm. rewrite <- Hnrm in Hpos. clear Hnrm.
    match type of Hpos with
    | length (ParticleGenerator.positions ?r) = _ =>
        set (res := r) in *; clearbody res
    end.
    destruct s. simpl in *. rewrite !length_app, Hpos, Hs. auto.
Qed.

Lemma box_result_lengths (box : Box3f) (particleRadius : R) :
  let res := ParticleGenerator.generateSurfaceParticles_box box particleRadius in
  length (ParticleGenerator.normals res) = length (ParticleGenerator.positions res)
  /\ (8 <= length (ParticleGenerator.positions res))%nat.
Proof.
  cbv zeta. unfold ParticleGenerator.generateSurfaceParticles_box. cbv zeta.
  rewrite (boxParticles_count _ _ _ _ _ _ _ (positions_addParticle _ _ _))
    by reflexivity.
  rewrite (boxParticles_count _ _ _ _ _ _ _ (normals_addParticle _ _ _))
    by reflexivity.
  split; lia.
Qed.

Lemma new_buffers (scene : Scene) :
  let this := SPH.new (VoxelGrid := VoxelGrid) (Rng := Rng) scene in
  let n := length (SPH._fluidPositions this) in
  SPH._fluidVelocities this = replicate n vzero
  /\ SPH._fluidNormals this = replicate n vzero
  /\ SPH._fluidForces this = replicate n vzero
  /\ SPH._fluidDensities this = replicate n 0
  /\ SPH._fluidPressures this = replicate n 0
  /\ length (SPH._boundaryNormals this) = length (SPH._boundaryPositions this)
  /\ (8 <= length (SPH._boundaryPositions this))%nat
  /\ SPH._t this = 0.
Proof.
  cbv zeta. unfold SPH.new. cbv zeta.
  match goal with
  | |- context [fold_left _ (boxes scene) ?s0] => set (this0 := s0)
  end.
  set (this1 := fold_left _ (boxes scene) this0).
  set (this2 := fold_left _ (spheres scene) this1).
  set (this3 := fold_left _ (meshes scene) this2).
  assert (H1 : length (SPH._boundaryNormals this1)
               = length (SPH._boundaryPositions this1)
               /\ SPH._t this1 = 0).
  { apply (fold_left_preserves (fun st =>
             length (SPH._boundaryNormals st) = length (SPH._boundaryPositions st)
             /\ SPH._t st = 0)); [split; reflexivity |].
    intros box st _ [Hb Ht].
    destruct (voxelizeBox_boundary box st) as (-> & -> & ->). auto. }
  assert (H2 : length (SPH._boundaryNormals this2)
               = length (SPH._boundaryPositions this2)
               /\ SPH._t this2 = 0).
  { apply (fold_left_preserves (fun st =>
             length (SPH._boundaryNormals st) = length (SPH._boundaryPositions st)
             /\ SPH._t st = 0)); [exact H1 |].
    intros sphere st _ [Hb Ht].
    destruct (voxelizeSphere_boundary sphere.1 sphere.2 st) as (-> & -> & ->).
    auto. }
  assert (H3 : length (SPH._boundaryNormals this3)
               = length (SPH._boundaryPositions this3)
               /\ SPH._t this3 = 0).
  { apply (fold_left_preserves (fun st =>
             length (SPH._boundaryNormals st) = length (SPH._boundaryPositions st)
             /\ SPH._t st = 0)); [exact H2 |].
    intros mesh st _ [Hb Ht].
    destruct (voxelizeMesh_boundary mesh st Hb) as [Hb' ->]. auto. }
  clearbody this3. clear H1 H2 this1 this2. destruct H3 as [Hb Ht].
  destruct (box_result_lengths (world_bounds scene)
              (getFloat scene "particleRadius" 0.01)) as [Hbox Hbox8].
  cbv zeta in Hbox, Hbox8.
  match type of Hbox with
  | _ = length (ParticleGenerator.positions ?r) =>
      set (res := r) in *; clearbody res
  end.
  unfold SPH.addBoundaryParticles. destruct this3. simpl in *.
  rewrite !length_app, Hb, Hbox. repeat split; try reflexivity; try lia.
  exact Ht.
Qed.

Lemma new_parameters_derived (scene : Scene) :
  let this := SPH.new (VoxelGrid := VoxelGrid) (Rng := Rng) scene in
  let r := getFloat scene "particleRadius" 0.01 in
  let rho0 := getFloat scene "restDensity" 1000 in
  SPH.parameters this
  = {| SPH.particleRadius := r;
       SPH.particleDiameter := 2 * r;
       SPH.kernelRadius := 4 * r;
       SPH.kernelSupportParticles :=
         Zceil ((4 / 3 * PI * cube (4 * r)) / cube (2 * r));
       SPH.particleMass := rho0 / cube (1 / (2 * r));
       SPH.restDensity := rho0 |}
  /\ SPH._kernelRadius2 this = sqr (4 * r)
  /\ SPH._kernelRadius this = 4 * r
  /\ SPH._kernel this = Kernel_init (4 * r)
  /\ SPH._bounds this = world_bounds scene.
Proof.
  cbv zeta. unfold SPH.new. cbv zeta.
  match goal with
  | |- context [fold_left _ (boxes scene) ?s0] => set (this0 := s0)
  end.
  set (this1 := fold_left _ (boxes scene) this0).
  set (this2 := fold_left _ (spheres scene) this1).
  set (this3 := fold_left _ (meshes scene) this2).
  assert (H1 : sameParameters this0 this1).
  { apply (fold_left_preserves (sameParameters this0)); [apply sameParameters_refl |].
    intros box st _ Hst. eapply sameParameters_trans; [exact Hst |].
    apply voxelizeBox_parameters. }
  assert (H2 : sameParameters this1 this2).
  { apply (fold_left_preserves (sameParameters this1)); [apply sameParameters_refl |].
    intros sphere st _ Hst. eapply sameParameters_trans; [exact Hst |].
    apply voxelizeSphere_parameters. }
  assert (H3 : sameParameters this2 this3).
  { apply (fold_left_preserves (sameParameters this2)); [apply sameParameters_refl |].
    intros mesh st _ Hst. eapply sameParameters_trans; [exact Hst |].
    apply voxelizeMesh_parameters. }
  pose proof (sameParameters_trans _ _ _ (sameParameters_trans _ _ _ H1 H2) H3)
    as (Hpar & Hh2 & _ & _ & _ & _ & Hk & Hb).
  clearbody this3. clear H1 H2 H3 this1 this2.
  pose proof (f_equal SPH.kernelRadius Hpar) as Hh.
  unfold SPH.addBoundaryParticles, SPH.parameters in *.
  destruct this3. simpl in *. auto.
Qed.

End Constructor.

(** X9.  A freshly constructed simulator has a velocity, a normal, a force,
    a density and a pressure for each fluid particle, all zero; as many
    boundary normals as boundary positions, the eight corners of the
    world box among them; and no time elapsed. *)
Theorem constructor_sizes_the_buffers {Grid VoxelGrid Rng : Type}
    {grid : GridOps Grid} {geometry : Geometry VoxelGrid}
    {random : RandomGen Rng} {meshIO : MeshIO} (scene : Scene) :
  let this := SPH.new (Grid := Grid) (VoxelGrid := VoxelGrid) (Rng := Rng) scene in
  let n := length (SPH._fluidPositions this) in
  SPH._fluidVelocities this = replicate n vzero
  /\ SPH._fluidNormals this = replicate n vzero
  /\ SPH._fluidForces this = replicate n vzero
  /\ SPH._fluidDensities this = replicate n 0
  /\ SPH._fluidPressures this = replicate n 0
  /\ length (SPH._boundaryNormals this) = length (SPH._boundaryPositions this)
  /\ (8 <= length (SPH._boundaryPositions this))%nat
  /\ SPH._t this = 0.
Proof. apply new_buffers. Qed.

(** X10.  For a particle radius r other than 0 the constructor derives the
    diameter 2r, the kernel radius h = 4r with its cached square, the
    particle mass rho0 (2r)^3, and a kernel support of 34 particles,
    whatever the radius. *)
Theorem constructor_derives_parameters {Grid VoxelGrid Rng : Type}
    {grid : GridOps Grid} {geometry : Geometry VoxelGrid}
    {random : RandomGen Rng} {meshIO : MeshIO} (scene : Scene) :
  let this := SPH.new (Grid := Grid) (VoxelGrid := VoxelGrid) (Rng := Rng) scene in
  let r := getFloat scene "particleRadius" 0.01 in
  let rho0 := getFloat scene "restDensity" 1000 in
  r <> 0 ->
  SPH.parameters this
  = {| SPH.particleRadius := r;
       SPH.particleDiameter := 2 * r;
       SPH.kernelRadius := 4 * r;
       SPH.kernelSupportParticles := 34;
       SPH.particleMass := rho0 * cube (2 * r);
       SPH.restDensity := rho0 |}
  /\ SPH._kernelRadius2 this = sqr (SPH._kernelRadius this).
Proof.
  cbv zeta. intros Hr.
  destruct (new_parameters_derived (Grid := Grid) (VoxelGrid := VoxelGrid)
              (Rng := Rng) scene) as (Hpar & Hh2 & Hh & _).
  cbv zeta in Hpar, Hh2, Hh. rewrite Hh2, Hh.
  split; [| reflexivity].
  rewrite Hpar, kernel_support by exact Hr. f_equal.
  unfold cube. field. exact Hr.
Qed.

(** X10 at the scene with particle radius 0.005. *)
Lemma constructor_derives_parameters_witness :
  let this :=
    SPH.new (grid := bruteGrid) (geometry := planeGeometry)
      (random := constantRng 0.9) (meshIO := noMeshes) fineScene in
  let r := getFloat fineScene "particleRadius" 0.01 in
  let rho0 := getFloat fineScene "restDensity" 1000 in
  SPH.parameters this
  = {| SPH.particleRadius := r;
       SPH.particleDiameter := 2 * r;
       SPH.kernelRadius := 4 * r;
       SPH.kernelSupportParticles := 34;
       SPH.particleMass := rho0 * cube (2 * r);
       SPH.restDensity := rho0 |}
  /\ SPH._kernelRadius2 this = sqr (SPH._kernelRadius this).
Proof.
  apply (constructor_derives_parameters (grid := bruteGrid)
           (geometry := planeGeometry) (random := constantRng 0.9)
           (meshIO := noMeshes) fineScene).
  rewrite fineScene_radius. lra.
Defined.

(** X11.  A scene that sets neither the particle radius, nor the rest
    density, nor the gravity gets the defaults: radius 0.01, rest density
    1000, gravity (0, -9.81, 0), hence diameter 0.02, kernel radius 0.04
    and particle mass 0.008. *)
Theorem constructor_defaults {Grid VoxelGrid Rng : Type}
    {grid : GridOps Grid} {geometry : Geometry VoxelGrid}
    {random : RandomGen Rng} {meshIO : MeshIO} (scene : Scene) :
  floats scene !! "particleRadius" = None ->
  floats scene !! "restDensity" = None ->
  vectors scene !! "gravity" = None ->
  let this := SPH.new (Grid := Grid) (VoxelGrid := VoxelGrid) (Rng := Rng) scene in
  SPH.parameters this
  = {| SPH.particleRadius := 0.01;
       SPH.particleDiameter := 0.02;
       SPH.kernelRadius := 0.04;
       SPH.kernelSupportParticles := 34;
       SPH.particleMass := 0.008;
       SPH.restDensity := 1000 |}
  /\ SPH._gravity this = mkVector3f 0 (-9.81) 0.
Proof.
  intros Hr Hrho Hg. cbv zeta.
  destruct (new_parameters_derived (Grid := Grid) (VoxelGrid := VoxelGrid)
              (Rng := Rng) scene) as (Hpar & _).
  destruct (new_parameters (Grid := Grid) (VoxelGrid := VoxelGrid)
              (Rng := Rng) scene) as (_ & _ & _ & Hgrav & _).
  cbv zeta in Hpar, Hgrav. rewrite Hpar, Hgrav.
  unfold getFloat, getVector3. rewrite Hr, Hrho, Hg. simpl default.
  rewrite kernel_support by lra.
  split; [| reflexivity]. f_equal; unfold cube; lra.
Qed.

(** X11 at a scene that sets no property. *)
Lemma constructor_defaults_witness :
  let this :=
    SPH.new (grid := bruteGrid) (geometry := planeGeometry)
      (random := constantRng 0.9) (meshIO := noMeshes) bareScene in
  SPH.parameters this
  = {| SPH.particleRadius := 0.01;
       SPH.particleDiameter := 0.02;
       SPH.kernelRadius := 0.04;
       SPH.kernelSupportParticles := 34;
       SPH.particleMass := 0.008;
       SPH.restDensity := 1000 |}
  /\ SPH._gravity this = mkVector3f 0 (-9.81) 0.
Proof.
  apply (constructor_defaults (grid := bruteGrid) (geometry := planeGeometry)
           (random := constantRng 0.9) (meshIO := noMeshes) bareScene);
    reflexivity.
Defined.

(** ** The integration stage *)

Section Integrate.
Context {Grid : Type}.
Implicit Types (s st : SPH.SPH Grid).

Lemma integrate_euler s (dt : R) :
  length (SPH._fluidVelocities s) = length (SPH._fluidPositions s) ->
  let n := length (SPH._fluidPositions s) in
  let v' i := (SPH._fluidVelocities s !!! i
               +v (SPH._fluidForces s !!! i *s (1 / SPH._particleMass s)) *s dt)%V in
  let x' i := (SPH._fluidPositions s !!! i +v v' i *s dt)%V in
  exists P V,
    SPH.integrate dt s = SPH.set_fluidPositions P (SPH.set_fluidVelocities V s)
    /\ length P = n /\ length V = n
    /\ forall i, (i < n)%nat -> V !!! i = v' i /\ P !!! i = x' i.
Proof.
  intros Hlen n v' x'. unfold SPH.integrate. cbv zeta.
  assert (H : exists P V,
    forN 0 n (fun i this =>
      SPH.set_fluidPositions
        (<[i := (SPH._fluidPositions
                   (SPH.set_fluidVelocities
                      (<[i := (SPH._fluidVelocities this !!! i
                               +v (SPH._fluidForces this !!! i
                                   *s (1 / SPH._particleMass s)) *s dt)%V]>
                         (SPH._fluidVelocities this)) this) !!! i
                 +v SPH._fluidVelocities
                      (SPH.set_fluidVelocities
                         (<[i := (SPH._fluidVelocities this !!! i
                                  +v (SPH._fluidForces this !!! i
                                      *s (1 / SPH._particleMass s)) *s dt)%V]>
                            (SPH._fluidVelocities this)) this) !!! i *s dt)%V]>
           (SPH._fluidPositions
              (SPH.set_fluidVelocities
                 (<[i := (SPH._fluidVelocities this !!! i
                          +v (SPH._fluidForces this !!! i
                              *s (1 / SPH._particleMass s)) *s dt)%V]>
                    (SPH._fluidVelocities this)) this)))
        (SPH.set_fluidVelocities
           (<[i := (SPH._fluidVelocities this !!! i
                    +v (SPH._fluidForces this !!! i
                        *s (1 / SPH._particleMass s)) *s dt)%V]>
              (SPH._fluidVelocities this)) this)) s
    = SPH.set_fluidPositions P (SPH.set_fluidVelocities V s)
    /\ length P = n /\ length V = n
    /\ (forall i, (i < n)%nat -> V !!! i = v' i /\ P !!! i = x' i)
    /\ (forall i, (n <= i)%nat ->
          V !!! i = SPH._fluidVelocities s !!! i
          /\ P !!! i = SPH._fluidPositions s !!! i)).
  { apply (forN_ind (fun k st => exists P V,
      st = SPH.set_fluidPositions P (SPH.set_fluidVelocities V s)
      /\ length P = n /\ length V = n
      /\ (forall i, (i < k)%nat -> V !!! i = v' i /\ P !!! i = x' i)
      /\ (forall i, (k <= i)%nat ->
            V !!! i = SPH._fluidVelocities s !!! i
            /\ P !!! i = SPH._fluidPositions s !!! i))); [lia | |].
    - exists (SPH._fluidPositions s), (SPH._fluidVelocities s).
      split; [destruct s; reflexivity |]. split; [reflexivity |].
      split; [exact Hlen |]. split; [intros i Hi; lia | auto].
    - intros i st Hi (P & V & -> & HP & HV & Hdone & Htodo).
      exists (<[i := (P !!! i
                      +v <[i := (V !!! i
                                 +v (SPH._fluidForces s !!! i
                                     *s (1 / SPH._particleMass s)) *s dt)%V]> V
                         !!! i *s dt)%V]> P),
             (<[i := (V !!! i
                      +v (SPH._fluidForces s !!! i
                          *s (1 / SPH._particleMass s)) *s dt)%V]> V).
      split; [destruct s; reflexivity |].
      rewrite !length_insert. split; [exact HP |]. split; [exact HV |].
      destruct (Htodo i) as [HVi HPi]; [lia |].
      split.
      + intros j Hj. destruct (decide (j = i)) as [-> | Hne].
        * rewrite !list_lookup_total_insert_eq by lia.
          unfold x', v'. rewrite HVi, HPi. auto.
        * rewrite !list_lookup_total_insert_ne by auto. apply Hdone. lia.
      + intros j Hj. rewrite !list_lookup_total_insert_ne by lia.
        apply Htodo. lia. }
  destruct H as (P & V & Heq & HP & HV & Hdone & _).
  exists P, V. auto.
Qed.

End Integrate.



(** ** The grid update *)

Lemma insert_head_Permutation {A : Type} `{!Inhabited A} (l : list A)
    (j : nat) (x : A) :
  (j < length l)%nat -> (l !!! j) :: <[j := x]> l ≡ₚ x :: l.
Proof.
  revert j. induction l as [|a l IH]; intros j Hj; simpl in Hj; [lia |].
  destruct j as [|j]; simpl.
  - apply perm_swap.
  - etrans; [apply perm_swap |]. etrans; [| apply perm_swap].
    constructor. apply IH. lia.
Qed.

(** Exchanging two elements of a list rearranges it. *)
Lemma exchange_Permutation {A : Type} `{!Inhabited A} (l : list A) (i j : nat) :
  (i < length l)%nat -> (j < length l)%nat ->
  <[j := l !!! i]> (<[i := l !!! j]> l) ≡ₚ l.
Proof.
  revert i j. induction l as [|a l IH]; intros i j Hi Hj; simpl in Hi, Hj; [lia |].
  destruct i as [|i], j as [|j]; simpl.
  - reflexivity.
  - apply insert_head_Permutation. lia.
  - apply insert_head_Permutation. lia.
  - constructor. apply IH; lia.
Qed.

Section GridUpdate.
Context {Grid : Type} {grid : GridOps Grid}.
Implicit Types (s st : SPH.SPH Grid).

Lemma swapParticles_pairs s (i j : nat) :
  length (SPH._fluidVelocities s) = length (SPH._fluidPositions s) ->
  (i < length (SPH._fluidPositions s))%nat ->
  (j < length (SPH._fluidPositions s))%nat ->
  let s' := SPH.swapParticles (i, j) s in
  s' = SPH.set_fluidVelocities (SPH._fluidVelocities s')
         (SPH.set_fluidPositions (SPH._fluidPositions s') s)
  /\ length (SPH._fluidVelocities s') = length (SPH._fluidPositions s')
  /\ length (SPH._fluidPositions s') = length (SPH._fluidPositions s)
  /\ zip (SPH._fluidPositions s') (SPH._fluidVelocities s')
     ≡ₚ zip (SPH._fluidPositions s) (SPH._fluidVelocities s).
Proof.
  intros Hlen Hi Hj. cbv zeta. unfold SPH.swapParticles.
  split; [destruct s; reflexivity |].
  cbn [SPH._fluidPositions SPH._fluidVelocities SPH.set_fluidVelocities
       SPH.set_fluidPositions].
  rewrite !length_insert.
  split; [exact Hlen |]. split; [reflexivity |].
  rewrite <- !insert_zip_with.
  rewrite <- !(lookup_total_zip_with pair) by lia.
  apply exchange_Permutation; rewrite length_zip_with; lia.
Qed.

End GridUpdate.

(** X13.  The grid update reorders the particles without separating a
    position from its velocity: the (position, velocity) pairs afterwards
    are a rearrangement of the pairs before.  It replaces the grid and
    changes nothing else.  The swaps the grid asks for are between
    particles that exist. *)
Theorem gridUpdate_reorders_particles {Grid : Type} {grid : GridOps Grid}
    (s : SPH.SPH Grid) :
  length (SPH._fluidVelocities s) = length (SPH._fluidPositions s) ->
  (forall i j, (i, j) ∈ (grid_update (SPH._fluidGrid s) (SPH._fluidPositions s)).2 ->
               (i < length (SPH._fluidPositions s))%nat
               /\ (j < length (SPH._fluidPositions s))%nat) ->
  let s' := SPH.gridUpdate s in
  s' = SPH.set_fluidGrid
         (grid_update (SPH._fluidGrid s) (SPH._fluidPositions s)).1
         (SPH.set_fluidVelocities (SPH._fluidVelocities s')
            (SPH.set_fluidPositions (SPH._fluidPositions s') s))
  /\ zip (SPH._fluidPositions s') (SPH._fluidVelocities s')
     ≡ₚ zip (SPH._fluidPositions s) (SPH._fluidVelocities s).
Proof.
  intros Hlen Hswaps. cbv zeta. unfold SPH.gridUpdate.
  destruct (grid_update (SPH._fluidGrid s) (SPH._fluidPositions s))
    as [g swaps]. simpl in Hswaps. cbn [fst].
  assert (H : let st := fold_left (fun this ij => SPH.swapParticles ij this) swaps s in
              st = SPH.set_fluidVelocities (SPH._fluidVelocities st)
                     (SPH.set_fluidPositions (SPH._fluidPositions st) s)
              /\ length (SPH._fluidVelocities st) = length (SPH._fluidPositions st)
              /\ length (SPH._fluidPositions st) = length (SPH._fluidPositions s)
              /\ zip (SPH._fluidPositions st) (SPH._fluidVelocities st)
                 ≡ₚ zip (SPH._fluidPositions s) (SPH._fluidVelocities s)).
  { cbv zeta.
    apply (fold_left_preserves (fun st =>
      st = SPH.set_fluidVelocities (SPH._fluidVelocities st)
             (SPH.set_fluidPositions (SPH._fluidPositions st) s)
      /\ length (SPH._fluidVelocities st) = length (SPH._fluidPositions st)
      /\ length (SPH._fluidPositions st) = length (SPH._fluidPositions s)
      /\ zip (SPH._fluidPositions st) (SPH._fluidVelocities st)
         ≡ₚ zip (SPH._fluidPositions s) (SPH._fluidVelocities s))).
    - split; [destruct s; reflexivity |]. auto.
    - intros [i j] st Hij (Hst & Hlv & Hlp & Hperm).
      destruct (Hswaps i j Hij) as [Hi Hj].
      destruct (swapParticles_pairs st i j Hlv) as (Hst' & Hlv' & Hlp' & Hperm');
        [lia | lia |].
      cbv zeta in Hst', Hlv', Hlp', Hperm'.
      split; [| split; [exact Hlv' | split; [lia |]]].
      + rewrite Hst' at 1. rewrite Hst at 3. destruct s. reflexivity.
      + rewrite Hperm'. exact Hperm. }
  cbv zeta in H. destruct H as (Hst & _ & _ & Hperm).
  set (st := fold_left _ swaps s) in *. clearbody st.
  split.
  - rewrite Hst at 1. destruct s, st. reflexivity.
  - destruct st. exact Hperm.
Qed.

(** X13 at the fluid of two particles, on a grid that exchanges them. *)
Lemma gridUpdate_reorders_particles_witness :
  let s := twoDrops in
  let s' := SPH.gridUpdate (grid := exchangingGrid) s in
  s' = SPH.set_fluidGrid
         (grid_update (GridOps := exchangingGrid)
            (SPH._fluidGrid s) (SPH._fluidPositions s)).1
         (SPH.set_fluidVelocities (SPH._fluidVelocities s')
            (SPH.set_fluidPositions (SPH._fluidPositions s') s))
  /\ zip (SPH._fluidPositions s') (SPH._fluidVelocities s')
     ≡ₚ zip (SPH._fluidPositions s) (SPH._fluidVelocities s).
Proof.
  apply (gridUpdate_reorders_particles (grid := exchangingGrid) twoDrops);
    [reflexivity |].
  intros i j Hij. simpl in Hij. apply list_elem_of_singleton in Hij.
  injection Hij as -> ->. simpl. lia.
Defined.

(** ** The force stage *)

Lemma replicate_lookup_total {A : Type} `{!Inhabited A} (l : list A)
    (n : nat) (a : A) :
  length l = n -> (forall i, (i < n)%nat -> l !!! i = a) -> l = replicate n a.
Proof.
  revert n. induction l as [|b l IH]; intros n Hn Hall; subst n; simpl.
  - reflexivity.
  - f_equal.
    + apply (Hall 0%nat). simpl. lia.
    + apply IH; [reflexivity |]. intros i Hi. apply (Hall (S i)). simpl. lia.
Qed.

Section Forces.
Context {Grid : Type} {grid : GridOps Grid}.
Implicit Types (s st : SPH.SPH Grid) (acc : SPH.Forces).

(** The visitor does nothing for a candidate that is the particle itself,
    or is neither within reach nor at the same place. *)
Lemma forcePair_idle i j s acc :
  j = i \/ (~ inRange s i j /\ squaredDistance s i j <> 0) ->
  SPH.forcePair i j (s, acc) = (s, acc).
Proof.
  intros [-> | [Hout Hn0]]; [apply forcePair_self |].
  unfold SPH.forcePair, inRange, squaredDistance in *.
  destruct (decide (i <> j)) as [_ |]; [| reflexivity]. cbv zeta in *.
  rewrite decide_False by exact Hout. rewrite decide_False by exact Hn0.
  reflexivity.
Qed.

Lemma forceLoop_idle i s :
  (forall j, j ∈ grid_lookup (SPH._fluidGrid s) (SPH._fluidPositions s !!! i)
                 (SPH._kernelRadius s) ->
             j = i \/ (~ inRange s i j /\ squaredDistance s i j <> 0)) ->
  SPH.forceLoop i s = (s, SPH.mkForces (vconst 0) vzero vzero vzero).
Proof.
  intros Hidle. unfold SPH.forceLoop.
  apply (fold_left_preserves
           (fun x => x = (s, SPH.mkForces (vconst 0) vzero vzero vzero)));
    [reflexivity |].
  intros j x Hj ->. apply forcePair_idle, Hidle, Hj.
Qed.

(** A particle with no other particle within reach feels gravity alone. *)
Lemma forceAt_isolated i s :
  (forall j, j ∈ grid_lookup (SPH._fluidGrid s) (SPH._fluidPositions s !!! i)
                 (SPH._kernelRadius s) ->
             j = i \/ (~ inRange s i j /\ squaredDistance s i j <> 0)) ->
  SPH.forceAt i s
  = SPH.set_fluidForces
      (<[i := smul (SPH._particleMass s) (SPH._gravity s)]> (SPH._fluidForces s)) s.
Proof.
  intros Hidle. unfold SPH.forceAt. rewrite (forceLoop_idle i s Hidle).
  cbn [SPH.force SPH.forceViscosity SPH.forceCohesion SPH.forceCurvature].
  f_equal. f_equal.
  destruct (SPH._gravity s) as [gx gy gz].
  unfold smul, vadd, vscale, vzero, vconst. simpl. f_equal; ring.
Qed.

Lemma computeForces_isolated s :
  0 < SPH._kernelRadius2 s ->
  length (SPH._fluidForces s) = length (SPH._fluidPositions s) ->
  (forall i j,
     (i < length (SPH._fluidPositions s))%nat ->
     j ∈ grid_lookup (SPH._fluidGrid s) (SPH._fluidPositions s !!! i)
           (SPH._kernelRadius s) ->
     j = i \/ SPH._kernelRadius2 s <= squaredDistance s i j) ->
  SPH.computeForces s
  = SPH.set_fluidForces
      (replicate (length (SPH._fluidPositions s))
         (smul (SPH._particleMass s) (SPH._gravity s))) s.
Proof.
  intros Hh Hlen Hfar. unfold SPH.computeForces.
  set (n := length (SPH._fluidPositions s)) in *.
  assert (H : exists F,
             forN 0 n SPH.forceAt s = SPH.set_fluidForces F s
             /\ length F = n
             /\ forall i, (i < n)%nat ->
                          F !!! i = smul (SPH._particleMass s) (SPH._gravity s)).
  { apply (forN_ind (fun k st => exists F,
             st = SPH.set_fluidForces F s
             /\ length F = n
             /\ forall i, (i < k)%nat ->
                          F !!! i = smul (SPH._particleMass s) (SPH._gravity s)));
      [lia | |].
    - exists (SPH._fluidForces s).
      split; [destruct s; reflexivity |]. split; [exact Hlen |].
      intros i Hi. lia.
    - intros i st Hi (F & -> & HF & Hdone).
      exists (<[i := smul (SPH._particleMass s) (SPH._gravity s)]> F).
      split; [| split].
      + rewrite forceAt_isolated; [destruct s; reflexivity |].
        intros j Hj. unfold inRange, squaredDistance.
        cbn [SPH._fluidPositions SPH._fluidGrid SPH._kernelRadius
             SPH._kernelRadius2 SPH.set_fluidForces] in *.
        destruct (Hfar i j) as [-> | Hge]; [lia | exact Hj | left; reflexivity |].
        right. unfold squaredDistance in Hge. split; [| lra].
        cbv zeta. lra.
      + rewrite length_insert. exact HF.
      + intros j Hj. destruct (decide (j = i)) as [-> | Hne].
        * rewrite list_lookup_total_insert_eq by lia. reflexivity.
        * rewrite list_lookup_total_insert_ne by auto. apply Hdone. lia. }
  destruct H as (F & -> & HF & Hall). f_equal.
  apply replicate_lookup_total; assumption.
Qed.

(** The visitor moves no particle when no two particles are at the same
    place. *)
Lemma forcePair_keeps_state i j s acc :
  (i < length (SPH._fluidPositions s))%nat ->
  (forall a b, (a < length (SPH._fluidPositions s))%nat ->
               (b < length (SPH._fluidPositions s))%nat -> a <> b ->
               SPH._fluidPositions s !!! a <> SPH._fluidPositions s !!! b) ->
  (SPH.forcePair i j (s, acc)).1 = s.
Proof.
  intros Hi Hdistinct. unfold SPH.forcePair.
  destruct (decide (i <> j)) as [Hij |]; [| reflexivity]. cbv zeta.
  destruct (decide (_ /\ _)) as [_ |]; [reflexivity |].
  destruct (decide (_ = 0)) as [H0 |]; [| reflexivity]. cbn [fst].
  destruct (decide (j < length (SPH._fluidPositions s))%nat) as [Hj | Hj].
  - exfalso. apply (Hdistinct i j Hi Hj Hij). apply squaredNorm_zero, H0.
  - rewrite list_insert_ge by lia. destruct s. reflexivity.
Qed.

Lemma forceAt_insert i s :
  exists f,
    SPH.forceAt i s
    = SPH.set_fluidForces (<[i := f]> (SPH._fluidForces (SPH.forceLoop i s).1))
        (SPH.forceLoop i s).1.
Proof.
  unfold SPH.forceAt. destruct (SPH.forceLoop i s) as [this acc]. simpl. eauto.
Qed.

End Forces.

(** X14.  In a fluid where every candidate the grid reports for a particle
    is the particle itself or lies at the kernel radius or beyond, the
    force stage gives every particle its weight m g and nothing else, and
    moves no particle. *)
Theorem isolated_particles_feel_gravity_alone {Grid : Type}
    {grid : GridOps Grid} (s : SPH.SPH Grid) :
  0 < SPH._kernelRadius2 s ->
  length (SPH._fluidForces s) = length (SPH._fluidPositions s) ->
  (forall i j,
     (i < length (SPH._fluidPositions s))%nat ->
     j ∈ grid_lookup (SPH._fluidGrid s) (SPH._fluidPositions s !!! i)
           (SPH._kernelRadius s) ->
     j = i \/ SPH._kernelRadius2 s <= squaredDistance s i j) ->
  SPH.computeForces s
  = SPH.set_fluidForces
      (replicate (length (SPH._fluidPositions s))
         (smul (SPH._particleMass s) (SPH._gravity s))) s.
Proof. apply computeForces_isolated. Qed.

(** X14 at two particles half a metre apart, with a kernel radius of
    0.04. *)
Lemma isolated_particles_feel_gravity_alone_witness :
  SPH.computeForces (grid := bruteGrid) farDrops
  = SPH.set_fluidForces
      (replicate (length (SPH._fluidPositions farDrops))
         (smul (SPH._particleMass farDrops) (SPH._gravity farDrops))) farDrops.
Proof.
  apply (isolated_particles_feel_gravity_alone (grid := bruteGrid) farDrops).
  - simpl. unfold sqr. lra.
  - reflexivity.
  - intros i j Hi Hj. simpl in Hi. simpl in Hj.
    destruct (decide (j = i)) as [-> | Hne]; [left; reflexivity | right].
    assert (Hj' : (j < 2)%nat).
    { apply (elem_of_seq 0 2 j) in Hj. lia. }
    assert (Hcase : (i = 0 /\ j = 1)%nat \/ (i = 1 /\ j = 0)%nat) by lia.
    destruct Hcase as [[-> ->] | [-> ->]];
      unfold squaredDistance, squaredNorm, dot, vsub; simpl; unfold sqr; lra.
Defined.

(** X15.  When no two fluid particles are at the same place, the force
    stage writes the force buffer and nothing else: positions,
    velocities, densities, pressures, normals and the grid are as
    before. *)
Theorem computeForces_writes_forces_only {Grid : Type} {grid : GridOps Grid}
    (s : SPH.SPH Grid) :
  (forall a b, (a < length (SPH._fluidPositions s))%nat ->
               (b < length (SPH._fluidPositions s))%nat -> a <> b ->
               SPH._fluidPositions s !!! a <> SPH._fluidPositions s !!! b) ->
  exists F, SPH.computeForces s = SPH.set_fluidForces F s
            /\ length F = length (SPH._fluidForces s).
Proof.
  intros Hdistinct. unfold SPH.computeForces.
  apply (forN_ind (fun k st => exists F,
           st = SPH.set_fluidForces F s
           /\ length F = length (SPH._fluidForces s))); [lia | |].
  - exists (SPH._fluidForces s). split; [destruct s; reflexivity | reflexivity].
  - intros i st Hi (F & -> & HF).
    destruct (forceAt_insert i (SPH.set_fluidForces F s)) as [f Hf].
    assert (Hloop : (SPH.forceLoop i (SPH.set_fluidForces F s)).1
                    = SPH.set_fluidForces F s).
    { unfold SPH.forceLoop.
      apply (fold_left_preserves
               (fun x : SPH.SPH Grid * SPH.Forces =>
                  x.1 = SPH.set_fluidForces F s)); [reflexivity |].
      intros j [this acc] _ Hx. simpl in Hx. subst this.
      apply forcePair_keeps_state; [exact (proj2 Hi) | exact Hdistinct]. }
    rewrite Hloop in Hf. exists (<[i := f]> F).
    split; [rewrite Hf; destruct s; reflexivity |].
    rewrite length_insert. exact HF.
Qed.

(** X15 at the fluid of two particles 0.02 apart. *)
Lemma computeForces_writes_forces_only_witness :
  exists F, SPH.computeForces (grid := bruteGrid) twoDrops
            = SPH.set_fluidForces F twoDrops
            /\ length F = length (SPH._fluidForces twoDrops).
Proof.
  apply (computeForces_writes_forces_only (grid := bruteGrid) twoDrops).
  intros a b Ha Hb Hab. simpl in Ha, Hb.
  assert (Hcase : (a = 0 /\ b = 1)%nat \/ (a = 1 /\ b = 0)%nat) by lia.
  destruct Hcase as [[-> ->] | [-> ->]]; simpl; intros H; injection H; lra.
Defined.

(** X16.  Two particles at the same place do not push each other apart:
    the visitor moves the candidate by (1e-5, 1e-5, 1e-5), which leaves the
    pair at a squared distance of 3e-10, below the threshold 1e-5 of the
    interaction test, so that a later visit from either side adds no force
    and moves nothing. *)
Theorem coincident_pair_stays_inert {Grid : Type} (s : SPH.SPH Grid)
    (i j : nat) (acc : SPH.Forces) :
  i <> j ->
  (i < length (SPH._fluidPositions s))%nat ->
  (j < length (SPH._fluidPositions s))%nat ->
  SPH._fluidPositions s !!! i = SPH._fluidPositions s !!! j ->
  SPH.forcePair i j (s, acc) = (nudged j s, acc)
  /\ 0 < squaredDistance (nudged j s) i j <= 0.00001
  /\ SPH.forcePair i j (nudged j s, acc) = (nudged j s, acc)
  /\ SPH.forcePair j i (nudged j s, acc) = (nudged j s, acc).
Proof.
  intros Hij Hi Hj Hsame.
  assert (Hr2 : squaredDistance s i j = 0).
  { unfold squaredDistance. rewrite Hsame.
    destruct (SPH._fluidPositions s !!! j).
    unfold squaredNorm, dot, vsub. simpl. ring. }
  assert (Hd : squaredDistance (nudged j s) i j = 3 * (1e-5 * 1e-5)).
  { unfold squaredDistance, nudged.
    cbn [SPH._fluidPositions SPH.set_fluidPositions].
    rewrite list_lookup_total_insert_eq by lia.
    rewrite list_lookup_total_insert_ne by auto. rewrite Hsame.
    destruct (SPH._fluidPositions s !!! j).
    unfold squaredNorm, dot, vsub, vadd, vconst. simpl. ring. }
  assert (Hd' : squaredDistance (nudged j s) j i = 3 * (1e-5 * 1e-5)).
  { unfold squaredDistance in *. rewrite squaredNorm_vsub_sym. exact Hd. }
  split; [| split; [rewrite Hd; lra | split]].
  - destruct (forcePair_cases i j s acc Hij) as (_ & Hzero & _).
    apply Hzero; [| exact Hr2].
    unfold inRange. unfold squaredDistance in Hr2. cbv zeta. lra.
  - apply forcePair_idle. right. unfold inRange.
    unfold squaredDistance in *. cbv zeta. lra.
  - apply forcePair_idle. right. unfold inRange.
    unfold squaredDistance in *. cbv zeta. lra.
Qed.

(** X16 at two particles at the origin. *)
Lemma coincident_pair_stays_inert_witness :
  let s := stackedDrops in
  let acc := SPH.mkForces vzero vzero vzero vzero in
  SPH.forcePair 0 1 (s, acc) = (nudged 1 s, acc)
  /\ 0 < squaredDistance (nudged 1 s) 0 1 <= 0.00001
  /\ SPH.forcePair 0 1 (nudged 1 s, acc) = (nudged 1 s, acc)
  /\ SPH.forcePair 1 0 (nudged 1 s, acc) = (nudged 1 s, acc).
Proof.
  apply (coincident_pair_stays_inert stackedDrops 0 1
           (SPH.mkForces vzero vzero vzero vzero));
    [lia | simpl; lia | simpl; lia | reflexivity].
Defined.

(** ** The collision stage, once more *)




Section CollisionStage.
Context {Grid : Type}.
Implicit Types (s st : SPH.SPH Grid).

Lemma inBox_not_outside (box : Box3f) (f : Face) (p : Vector3f) :
  inBox box p -> ~ outside box f p.
Proof.
  unfold inBox. intros (Hx & Hy & Hz). destruct f; simpl; lra.
Qed.

Lemma faceTest_inside
    (handler : nat -> Vector3f -> R -> SPH.SPH Grid -> SPH.SPH Grid)
    i (f : Face) s :
  inBox (SPH._bounds s) (SPH._fluidPositions s !!! i) ->
  faceTest handler i f s = s.
Proof.
  intros Hin. unfold faceTest, when.
  rewrite decide_False by (apply inBox_not_outside, Hin). reflexivity.
Qed.

Lemma collideParticle_inside
    (handler : nat -> Vector3f -> R -> SPH.SPH Grid -> SPH.SPH Grid) i s :
  inBox (SPH._bounds s) (SPH._fluidPositions s !!! i) ->
  SPH.collideParticle handler i s = s.
Proof.
  intros Hin. rewrite collideParticle_tests. unfold andThen.
  rewrite (faceTest_inside handler i XMin s Hin).
  rewrite (faceTest_inside handler i XMax s Hin).
  rewrite (faceTest_inside handler i YMin s Hin).
  rewrite (faceTest_inside handler i YMax s Hin).
  rewrite (faceTest_inside handler i ZMin s Hin).
  apply (faceTest_inside handler i ZMax s Hin).
Qed.

End CollisionStage.



(** X18.  The collision stage calls no handler, whichever it is, on a
    fluid whose particles are all inside the world box: the state stays
    as it is. *)
Theorem collisions_spare_particles_inside {Grid : Type}
    (handler : nat -> Vector3f -> R -> SPH.SPH Grid -> SPH.SPH Grid)
    (s : SPH.SPH Grid) :
  Forall (inBox (SPH._bounds s)) (SPH._fluidPositions s) ->
  SPH.computeCollisions handler s = s.
Proof.
  intros Hall. unfold SPH.computeCollisions.
  apply (forN_preserves (fun st => st = s)); [reflexivity |].
  intros i st Hi ->. apply collideParticle_inside.
  apply Forall_lookup_total_1; [exact Hall | lia].
Qed.

(** X18 at the fluid of two particles, with the handler of [update]. *)
Lemma collisions_spare_particles_inside_witness :
  SPH.computeCollisions SPH.collisionHandler twoDrops = twoDrops.
Proof.
  apply (collisions_spare_particles_inside SPH.collisionHandler twoDrops).
  repeat constructor; simpl; lra.
Defined.

(** ** What a step keeps *)

Section Layout.
Context {Grid : Type} {grid : GridOps Grid}.
Implicit Types (s st : SPH.SPH Grid).

Lemma sameLayout_refl s : sameLayout s s.
Proof. unfold sameLayout, sameParameters. repeat split. Qed.

Lemma sameLayout_trans s1 s2 s3 :
  sameLayout s1 s2 -> sameLayout s2 s3 -> sameLayout s1 s3.
Proof.
  unfold sameLayout.
  intros (Hp & -> & -> & -> & -> & -> & -> & -> & -> & ->)
         (Hp' & -> & -> & -> & -> & -> & -> & -> & -> & ->).
  split; [eapply sameParameters_trans; eassumption |]. repeat split.
Qed.

Ltac layout :=
  unfold sameLayout, sameParameters; simpl; rewrite ?length_insert;
  repeat split.

Lemma forN_layout s (count : nat) (body : nat -> SPH.SPH Grid -> SPH.SPH Grid) :
  (forall i st, sameLayout st (body i st)) ->
  sameLayout s (forN 0 count body s).
Proof.
  intros Hbody. apply (forN_preserves (sameLayout s)); [apply sameLayout_refl |].
  intros i st _ Hst. eapply sameLayout_trans; [exact Hst | apply Hbody].
Qed.

Lemma set_t_layout s (t : R) : sameLayout s (SPH.set_t t s).
Proof. destruct s. layout. Qed.

Lemma gridUpdate_layout s : sameLayout s (SPH.gridUpdate s).
Proof.
  unfold SPH.gridUpdate.
  destruct (grid_update (SPH._fluidGrid s) (SPH._fluidPositions s)) as [g swaps].
  apply (sameLayout_trans _ (fold_left (fun this ij => SPH.swapParticles ij this) swaps s)).
  - apply (fold_left_preserves (sameLayout s)); [apply sameLayout_refl |].
    intros [i j] st _ Hst. eapply sameLayout_trans; [exact Hst |].
    destruct st. layout.
  - destruct (fold_left _ swaps s). layout.
Qed.

Lemma computeDensity_layout s : sameLayout s (SPH.computeDensity s).
Proof. apply forN_layout. intros i st. destruct st. layout. Qed.

Lemma computeNormals_layout s : sameLayout s (SPH.computeNormals s).
Proof. apply forN_layout. intros i st. destruct st. layout. Qed.

Lemma forcePair_layout i j (st : SPH.SPH Grid * SPH.Forces) :
  sameLayout st.1 (SPH.forcePair i j st).1.
Proof.
  destruct st as [this acc]. unfold SPH.forcePair.
  repeat case_decide; try apply sameLayout_refl.
  destruct this. layout.
Qed.

Lemma computeForces_layout s : sameLayout s (SPH.computeForces s).
Proof.
  apply forN_layout. intros i st.
  destruct (forceAt_insert i st) as [f ->].
  assert (H : sameLayout st (SPH.forceLoop i st).1).
  { unfold SPH.forceLoop.
    apply (fold_left_preserves
             (fun x : SPH.SPH Grid * SPH.Forces => sameLayout st x.1));
      [apply sameLayout_refl |].
    intros j x _ Hx. eapply sameLayout_trans; [exact Hx | apply forcePair_layout]. }
  eapply sameLayout_trans; [exact H |].
  destruct (SPH.forceLoop i st).1. layout.
Qed.

Lemma integrate_layout dt s : sameLayout s (SPH.integrate dt s).
Proof. apply forN_layout. intros i st. destruct st. layout. Qed.

Lemma faceTest_layout s i f :
  sameLayout s (faceTest SPH.collisionHandler i f s).
Proof.
  unfold faceTest, when. case_decide; [| apply sameLayout_refl].
  destruct s. layout.
Qed.

Lemma computeCollisions_layout s :
  sameLayout s (SPH.computeCollisions SPH.collisionHandler s).
Proof.
  apply forN_layout. intros i st. rewrite collideParticle_tests. unfold andThen.
  repeat (eapply sameLayout_trans; [| apply faceTest_layout]).
  apply sameLayout_refl.
Qed.

Lemma update_layout dt s : sameLayout s (SPH.update dt s).
Proof.
  unfold SPH.update. cbv zeta.
  eapply sameLayout_trans; [| apply computeCollisions_layout].
  eapply sameLayout_trans; [| apply integrate_layout].
  eapply sameLayout_trans; [| apply computeForces_layout].
  eapply sameLayout_trans; [| apply computeNormals_layout].
  eapply sameLayout_trans; [| apply computeDensity_layout].
  eapply sameLayout_trans; [| apply gridUpdate_layout].
  apply set_t_layout.
Qed.

Lemma run_layout (dts : list R) s : sameLayout s (run dts s).
Proof.
  unfold run. apply (fold_left_preserves (sameLayout s)); [apply sameLayout_refl |].
  intros dt st _ Hst. eapply sameLayout_trans; [exact Hst | apply update_layout].
Qed.

End Layout.

(** X20.  A step keeps the simulation parameters, the kernel, the world
    box and the boundary particles, and the size of every per-particle
    buffer, whatever the state and the timestep. *)
Theorem update_keeps_the_layout {Grid : Type} {grid : GridOps Grid}
    (s : SPH.SPH Grid) (dt : R) :
  sameLayout s (SPH.update dt s).
Proof. apply update_layout. Qed.

(** ** A step, stage by stage

    The collision response and the part of the timestep are stated here on
    [update] itself: what a whole step does to each particle, from what the
    sections above have shown of its stages. *)

Lemma forN_commute {S : Type} (f : S -> S) (body : nat -> S -> S)
    (lo hi : nat) (s : S) :
  (forall i x, body i (f x) = f (body i x)) ->
  forN lo hi body (f s) = f (forN lo hi body s).
Proof.
  intros Hbody. unfold forN. generalize (seq lo (hi - lo)) as l. intros l.
  revert s. induction l as [|i l IH]; intros s; simpl; [reflexivity |].
  rewrite Hbody. apply IH.
Qed.

Section StepByStep.
Context {Grid : Type} {grid : GridOps Grid}.
Implicit Types (s st : SPH.SPH Grid).

(** The collision stage with the handler of [update], particle by
    particle: each particle gets the stated response, every face in turn,
    and nothing but the positions and the velocities changes. *)
Lemma computeCollisions_collideBox s :
  length (SPH._fluidVelocities s) = length (SPH._fluidPositions s) ->
  let n := length (SPH._fluidPositions s) in
  exists P V,
    SPH.computeCollisions SPH.collisionHandler s
    = SPH.set_fluidVelocities V (SPH.set_fluidPositions P s)
    /\ length P = n /\ length V = n
    /\ forall i, (i < n)%nat ->
         (P !!! i, V !!! i)
         = collideBox (SPH._bounds s)
             (SPH._fluidPositions s !!! i, SPH._fluidVelocities s !!! i).
Proof.
  intros Hlen n. unfold SPH.computeCollisions. fold n.
  assert (H : exists P V,
    forN 0 n (SPH.collideParticle SPH.collisionHandler) s
    = SPH.set_fluidVelocities V (SPH.set_fluidPositions P s)
    /\ length P = n /\ length V = n
    /\ (forall i, (i < n)%nat ->
          (P !!! i, V !!! i)
          = collideBox (SPH._bounds s)
              (SPH._fluidPositions s !!! i, SPH._fluidVelocities s !!! i))
    /\ (forall i, (n <= i)%nat ->
          P !!! i = SPH._fluidPositions s !!! i
          /\ V !!! i = SPH._fluidVelocities s !!! i)).
  { apply (forN_ind (fun k st => exists P V,
      st = SPH.set_fluidVelocities V (SPH.set_fluidPositions P s)
      /\ length P = n /\ length V = n
      /\ (forall i, (i < k)%nat ->
            (P !!! i, V !!! i)
            = collideBox (SPH._bounds s)
                (SPH._fluidPositions s !!! i, SPH._fluidVelocities s !!! i))
      /\ (forall i, (k <= i)%nat ->
            P !!! i = SPH._fluidPositions s !!! i
            /\ V !!! i = SPH._fluidVelocities s !!! i))); [lia | |].
    - exists (SPH._fluidPositions s), (SPH._fluidVelocities s).
      split; [destruct s; reflexivity |]. split; [reflexivity |].
      split; [exact Hlen |]. split; [intros i Hi; lia | auto].
    - intros i st Hi (P & V & -> & HP & HV & Hdone & Htodo).
      rewrite collideParticle_collideBox
        by (cbn [SPH.set_fluidVelocities SPH.set_fluidPositions
                 SPH._fluidPositions SPH._fluidVelocities]; lia).
      cbn [SPH.set_fluidVelocities SPH.set_fluidPositions SPH._bounds
           SPH._fluidPositions SPH._fluidVelocities].
      destruct (Htodo i) as [HPi HVi]; [lia |]. rewrite HPi, HVi.
      set (pv := collideBox (SPH._bounds s) _).
      exists (<[i := pv.1]> P), (<[i := pv.2]> V).
      split; [unfold setParticle; destruct s; reflexivity |].
      rewrite !length_insert. split; [exact HP |]. split; [exact HV |].
      split.
      + intros j Hj. destruct (decide (j = i)) as [-> | Hne].
        * rewrite !list_lookup_total_insert_eq by lia.
          symmetry. apply surjective_pairing.
        * rewrite !list_lookup_total_insert_ne by auto. apply Hdone. lia.
      + intros j Hj. rewrite !list_lookup_total_insert_ne by lia.
        apply Htodo. lia. }
  destruct H as (P & V & Heq & HP & HV & Hdone & _). exists P, V. auto.
Qed.

End StepByStep.

Lemma collideFace_inside (box : Box3f) (f : Face) (pv : Vector3f * Vector3f) :
  ~ outside box f pv.1 -> collideFace box f pv = pv.
Proof.
  intros Hin. unfold collideFace.
  destruct (decide (outside box f pv.1)); [contradiction | reflexivity].
Qed.

Lemma collideFace_outside (box : Box3f) (f : Face) (pv : Vector3f * Vector3f) :
  outside box f pv.1 ->
  collideFace box f pv = respond 0.5 (faceNormal f) (penetration box f pv.1) pv.
Proof.
  intros Hout. unfold collideFace.
  destruct (decide (outside box f pv.1)); [reflexivity | contradiction].
Qed.

(** A particle inside the box is left as it is. *)
Lemma collideBox_inside (box : Box3f) (pv : Vector3f * Vector3f) :
  (forall f, ~ outside box f pv.1) -> collideBox box pv = pv.
Proof.
  intros Hin. unfold collideBox. cbn [fold_left].
  repeat (rewrite (collideFace_inside box _ pv) by apply Hin). reflexivity.
Qed.

(** A particle that violates one face only gets the response of that face
    and no other. *)
Lemma collideBox_one_face (box : Box3f) (f : Face) (p v : Vector3f) :
  vx (box_min box) <= vx (box_max box) ->
  vy (box_min box) <= vy (box_max box) ->
  vz (box_min box) <= vz (box_max box) ->
  outside box f p ->
  (forall g, g <> f -> ~ outside box g p) ->
  collideBox box (p, v)
  = respond 0.5 (faceNormal f) (penetration box f p) (p, v).
Proof.
  intros Hx Hy Hz Hout Hrest.
  assert (Hafter : forall g,
            g <> f ->
            ~ outside box g
                (respond 0.5 (faceNormal f) (penetration box f p) (p, v)).1).
  { intros g Hg. specialize (Hrest g Hg).
    destruct p as [x y z], box as [[lx ly lz] [hx hy hz]].
    destruct f, g; try contradiction; simpl in *; lra. }
  unfold collideBox. cbn [fold_left].
  destruct f;
    repeat match goal with
    | |- context [collideFace box ?g (p, v)] =>
        first [ rewrite (collideFace_outside box g (p, v)) by exact Hout
              | rewrite (collideFace_inside box g (p, v))
                  by (apply Hrest; discriminate) ];
        cbn [fst]
    | |- context [collideFace box ?g (respond ?c ?n ?d (p, v))] =>
        rewrite (collideFace_inside box g (respond c n d (p, v)))
          by (apply Hafter; discriminate)
    end;
    reflexivity.
Qed.

Section TimeLast.
Context {Grid : Type} {grid : GridOps Grid}.
Implicit Types (s st : SPH.SPH Grid).

Lemma gridUpdate_set_t a s :
  SPH.gridUpdate (SPH.set_t a s) = SPH.set_t a (SPH.gridUpdate s).
Proof.
  unfold SPH.gridUpdate.
  cbn [SPH.set_t SPH._fluidGrid SPH._fluidPositions].
  destruct (grid_update (SPH._fluidGrid s) (SPH._fluidPositions s)) as [g swaps].
  assert (H : forall st,
            fold_left (fun this ij => SPH.swapParticles ij this) swaps
              (SPH.set_t a st)
            = SPH.set_t a
                (fold_left (fun this ij => SPH.swapParticles ij this) swaps st)).
  { induction swaps as [|[i j] swaps IH]; intros st; simpl; [reflexivity |].
    rewrite <- IH. reflexivity. }
  rewrite H. reflexivity.
Qed.

Lemma computeDensity_set_t a s :
  SPH.computeDensity (SPH.set_t a s) = SPH.set_t a (SPH.computeDensity s).
Proof.
  unfold SPH.computeDensity. cbn [SPH.set_t SPH._fluidPositions].
  apply forN_commute. intros i st. reflexivity.
Qed.

Lemma computeNormals_set_t a s :
  SPH.computeNormals (SPH.set_t a s) = SPH.set_t a (SPH.computeNormals s).
Proof.
  unfold SPH.computeNormals. cbn [SPH.set_t SPH._fluidPositions].
  apply forN_commute. intros i st. reflexivity.
Qed.

Lemma forcePair_set_t a i j st (acc : SPH.Forces) :
  SPH.forcePair i j (SPH.set_t a st, acc)
  = (SPH.set_t a (SPH.forcePair i j (st, acc)).1,
     (SPH.forcePair i j (st, acc)).2).
Proof.
  unfold SPH.forcePair.
  cbn [SPH.set_t SPH._fluidPositions SPH._fluidVelocities SPH._fluidNormals
       SPH._fluidDensities SPH._fluidPressures SPH._kernelRadius2
       SPH._particleMass2 SPH._kernel SPH._restDensity].
  repeat (case_decide; try reflexivity).
Qed.

Lemma forceAt_set_t a i s :
  SPH.forceAt i (SPH.set_t a s) = SPH.set_t a (SPH.forceAt i s).
Proof.
  unfold SPH.forceAt, SPH.forceLoop.
  cbn [SPH.set_t SPH._fluidGrid SPH._fluidPositions SPH._kernelRadius].
  generalize (SPH.mkForces (vconst 0) vzero vzero vzero) as acc.
  generalize (grid_lookup (SPH._fluidGrid s) (SPH._fluidPositions s !!! i)
                (SPH._kernelRadius s)) as l.
  intros l. revert s. induction l as [|j l IH]; intros s acc.
  - reflexivity.
  - cbn [fold_left]. rewrite forcePair_set_t.
    destruct (SPH.forcePair i j (s, acc)) as [s1 acc1]. cbn [fst snd].
    apply IH.
Qed.

Lemma computeForces_set_t a s :
  SPH.computeForces (SPH.set_t a s) = SPH.set_t a (SPH.computeForces s).
Proof.
  unfold SPH.computeForces. cbn [SPH.set_t SPH._fluidPositions].
  apply forN_commute. intros i st. apply forceAt_set_t.
Qed.

Lemma integrate_set_t a dt s :
  SPH.integrate dt (SPH.set_t a s) = SPH.set_t a (SPH.integrate dt s).
Proof.
  unfold SPH.integrate. cbn [SPH.set_t SPH._fluidPositions SPH._particleMass].
  apply forN_commute. intros i st. reflexivity.
Qed.

Lemma collideParticle_set_t a i s :
  SPH.collideParticle SPH.collisionHandler i (SPH.set_t a s)
  = SPH.set_t a (SPH.collideParticle SPH.collisionHandler i s).
Proof.
  rewrite !collideParticle_tests. unfold andThen.
  assert (H : forall f st,
            faceTest SPH.collisionHandler i f (SPH.set_t a st)
            = SPH.set_t a (faceTest SPH.collisionHandler i f st)).
  { intros f st. unfold faceTest, when.
    cbn [SPH.set_t SPH._bounds SPH._fluidPositions].
    case_decide; reflexivity. }
  rewrite !H. reflexivity.
Qed.

Lemma computeCollisions_set_t a s :
  SPH.computeCollisions SPH.collisionHandler (SPH.set_t a s)
  = SPH.set_t a (SPH.computeCollisions SPH.collisionHandler s).
Proof.
  unfold SPH.computeCollisions. cbn [SPH.set_t SPH._fluidPositions].
  apply forN_commute. intros i st. apply collideParticle_set_t.
Qed.

(** The timestep enters a step at two places only: the elapsed time and
    the integration.  The grid, the densities, the normals and the forces
    are computed as if no time had passed. *)
Lemma update_stages dt s :
  SPH.update dt s
  = SPH.set_t (SPH._t s + dt)
      (SPH.computeCollisions SPH.collisionHandler
         (SPH.integrate dt
            (SPH.computeForces
               (SPH.computeNormals
                  (SPH.computeDensity (SPH.gridUpdate s)))))).
Proof.
  unfold SPH.update. cbv zeta.
  rewrite gridUpdate_set_t, computeDensity_set_t, computeNormals_set_t,
    computeForces_set_t, integrate_set_t, computeCollisions_set_t.
  reflexivity.
Qed.

End TimeLast.

Section Step.
Context {Grid : Type} {grid : GridOps Grid}.
Implicit Types (s st : SPH.SPH Grid).

(** The state the force stage leaves has the layout of the state the step
    started from. *)
Lemma forces_layout s :
  sameLayout s
    (SPH.computeForces
       (SPH.computeNormals (SPH.computeDensity (SPH.gridUpdate s)))).
Proof.
  eapply sameLayout_trans; [| apply computeForces_layout].
  eapply sameLayout_trans; [| apply computeNormals_layout].
  eapply sameLayout_trans; [| apply computeDensity_layout].
  apply gridUpdate_layout.
Qed.

(** A step, particle by particle: the integration moves the particle with
    the timestep it is given, and the collision stage responds to where
    that has put it. *)
Lemma update_particles dt s :
  length (SPH._fluidVelocities s) = length (SPH._fluidPositions s) ->
  let forces :=
    SPH.computeForces
      (SPH.computeNormals (SPH.computeDensity (SPH.gridUpdate s))) in
  let pre := SPH.integrate dt forces in
  let s' := SPH.update dt s in
  s' = SPH.set_t (SPH._t s + dt)
         (SPH.computeCollisions SPH.collisionHandler pre)
  /\ forall i, (i < length (SPH._fluidPositions s))%nat ->
       SPH._fluidVelocities pre !!! i
       = (SPH._fluidVelocities forces !!! i
          +v (SPH._fluidForces forces !!! i *s (1 / SPH._particleMass s))
             *s dt)%V
       /\ SPH._fluidPositions pre !!! i
          = (SPH._fluidPositions forces !!! i
             +v SPH._fluidVelocities pre !!! i *s dt)%V
       /\ (SPH._fluidPositions s' !!! i, SPH._fluidVelocities s' !!! i)
          = collideBox (SPH._bounds s)
              (SPH._fluidPositions pre !!! i, SPH._fluidVelocities pre !!! i).
Proof.
  intros Hlen forces pre s'.
  split; [apply update_stages |].
  destruct (forces_layout s) as (Hpar & _ & _ & _ & Hp & Hv & _).
  fold forces in Hpar, Hp, Hv.
  destruct Hpar as (Hprm & _ & _ & _ & _ & _ & _ & Hb).
  apply (f_equal SPH.particleMass) in Hprm.
  cbn [SPH.parameters SPH.particleMass] in Hprm.
  destruct (integrate_euler forces dt) as (P & V & Hint & HP & HV & Hall);
    [lia |].
  cbv zeta in Hall. fold pre in Hint.
  destruct (computeCollisions_collideBox pre) as (P' & V' & Hcol & _ & _ & Hresp).
  { rewrite Hint. cbn [SPH.set_fluidPositions SPH.set_fluidVelocities
      SPH._fluidPositions SPH._fluidVelocities]. lia. }
  assert (Hposlen : length (SPH._fluidPositions pre)
                    = length (SPH._fluidPositions s)).
  { rewrite Hint. cbn [SPH.set_fluidPositions SPH._fluidPositions]. lia. }
  assert (Hbpre : SPH._bounds pre = SPH._bounds s).
  { rewrite Hint. cbn [SPH.set_fluidPositions SPH.set_fluidVelocities
      SPH._bounds]. exact Hb. }
  intros i Hi.
  destruct (Hall i) as [HVi HPi]; [lia |].
  assert (Hprev : SPH._fluidVelocities pre !!! i = V !!! i
                  /\ SPH._fluidPositions pre !!! i = P !!! i).
  { rewrite Hint. split; reflexivity. }
  destruct Hprev as [HpreV HpreP].
  split; [rewrite HpreV, HVi, Hprm; reflexivity |].
  split; [rewrite HpreP, HpreV, HPi, HVi; reflexivity |].
  unfold s'. rewrite update_stages. fold forces. fold pre. rewrite Hcol.
  cbn [SPH.set_t SPH.set_fluidPositions SPH.set_fluidVelocities
       SPH._fluidPositions SPH._fluidVelocities].
  rewrite <- Hbpre. apply Hresp. lia.
Qed.

End Step.

(** C3.  In a step, the collision stage gives every particle the stated
    response at every face of the world box in turn (x min, x max, y min,
    y max, z min, z max), on the position p and the velocity v that the
    integration has left: where the coordinate is beyond the face,
    x += n d and v -= (1 + c) (v . n) n with c = 0.5, n the inward
    axis-aligned unit normal of the face and d the penetration depth.  For
    a particle beyond one face only this is the whole effect, d is
    positive and the particle ends on the face; a particle inside the box
    is not touched. *)
Theorem collision_response {Grid : Type} {grid : GridOps Grid}
    (s : SPH.SPH Grid) (dt : R) (i : nat) :
  vx (box_min (SPH._bounds s)) <= vx (box_max (SPH._bounds s)) ->
  vy (box_min (SPH._bounds s)) <= vy (box_max (SPH._bounds s)) ->
  vz (box_min (SPH._bounds s)) <= vz (box_max (SPH._bounds s)) ->
  length (SPH._fluidVelocities s) = length (SPH._fluidPositions s) ->
  (i < length (SPH._fluidPositions s))%nat ->
  let pre :=
    SPH.integrate dt
      (SPH.computeForces
         (SPH.computeNormals (SPH.computeDensity (SPH.gridUpdate s)))) in
  let s' := SPH.update dt s in
  let box := SPH._bounds s in
  let p := SPH._fluidPositions pre !!! i in
  let v := SPH._fluidVelocities pre !!! i in
  let p' := SPH._fluidPositions s' !!! i in
  let v' := SPH._fluidVelocities s' !!! i in
  s' = SPH.set_t (SPH._t s + dt)
         (SPH.computeCollisions SPH.collisionHandler pre)
  /\ (p', v') = collideBox box (p, v)
  /\ (forall f,
        outside box f p -> (forall g, g <> f -> ~ outside box g p) ->
        let n := faceNormal f in
        let d := penetration box f p in
        0 < d
        /\ p' = (p +v n *s d)%V
        /\ v' = (v -v smul ((1 + 0.5) * dot v n) n)%V
        /\ coordinate f p' = faceBound box f)
  /\ ((forall f, ~ outside box f p) -> p' = p /\ v' = v)
  /\ (forall f,
        squaredNorm (faceNormal f) = 1
        /\ (forall g, coordinate g (faceNormal f) <> 0 ->
                      coordinate g = coordinate f)
        /\ (vx (box_min box) < vx (box_max box) ->
            vy (box_min box) < vy (box_max box) ->
            vz (box_min box) < vz (box_max box) ->
            forall q, coordinate f q = faceBound box f ->
                      inwardPointing box q (faceNormal f))).
Proof.
  intros Hx Hy Hz Hlen Hi pre s' box p v p' v'.
  destruct (update_particles dt s Hlen) as [Hupd Hall].
  cbv zeta in Hall. destruct (Hall i Hi) as (_ & _ & Hresp).
  fold pre in Hupd, Hresp. fold s' in Hupd, Hresp.
  fold p v p' v' box in Hresp.
  split; [exact Hupd |]. split; [exact Hresp |]. split; [| split].
  - intros f Hout Hrest n d.
    rewrite (collideBox_one_face box f p v Hx Hy Hz Hout Hrest) in Hresp.
    unfold respond in Hresp. cbn [fst snd] in Hresp.
    injection Hresp as Hp' Hv'. fold n d in Hp', Hv'.
    destruct (respond_on_face box f p v Hout) as (Hd & Hface & _).
    unfold respond in Hface. cbn [fst snd] in Hface. fold n d in Hface.
    split; [exact Hd |]. split; [exact Hp' |]. split; [exact Hv' |].
    rewrite Hp'. exact Hface.
  - intros Hin. rewrite (collideBox_inside box (p, v)) in Hresp by exact Hin.
    injection Hresp as Hp' Hv'. split; assumption.
  - intros f. apply faceNormal_inward.
Qed.

(** The stray particle after the stages of a step that precede the
    collision stage: it has fallen for one step from where it was. *)
Lemma strayDrop_before_collisions (dt : R) :
  let pre :=
    SPH.integrate dt
      (SPH.computeForces (grid := bruteGrid)
         (SPH.computeNormals (grid := bruteGrid)
            (SPH.computeDensity (grid := bruteGrid)
               (SPH.gridUpdate (grid := bruteGrid) strayDrop)))) in
  SPH._fluidPositions pre
  = [mkVector3f 0 (-2 + (-1 + -9.81 * dt) * dt) 0]
  /\ SPH._fluidVelocities pre = [mkVector3f 0 (-1 + -9.81 * dt) 0].
Proof.
  cbv zeta.
  change (SPH.gridUpdate (grid := bruteGrid) strayDrop)
    with (SPH.set_fluidGrid 1%nat strayDrop).
  set (s1 := SPH.set_fluidGrid 1%nat _).
  change (SPH.computeDensity (grid := bruteGrid) s1)
    with (SPH.densityAt (grid := bruteGrid) 0 s1).
  destruct (densityAt_frame (grid := bruteGrid) 0 s1) as (D & P & ->).
  set (s2 := SPH.set_fluidPressures P _).
  change (SPH.computeNormals (grid := bruteGrid) s2)
    with (SPH.normalAt (grid := bruteGrid) 0 s2).
  destruct (normalAt_frame (grid := bruteGrid) 0 s2) as (N & ->).
  set (s3 := SPH.set_fluidNormals N _).
  change (SPH.computeForces (grid := bruteGrid) s3)
    with (SPH.forceAt (grid := bruteGrid) 0 s3).
  rewrite (forceAt_alone (grid := bruteGrid) 0 s3) by reflexivity.
  unfold SPH.integrate, forN. cbn -[Rplus Rmult Rdiv Ropp IZR Rminus cube].
  split; f_equal; unfold smul, vadd, vscale, vzero, vconst, cube; simpl;
    f_equal; field; lra.
Qed.

(** C3 at a particle below the floor of the box [-1, 1]^3, falling at
    1 m/s, and a step of 0.001: the integration leaves it at
    y = -2.00100981 with velocity -1.00981; the collision stage puts it on
    the floor y = -1 and turns its velocity to 0.504905, upward. *)
Lemma collision_response_witness :
  let s := strayDrop in
  let dt := 0.001 in
  let pre :=
    SPH.integrate dt
      (SPH.computeForces (grid := bruteGrid)
         (SPH.computeNormals (grid := bruteGrid)
            (SPH.computeDensity (grid := bruteGrid)
               (SPH.gridUpdate (grid := bruteGrid) s)))) in
  let s' := SPH.update (grid := bruteGrid) dt s in
  SPH._fluidPositions pre !!! 0%nat = mkVector3f 0 (-2.00100981) 0
  /\ SPH._fluidVelocities pre !!! 0%nat = mkVector3f 0 (-1.00981) 0
  /\ s' = SPH.set_t (SPH._t s + dt)
            (SPH.computeCollisions SPH.collisionHandler pre)
  /\ SPH._fluidPositions s' !!! 0%nat = mkVector3f 0 (-1) 0
  /\ SPH._fluidVelocities s' !!! 0%nat = mkVector3f 0 0.504905 0.
Proof.
  cbv zeta.
  destruct (strayDrop_before_collisions 0.001) as [Hpos Hvel].
  cbv zeta in Hpos, Hvel.
  destruct (collision_response (grid := bruteGrid) strayDrop 0.001 0)
    as (Hupd & _ & Hone & _);
    [simpl; lra | simpl; lra | simpl; lra | reflexivity | simpl; lia |].
  cbv zeta in Hone.
  set (pre := SPH.integrate 0.001 _) in *.
  rewrite Hpos, Hvel in Hone. cbn [lookup_total list_lookup_total] in Hone.
  assert (Hp : SPH._fluidPositions pre !!! 0%nat = mkVector3f 0 (-2.00100981) 0).
  { rewrite Hpos. cbn [lookup_total list_lookup_total]. f_equal. lra. }
  assert (Hv : SPH._fluidVelocities pre !!! 0%nat = mkVector3f 0 (-1.00981) 0).
  { rewrite Hvel. cbn [lookup_total list_lookup_total]. f_equal. lra. }
  split; [exact Hp |]. split; [exact Hv |]. split; [exact Hupd |].
  destruct (Hone YMin) as (_ & Hp' & Hv' & _).
  - simpl. lra.
  - intros g Hg. destruct g; simpl; try lra. contradiction.
  - rewrite Hp', Hv'. split.
    + unfold vadd, vscale. simpl. f_equal; lra.
    + unfold vsub, smul, vscale, dot. simpl. f_equal; lra.
Defined.

(** C5, as the code has it.  [update] takes the timestep as it is given,
    whatever it is.  The elapsed time advances by [dt]; the forces are
    those of the state as it stands, with no part for [dt] in them; the
    integration advances each velocity by F_i (1 / m) dt and each position
    by the new velocity times dt, with that same [dt]; and the collision
    stage responds to the position reached.  Nothing compares [dt] with
    [maxTimestep()]: a step with [dt <= maxTimestep()] is the step with
    [min(dt, maxTimestep())] only because the two timesteps are equal. *)
Theorem update_takes_dt_as_given {Grid : Type} {grid : GridOps Grid}
    (s : SPH.SPH Grid) (dt : R) :
  length (SPH._fluidVelocities s) = length (SPH._fluidPositions s) ->
  let forces :=
    SPH.computeForces
      (SPH.computeNormals (SPH.computeDensity (SPH.gridUpdate s))) in
  let s' := SPH.update dt s in
  SPH._t s' = SPH._t s + dt
  /\ (forall i, (i < length (SPH._fluidPositions s))%nat ->
        let a := (SPH._fluidForces forces !!! i
                  *s (1 / SPH._particleMass s))%V in
        let v := (SPH._fluidVelocities forces !!! i +v a *s dt)%V in
        let x := (SPH._fluidPositions forces !!! i +v v *s dt)%V in
        (SPH._fluidPositions s' !!! i, SPH._fluidVelocities s' !!! i)
        = collideBox (SPH._bounds s) (x, v))
  /\ (dt <= SPH.maxTimestep s ->
      SPH.update dt s = SPH.update (Rmin dt (SPH.maxTimestep s)) s).
Proof.
  intros Hlen forces s'.
  destruct (update_particles dt s Hlen) as [Hupd Hall].
  cbv zeta in Hall. fold forces in Hupd, Hall. fold s' in Hupd, Hall.
  split; [rewrite Hupd; reflexivity |]. split.
  - intros i Hi a v x. destruct (Hall i Hi) as (Hv & Hx & Hresp).
    rewrite Hresp, Hx, Hv. reflexivity.
  - intros Hle. rewrite Rmin_left by exact Hle. reflexivity.
Qed.

(** C5 at the one-particle fluid.  With half the maximum timestep the
    step is also the step with the minimum of the two; with a timestep of
    one second, a thousand times the maximum, the particle is moved for
    the full second: it falls from rest to y = -9.81, and the collision
    stage responds to that position. *)
Lemma update_takes_dt_as_given_witness :
  let s := restingDrop in
  let forces :=
    SPH.computeForces (grid := bruteGrid)
      (SPH.computeNormals (grid := bruteGrid)
         (SPH.computeDensity (grid := bruteGrid)
            (SPH.gridUpdate (grid := bruteGrid) s))) in
  let step (dt : R) := SPH.update (grid := bruteGrid) dt s in
  let moved (dt : R) :=
    let a := (SPH._fluidForces forces !!! 0%nat
              *s (1 / SPH._particleMass s))%V in
    let v := (SPH._fluidVelocities forces !!! 0%nat +v a *s dt)%V in
    ((SPH._fluidPositions forces !!! 0%nat +v v *s dt)%V, v) in
  SPH._t (step 0.0005) = SPH._t s + 0.0005
  /\ (SPH._fluidPositions (step 0.0005) !!! 0%nat,
      SPH._fluidVelocities (step 0.0005) !!! 0%nat)
     = collideBox (SPH._bounds s) (moved 0.0005)
  /\ step 0.0005 = step (Rmin 0.0005 (SPH.maxTimestep s))
  /\ SPH._t (step 1) = SPH._t s + 1
  /\ (SPH._fluidPositions (step 1) !!! 0%nat,
      SPH._fluidVelocities (step 1) !!! 0%nat)
     = collideBox (SPH._bounds s) (moved 1).
Proof.
  cbv zeta.
  destruct (update_takes_dt_as_given (grid := bruteGrid) restingDrop 0.0005)
    as (Ht & Hmove & Hclamp); [reflexivity |].
  destruct (update_takes_dt_as_given (grid := bruteGrid) restingDrop 1)
    as (Ht1 & Hmove1 & _); [reflexivity |].
  cbv zeta in Hmove, Hmove1.
  split; [exact Ht |].
  split; [apply Hmove; simpl; lia |].
  split; [apply Hclamp; simpl; lra |].
  split; [exact Ht1 |].
  apply Hmove1. simpl. lia.
Defined.

(** X21.  From the constructor on, whatever the number of steps and the
    timesteps, the simulator keeps the world box of the scene, its
    parameters and its boundary particles, and every per-particle buffer
    stays as long as the constructor made it: as long as the position
    buffer.  The indices the loops of a step use are therefore always in
    range. *)
Theorem simulation_keeps_its_buffers {Grid VoxelGrid Rng : Type}
    {grid : GridOps Grid} {geometry : Geometry VoxelGrid}
    {random : RandomGen Rng} {meshIO : MeshIO} (scene : Scene)
    (dts : list R) :
  let start := SPH.new (Grid := Grid) (VoxelGrid := VoxelGrid) (Rng := Rng) scene in
  let s := run dts start in
  let n := length (SPH._fluidPositions start) in
  SPH.bounds s = world_bounds scene
  /\ SPH.parameters s = SPH.parameters start
  /\ length (SPH._fluidPositions s) = n
  /\ length (SPH._fluidVelocities s) = n
  /\ length (SPH._fluidNormals s) = n
  /\ length (SPH._fluidForces s) = n
  /\ length (SPH._fluidDensities s) = n
  /\ length (SPH._fluidPressures s) = n
  /\ SPH._boundaryPositions s = SPH._boundaryPositions start
  /\ SPH._boundaryNormals s = SPH._boundaryNormals start.
Proof.
  cbv zeta.
  destruct (new_parameters_derived (Grid := Grid) (VoxelGrid := VoxelGrid)
              (Rng := Rng) scene) as (_ & _ & _ & _ & Hb).
  destruct (new_buffers (Grid := Grid) (VoxelGrid := VoxelGrid)
              (Rng := Rng) scene) as (Hv & Hn & Hf & Hd & Hp & _).
  cbv zeta in Hb, Hv, Hn, Hf, Hd, Hp.
  set (start := SPH.new scene) in *. clearbody start.
  destruct (run_layout dts start)
    as (Hpar & _ & HbP & HbN & Hlp & Hlv & Hln & Hlf & Hld & Hlpr).
  destruct Hpar as (Hprm & _ & _ & _ & _ & _ & _ & Hb').
  unfold SPH.bounds. rewrite Hb', Hb.
  rewrite Hlp, Hlv, Hln, Hlf, Hld, Hlpr, Hv, Hn, Hf, Hd, Hp.
  rewrite !length_replicate.
  repeat split; assumption.
Qed.

(** ** A simulator without fluid *)

Section Dry.
Context {Grid : Type} {grid : GridOps Grid}.
Implicit Types (s st : SPH.SPH Grid).

Lemma swapParticles_dry ij s :
  SPH._fluidPositions s = [] -> SPH._fluidVelocities s = [] ->
  SPH.swapParticles ij s = s.
Proof.
  intros Hp Hv. destruct ij as [i j]. unfold SPH.swapParticles.
  rewrite Hp, Hv. destruct s. simpl in *. subst. reflexivity.
Qed.

End Dry.

(** X22.  A step of a simulator without fluid advances the elapsed time,
    lets the grid update itself over no particle, and does nothing
    else. *)
Theorem update_without_fluid {Grid : Type} {grid : GridOps Grid}
    (s : SPH.SPH Grid) (dt : R) :
  SPH._fluidPositions s = [] -> SPH._fluidVelocities s = [] ->
  SPH.update dt s
  = SPH.set_fluidGrid (grid_update (SPH._fluidGrid s) []).1
      (SPH.set_t (SPH._t s + dt) s).
Proof.
  intros Hp Hv. unfold SPH.update. cbv zeta.
  set (s0 := SPH.set_t (SPH._t s + dt) s).
  assert (Hp0 : SPH._fluidPositions s0 = []) by exact Hp.
  assert (Hv0 : SPH._fluidVelocities s0 = []) by exact Hv.
  assert (Hg0 : SPH._fluidGrid s0 = SPH._fluidGrid s) by reflexivity.
  clearbody s0.
  assert (Hgrid : SPH.gridUpdate s0
                  = SPH.set_fluidGrid (grid_update (SPH._fluidGrid s) []).1 s0).
  { unfold SPH.gridUpdate. rewrite Hp0, Hg0.
    destruct (grid_update (SPH._fluidGrid s) []) as [g swaps]. cbn [fst].
    f_equal. apply (fold_left_preserves (fun st => st = s0)); [reflexivity |].
    intros ij st _ ->. apply swapParticles_dry; assumption. }
  rewrite Hgrid.
  set (s1 := SPH.set_fluidGrid _ s0).
  assert (Hp1 : SPH._fluidPositions s1 = []) by exact Hp0.
  clearbody s1.
  unfold SPH.computeDensity. rewrite Hp1. rewrite forN_empty by (simpl; lia).
  unfold SPH.computeNormals. rewrite Hp1. rewrite forN_empty by (simpl; lia).
  unfold SPH.computeForces. rewrite Hp1. rewrite forN_empty by (simpl; lia).
  unfold SPH.integrate. cbv zeta. rewrite Hp1. rewrite forN_empty by (simpl; lia).
  unfold SPH.computeCollisions. rewrite Hp1. rewrite forN_empty by (simpl; lia).
  reflexivity.
Qed.

(** X22 at a tank without fluid, on a grid that asks for an exchange
    all the same. *)
Lemma update_without_fluid_witness :
  SPH.update (grid := exchangingGrid) 0.001 dryTank
  = SPH.set_fluidGrid
      (grid_update (GridOps := exchangingGrid) (SPH._fluidGrid dryTank) []).1
      (SPH.set_t (SPH._t dryTank + 0.001) dryTank).
Proof.
  apply (update_without_fluid (grid := exchangingGrid) dryTank 0.001);
    reflexivity.
Defined.

(** ** The normal stage *)

Lemma vadd_comm (a b : Vector3f) : (a +v b)%V = (b +v a)%V.
Proof. destruct a, b. unfold vadd. simpl. f_equal; ring. Qed.

Lemma vadd_assoc (a b c : Vector3f) : (a +v (b +v c))%V = (a +v b +v c)%V.
Proof. destruct a, b, c. unfold vadd. simpl. f_equal; ring. Qed.

Lemma vadd_zero_r (a : Vector3f) : (a +v vzero)%V = a.
Proof. destruct a. unfold vadd, vzero, vconst. simpl. f_equal; ring. Qed.

Lemma vsumOver_Permutation (l l' : list nat) (f : nat -> Vector3f) :
  l ≡ₚ l' -> vsumOver l f = vsumOver l' f.
Proof.
  induction 1 as [| j l l' _ IH | j k l | l1 l2 l3 _ IH1 _ IH2]; simpl.
  - reflexivity.
  - rewrite IH. reflexivity.
  - rewrite !vadd_assoc. f_equal. apply vadd_comm.
  - rewrite IH1. exact IH2.
Qed.

Lemma fold_left_vsum (P : nat -> Prop) `{!forall j, Decision (P j)}
    (f : nat -> Vector3f) (l : list nat) (a : Vector3f) :
  fold_left (fun a j => if decide (P j) then (a +v f j)%V else a) l a
  = (a +v vsumOver (filter P l) f)%V.
Proof.
  revert a. induction l as [|j l IH]; intros a; simpl.
  - symmetry. apply vadd_zero_r.
  - rewrite IH, filter_cons. destruct (decide (P j)); simpl; [| reflexivity].
    rewrite vadd_assoc. reflexivity.
Qed.

Section Normals.
Context {Grid : Type} {grid : GridOps Grid}.
Implicit Types (s st : SPH.SPH Grid).

Lemma normalAt_neighbours s i (N : list Vector3f) :
  lookupContract (SPH._fluidGrid s) (SPH._fluidPositions s) (SPH._kernelRadius s) ->
  SPH._kernelRadius2 s = sqr (SPH._kernelRadius s) ->
  SPH.normalAt i (SPH.set_fluidNormals N s)
  = SPH.set_fluidNormals (<[i := neighbourNormal s i]> N) s.
Proof.
  intros Hgrid Hh2. unfold SPH.normalAt, neighbourNormal, SPH.iterateNeighbours.
  cbv zeta.
  cbn [SPH._fluidPositions SPH._fluidGrid SPH._kernelRadius SPH._kernelRadius2
       SPH._fluidDensities SPH._kernel SPH._particleMass SPH._fluidNormals
       SPH.set_fluidNormals].
  destruct (Hgrid (SPH._fluidPositions s !!! i)) as (Hnodup & Hrange & Hcomplete).
  set (P := fun j => squaredNorm (SPH._fluidPositions s !!! i
                                  -v SPH._fluidPositions s !!! j)
                     < SPH._kernelRadius2 s).
  set (f := fun j =>
         (poly6Grad (SPH._kernel s)
            (SPH._fluidPositions s !!! i -v SPH._fluidPositions s !!! j)
            (squaredDistance s i j)
          /s SPH._fluidDensities s !!! j)%V).
  assert (Hsum : fold_left (fun a j => if decide (P j) then (a +v f j)%V else a)
                   (grid_lookup (SPH._fluidGrid s) (SPH._fluidPositions s !!! i)
                      (SPH._kernelRadius s)) vzero
                 = vsumOver (neighbours s i) f).
  { rewrite fold_left_vsum. unfold neighbours. fold P.
    rewrite vadd_comm, vadd_zero_r.
    apply vsumOver_Permutation, filter_visited; [exact Hnodup | exact Hrange |].
    intros j Hj HP. apply Hcomplete; [exact Hj |].
    unfold P in HP. rewrite <- Hh2. exact HP. }
  unfold P, f, squaredDistance in Hsum. rewrite Hsum.
  destruct s. reflexivity.
Qed.

Lemma computeNormals_neighbours s :
  lookupContract (SPH._fluidGrid s) (SPH._fluidPositions s) (SPH._kernelRadius s) ->
  SPH._kernelRadius2 s = sqr (SPH._kernelRadius s) ->
  length (SPH._fluidNormals s) = length (SPH._fluidPositions s) ->
  exists N,
    SPH.computeNormals s = SPH.set_fluidNormals N s
    /\ length N = length (SPH._fluidPositions s)
    /\ forall i, (i < length (SPH._fluidPositions s))%nat ->
                 N !!! i = neighbourNormal s i.
Proof.
  intros Hgrid Hh2 Hlen. unfold SPH.computeNormals.
  set (size := length (SPH._fluidPositions s)) in *.
  apply (forN_ind (fun k st => exists N,
           st = SPH.set_fluidNormals N s /\ length N = size
           /\ forall i, (i < k)%nat -> N !!! i = neighbourNormal s i));
    [lia | |].
  - exists (SPH._fluidNormals s). split; [destruct s; reflexivity |].
    split; [exact Hlen |]. intros i Hi. lia.
  - intros k st Hk (N & -> & HN & Hdone).
    rewrite normalAt_neighbours by assumption.
    eexists. split; [reflexivity |]. rewrite length_insert.
    split; [exact HN |].
    intros i Hi. destruct (decide (i = k)) as [-> | Hne].
    + rewrite list_lookup_total_insert_eq by lia. reflexivity.
    + rewrite list_lookup_total_insert_ne by auto. apply Hdone. lia.
Qed.

End Normals.

(** X23.  The normal stage stores for each fluid particle i the sum, over
    the particles j within the kernel radius, of the gradient of poly6 at
    x_i - x_j divided by the density of j, scaled by h m and the constant
    of the gradient; it writes the normals and nothing else.  The grid
    meets its contract and h^2 is the cached square of h. *)
Theorem normal_stage {Grid : Type} {grid : GridOps Grid} (s : SPH.SPH Grid) :
  lookupContract (SPH._fluidGrid s) (SPH._fluidPositions s) (SPH._kernelRadius s) ->
  SPH._kernelRadius2 s = sqr (SPH._kernelRadius s) ->
  length (SPH._fluidNormals s) = length (SPH._fluidPositions s) ->
  let s' := SPH.computeNormals s in
  s' = SPH.set_fluidNormals (SPH._fluidNormals s') s
  /\ length (SPH._fluidNormals s') = length (SPH._fluidPositions s)
  /\ forall i, (i < length (SPH._fluidPositions s))%nat ->
               SPH._fluidNormals s' !!! i = neighbourNormal s i.
Proof.
  intros Hgrid Hh2 Hlen. cbv zeta.
  destruct (computeNormals_neighbours s Hgrid Hh2 Hlen) as (N & -> & HN & Hall).
  destruct s. simpl in *. auto.
Qed.

(** X23 at the fluid of two particles 0.02 apart. *)
Lemma normal_stage_witness :
  let s := twoDrops in
  let s' := SPH.computeNormals (grid := bruteGrid) s in
  s' = SPH.set_fluidNormals (SPH._fluidNormals s') s
  /\ length (SPH._fluidNormals s') = length (SPH._fluidPositions s)
  /\ forall i, (i < length (SPH._fluidPositions s))%nat ->
               SPH._fluidNormals s' !!! i = neighbourNormal s i.
Proof.
  apply (normal_stage (grid := bruteGrid) twoDrops).
  - apply (bruteGrid_contract (SPH._fluidPositions twoDrops)).
  - reflexivity.
  - reflexivity.
Defined.

(** ** Mesh surfaces: the normals *)

Section MeshNormals.
Import ParticleGenerator.
Context {VoxelGrid Rng : Type}.
Context {geometry : Geometry VoxelGrid} {random : RandomGen Rng}.

Lemma orientNormals_lookup (sdf : VoxelGrid) (pts : list Vector3f) (i : nat) :
  (i < length pts)%nat ->
  orientNormals sdf pts !!! i
  = normalized (gradient sdf (toVoxelSpace sdf (pts !!! i))).
Proof.
  intros Hi. unfold orientNormals.
  assert (H : let nrm :=
                forN 0 (length pts) (fun i nrm =>
                  <[i := normalized (gradient sdf (toVoxelSpace sdf (pts !!! i)))]> nrm)
                  (replicate (length pts) vzero) in
              length nrm = length pts
              /\ forall j, (j < length pts)%nat ->
                   nrm !!! j
                   = normalized (gradient sdf (toVoxelSpace sdf (pts !!! j)))).
  { cbv zeta.
    apply (forN_ind (fun k nrm =>
             length nrm = length pts
             /\ forall j, (j < k)%nat ->
                  nrm !!! j
                  = normalized (gradient sdf (toVoxelSpace sdf (pts !!! j)))));
      [lia | split; [apply length_replicate | intros j Hj; lia] |].
    intros k nrm Hk [Hlen Hdone]. rewrite length_insert.
    split; [exact Hlen |]. intros j Hj.
    destruct (decide (j = k)) as [-> | Hne].
    - rewrite list_lookup_total_insert_eq by lia. reflexivity.
    - rewrite list_lookup_total_insert_ne by auto. apply Hdone. lia. }
  cbv zeta in H. destruct H as [_ H]. apply H, Hi.
Qed.

End MeshNormals.

(** X24.  The normal the mesh generator returns for a particle is the
    normalised gradient of the signed distance field at the position it
    returns for that particle; it has length 1 wherever that gradient does
    not vanish. *)
Theorem mesh_normals_are_unit {VoxelGrid Rng : Type}
    {geometry : Geometry VoxelGrid} {random : RandomGen Rng}
    (mesh : Mesh) (particleRadius : R) (cells : Z) (i : nat) :
  let res :=
    ParticleGenerator.generateSurfaceParticles_mesh
      (VoxelGrid := VoxelGrid) (Rng := Rng) mesh particleRadius cells in
  let sdf := meshField (VoxelGrid := VoxelGrid) mesh cells in
  (i < length (ParticleGenerator.positions res))%nat ->
  let g :=
    gradient sdf (toVoxelSpace sdf (ParticleGenerator.positions res !!! i)) in
  ParticleGenerator.normals res !!! i = normalized g
  /\ (0 < squaredNorm g ->
      squaredNorm (ParticleGenerator.normals res !!! i) = 1).
Proof.
  cbv zeta. unfold ParticleGenerator.generateSurfaceParticles_mesh, meshField.
  cbv zeta. cbn [ParticleGenerator.normals ParticleGenerator.positions].
  match goal with
  | |- context [ParticleGenerator.orientNormals ?sdf ?pts] =>
      generalize pts as pts0; generalize sdf as sdf0
  end.
  intros sdf0 pts0 Hi.
  rewrite orientNormals_lookup by exact Hi.
  split; [reflexivity |]. apply squaredNorm_normalized.
Qed.

(** X24 at the triangle mesh over the plane z = 0, at particle radius 0.36
    and for the first of its two particles: the gradient is (0, 0, 1). *)
Lemma mesh_normals_are_unit_witness :
  let res :=
    ParticleGenerator.generateSurfaceParticles_mesh
      (geometry := planeGeometry) (random := pcg32_random)
      triangleMesh 0.36 500 in
  ParticleGenerator.normals res !!! 0%nat = normalized (mkVector3f 0 0 1)
  /\ squaredNorm (ParticleGenerator.normals res !!! 0%nat) = 1.
Proof.
  cbv zeta.
  destruct (mesh_result_lengths (geometry := planeGeometry)
              (random := pcg32_random) triangleMesh 0.36 500) as [Hpos _].
  cbv zeta in Hpos. rewrite triangleMesh_seeds in Hpos.
  destruct (mesh_normals_are_unit (geometry := planeGeometry)
              (random := pcg32_random) triangleMesh 0.36 500 0)
    as [Hn Hunit]; [rewrite Hpos; lia |].
  split; [exact Hn |]. apply Hunit.
  unfold squaredNorm, dot. simpl. lra.
Defined.

(** ** Free fall *)

Lemma weight_over_mass (m : R) (g : Vector3f) :
  m <> 0 -> (smul m g *s (1 / m))%V = g.
Proof.
  intros Hm. destruct g as [gx gy gz]. unfold smul, vscale. simpl.
  f_equal; field; exact Hm.
Qed.

(** X25.  Particles out of reach of each other fall freely: after the
    force stage and the integration stage each velocity has advanced by
    g dt, whatever the mass (other than 0), and each position by the new
    velocity times dt. *)
Theorem isolated_particles_fall_freely {Grid : Type} {grid : GridOps Grid}
    (s : SPH.SPH Grid) (dt : R) :
  0 < SPH._kernelRadius2 s ->
  SPH._particleMass s <> 0 ->
  length (SPH._fluidForces s) = length (SPH._fluidPositions s) ->
  length (SPH._fluidVelocities s) = length (SPH._fluidPositions s) ->
  (forall i j,
     (i < length (SPH._fluidPositions s))%nat ->
     j ∈ grid_lookup (SPH._fluidGrid s) (SPH._fluidPositions s !!! i)
           (SPH._kernelRadius s) ->
     j = i \/ SPH._kernelRadius2 s <= squaredDistance s i j) ->
  let s' := SPH.integrate dt (SPH.computeForces s) in
  forall i, (i < length (SPH._fluidPositions s))%nat ->
    SPH._fluidVelocities s' !!! i
    = (SPH._fluidVelocities s !!! i +v SPH._gravity s *s dt)%V
    /\ SPH._fluidPositions s' !!! i
       = (SPH._fluidPositions s !!! i +v SPH._fluidVelocities s' !!! i *s dt)%V.
Proof.
  intros Hh Hm HlenF HlenV Hfar. cbv zeta.
  rewrite (computeForces_isolated s Hh HlenF Hfar).
  set (n := length (SPH._fluidPositions s)) in *.
  set (s1 := SPH.set_fluidForces _ s).
  destruct (integrate_euler s1 dt) as (P & V & -> & HP & HV & Hall);
    [exact HlenV |].
  cbv zeta in Hall. intros i Hi. destruct (Hall i Hi) as [HVi HPi].
  unfold s1 in HVi, HPi.
  cbn [SPH._fluidPositions SPH._fluidVelocities SPH._fluidForces
       SPH._particleMass SPH.set_fluidForces SPH.set_fluidPositions
       SPH.set_fluidVelocities] in *.
  rewrite lookup_total_replicate_2 in HVi, HPi by exact Hi.
  rewrite weight_over_mass in HVi, HPi by exact Hm.
  rewrite HPi, HVi. auto.
Qed.

(** X25 at the second of two particles half a metre apart, with a step
    of 0.001. *)
Lemma isolated_particles_fall_freely_witness :
  let s := farDrops in
  let dt := 0.001 in
  let i := 1%nat in
  let s' := SPH.integrate dt (SPH.computeForces (grid := bruteGrid) s) in
  SPH._fluidVelocities s' !!! i
  = (SPH._fluidVelocities s !!! i +v SPH._gravity s *s dt)%V
  /\ SPH._fluidPositions s' !!! i
     = (SPH._fluidPositions s !!! i +v SPH._fluidVelocities s' !!! i *s dt)%V.
Proof.
  apply (isolated_particles_fall_freely (grid := bruteGrid) farDrops 0.001).
  - simpl. unfold sqr. lra.
  - simpl. unfold cube. lra.
  - reflexivity.
  - reflexivity.
  - intros i j Hi Hj. simpl in Hi. simpl in Hj.
    destruct (decide (j = i)) as [-> | Hne]; [left; reflexivity | right].
    assert (Hj' : (j < 2)%nat).
    { apply (elem_of_seq 0 2 j) in Hj. lia. }
    assert (Hcase : (i = 0 /\ j = 1)%nat \/ (i = 1 /\ j = 0)%nat) by lia.
    destruct Hcase as [[-> ->] | [-> ->]];
      unfold squaredDistance, squaredNorm, dot, vsub; simpl; unfold sqr; lra.
  - simpl. lia.
Defined.

(** ** Box surfaces: no gap *)

Lemma fold_left_reaches {A S : Type} (I : S -> Prop) (f : S -> A -> S)
    (l : list A) (a : A) (s : S) :
  a ∈ l ->
  (forall st, I (f st a)) ->
  (forall b st, I st -> I (f st b)) ->
  I (fold_left f l s).
Proof.
  intros Ha Hhit Hmono. revert s. induction l as [|b l IH]; intros s.
  - apply elem_of_nil in Ha. contradiction.
  - simpl. apply elem_of_cons in Ha as [<- | Ha].
    + apply (fold_left_preserves I); [apply Hhit |]. intros c st _. apply Hmono.
    + apply IH, Ha.
Qed.

(** A loop reaches an invariant that one of its iterations establishes
    and the others keep. *)
Lemma forZ_reaches {S : Type} (I : S -> Prop) (lo hi k : Z)
    (body : Z -> S -> S) (s : S) :
  (lo <= k < hi)%Z ->
  (forall st, I (body k st)) ->
  (forall j st, I st -> I (body j st)) ->
  I (forZ lo hi body s).
Proof.
  intros Hk Hhit Hmono. unfold forZ.
  apply (fold_left_reaches I _ _ k); [apply elem_of_zrange; exact Hk | |];
    assumption.
Qed.

Section BoxCover.
Import ParticleGenerator.
Variables (origin d : Vector3f) (normalScale : R) (nx ny nz : Z).

#[local] Abbreviation point x y z := (origin +v cwiseProduct (vofZ x y z) d)%V.
#[local] Abbreviation emits res p := (p ∈ positions res).

Lemma addParticle_hit x y z n res :
  emits (addParticle origin d normalScale x y z n res) (point x y z).
Proof. simpl. apply elem_of_app. right. apply list_elem_of_singleton. reflexivity. Qed.

Lemma addParticle_keeps x y z n res p :
  emits res p -> emits (addParticle origin d normalScale x y z n res) p.
Proof. intros H. simpl. apply elem_of_app. left. exact H. Qed.

Ltac keeps :=
  repeat first [ assumption
               | apply addParticle_keeps
               | apply forZ_preserves; [| intros ? ? _ ?] ].

Ltac hits := repeat first [ apply addParticle_hit | apply addParticle_keeps ].

Lemma xyPlanes_keeps res p :
  emits res p -> emits (xyPlanes origin d normalScale nx ny nz res) p.
Proof. intros H. unfold xyPlanes. keeps. Qed.

Lemma xzPlanes_keeps res p :
  emits res p -> emits (xzPlanes origin d normalScale nx ny nz res) p.
Proof. intros H. unfold xzPlanes. keeps. Qed.

Lemma yzPlanes_keeps res p :
  emits res p -> emits (yzPlanes origin d normalScale nx ny nz res) p.
Proof. intros H. unfold yzPlanes. keeps. Qed.

Lemma xBorders_keeps res p :
  emits res p -> emits (xBorders origin d normalScale nx ny nz res) p.
Proof. intros H. unfold xBorders. keeps. Qed.

Lemma yBorders_keeps res p :
  emits res p -> emits (yBorders origin d normalScale nx ny nz res) p.
Proof. intros H. unfold yBorders. keeps. Qed.

Lemma zBorders_keeps res p :
  emits res p -> emits (zBorders origin d normalScale nx ny nz res) p.
Proof. intros H. unfold zBorders. keeps. Qed.

Lemma corners_keeps res p :
  emits res p -> emits (corners origin d normalScale nx ny nz res) p.
Proof. intros H. unfold corners. keeps. Qed.

Lemma xyPlanes_hits res x y z :
  (1 <= x < nx)%Z -> (1 <= y < ny)%Z -> z = 0%Z \/ z = nz ->
  emits (xyPlanes origin d normalScale nx ny nz res) (point x y z).
Proof.
  intros Hx Hy Hz. unfold xyPlanes.
  apply (forZ_reaches (fun r => emits r (point x y z)) 1 nx x); [exact Hx | |].
  - intros st.
    apply (forZ_reaches (fun r => emits r (point x y z)) 1 ny y); [exact Hy | |].
    + intros st'. destruct Hz as [-> | ->]; hits.
    + intros j st' H. keeps.
  - intros j st H. keeps.
Qed.

Lemma xzPlanes_hits res x y z :
  (1 <= x < nx)%Z -> (1 <= z < nz)%Z -> y = 0%Z \/ y = ny ->
  emits (xzPlanes origin d normalScale nx ny nz res) (point x y z).
Proof.
  intros Hx Hz Hy. unfold xzPlanes.
  apply (forZ_reaches (fun r => emits r (point x y z)) 1 nx x); [exact Hx | |].
  - intros st.
    apply (forZ_reaches (fun r => emits r (point x y z)) 1 nz z); [exact Hz | |].
    + intros st'. destruct Hy as [-> | ->]; hits.
    + intros j st' H. keeps.
  - intros j st H. keeps.
Qed.

Lemma yzPlanes_hits res x y z :
  (1 <= y < ny)%Z -> (1 <= z < nz)%Z -> x = 0%Z \/ x = nx ->
  emits (yzPlanes origin d normalScale nx ny nz res) (point x y z).
Proof.
  intros Hy Hz Hx. unfold yzPlanes.
  apply (forZ_reaches (fun r => emits r (point x y z)) 1 ny y); [exact Hy | |].
  - intros st.
    apply (forZ_reaches (fun r => emits r (point x y z)) 1 nz z); [exact Hz | |].
    + intros st'. destruct Hx as [-> | ->]; hits.
    + intros j st' H. keeps.
  - intros j st H. keeps.
Qed.

Lemma xBorders_hits res x y z :
  (1 <= x < nx)%Z -> y = 0%Z \/ y = ny -> z = 0%Z \/ z = nz ->
  emits (xBorders origin d normalScale nx ny nz res) (point x y z).
Proof.
  intros Hx Hy Hz. unfold xBorders.
  apply (forZ_reaches (fun r => emits r (point x y z)) 1 nx x); [exact Hx | |].
  - intros st. destruct Hy as [-> | ->], Hz as [-> | ->]; hits.
  - intros j st H. keeps.
Qed.

Lemma yBorders_hits res x y z :
  (1 <= y < ny)%Z -> x = 0%Z \/ x = nx -> z = 0%Z \/ z = nz ->
  emits (yBorders origin d normalScale nx ny nz res) (point x y z).
Proof.
  intros Hy Hx Hz. unfold yBorders.
  apply (forZ_reaches (fun r => emits r (point x y z)) 1 ny y); [exact Hy | |].
  - intros st. destruct Hx as [-> | ->], Hz as [-> | ->]; hits.
  - intros j st H. keeps.
Qed.

Lemma zBorders_hits res x y z :
  (1 <= z < nz)%Z -> x = 0%Z \/ x = nx -> y = 0%Z \/ y = ny ->
  emits (zBorders origin d normalScale nx ny nz res) (point x y z).
Proof.
  intros Hz Hx Hy. unfold zBorders.
  apply (forZ_reaches (fun r => emits r (point x y z)) 1 nz z); [exact Hz | |].
  - intros st. destruct Hx as [-> | ->], Hy as [-> | ->]; hits.
  - intros j st H. keeps.
Qed.

Lemma corners_hits res (bx b_y bz : bool) :
  emits (corners origin d normalScale nx ny nz res)
    (point (if bx then 0%Z else nx) (if b_y then 0%Z else ny)
           (if bz then 0%Z else nz)).
Proof.
  unfold corners.
  apply (forZ_reaches
           (fun r => emits r (point (if bx then 0%Z else nx)
                                    (if b_y then 0%Z else ny)
                                    (if bz then 0%Z else nz)))
           0 8 (Z.b2z bx + 2 * Z.b2z b_y + 4 * Z.b2z bz)).
  - destruct bx, b_y, bz; simpl; lia.
  - intros st.
    destruct bx, b_y, bz; cbv zeta; unfold ternary; simpl;
      apply elem_of_app; right; apply list_elem_of_singleton; reflexivity.
  - intros j st H. cbv zeta. keeps.
Qed.

Lemma boxParticles_cover x y z :
  onSurface nx ny nz x y z ->
  emits (boxParticles origin d normalScale nx ny nz) (point x y z).
Proof.
  intros (Hx & Hy & Hz & Hface). unfold boxParticles.
  assert (Bx : (1 <= x < nx)%Z \/ (x = 0%Z \/ x = nx)) by lia.
  assert (By : (1 <= y < ny)%Z \/ (y = 0%Z \/ y = ny)) by lia.
  assert (Bz : (1 <= z < nz)%Z \/ (z = 0%Z \/ z = nz)) by lia.
  destruct Bx as [Ix | Ex], By as [Iy | Ey], Bz as [Iz | Ez].
  - exfalso. lia.
  - apply corners_keeps, zBorders_keeps, yBorders_keeps, xBorders_keeps,
      yzPlanes_keeps, xzPlanes_keeps, xyPlanes_hits; assumption.
  - apply corners_keeps, zBorders_keeps, yBorders_keeps, xBorders_keeps,
      yzPlanes_keeps, xzPlanes_hits; assumption.
  - apply corners_keeps, zBorders_keeps, yBorders_keeps, xBorders_hits;
      assumption.
  - apply corners_keeps, zBorders_keeps, yBorders_keeps, xBorders_keeps,
      yzPlanes_hits; assumption.
  - apply corners_keeps, zBorders_keeps, yBorders_hits; assumption.
  - apply corners_keeps, zBorders_hits; assumption.
  - assert (Hc : exists bx b_y bz : bool,
               x = (if bx then 0%Z else nx) /\ y = (if b_y then 0%Z else ny)
               /\ z = (if bz then 0%Z else nz)).
    { destruct Ex as [-> | ->], Ey as [-> | ->], Ez as [-> | ->];
        [ exists true, true, true | exists true, true, false
        | exists true, false, true | exists true, false, false
        | exists false, true, true | exists false, true, false
        | exists false, false, true | exists false, false, false ]; auto. }
    destruct Hc as (bx & b_y & bz & -> & -> & ->). apply corners_hits.
Qed.

End BoxCover.

(** X26.  The box generator leaves no gap: every index (x, y, z) of the
    lattice with 0 <= x <= nx, 0 <= y <= ny, 0 <= z <= nz that has a
    coordinate on a face of the box has its point among the positions. *)
Theorem box_surface_is_covered (box : Box3f) (particleRadius : R)
    (x y z : Z) :
  let res := ParticleGenerator.generateSurfaceParticles_box box particleRadius in
  let nx := Zceil (vx (extents box) / (2 * particleRadius)) in
  let ny := Zceil (vy (extents box) / (2 * particleRadius)) in
  let nz := Zceil (vz (extents box) / (2 * particleRadius)) in
  let d := cwiseQuotient (extents box) (vofZ nx ny nz) in
  onSurface nx ny nz x y z ->
  (box_min box +v cwiseProduct (vofZ x y z) d)%V
  ∈ ParticleGenerator.positions res.
Proof.
  cbv zeta. intros Hs.
  unfold ParticleGenerator.generateSurfaceParticles_box. cbv zeta.
  apply boxParticles_cover, Hs.
Qed.

(** X26 at a corner of the unit box, for radius 0.05. *)
Lemma box_surface_is_covered_witness :
  let box := unitBox in
  let particleRadius := 0.05 in
  let res := ParticleGenerator.generateSurfaceParticles_box box particleRadius in
  let nx := Zceil (vx (extents box) / (2 * particleRadius)) in
  let ny := Zceil (vy (extents box) / (2 * particleRadius)) in
  let nz := Zceil (vz (extents box) / (2 * particleRadius)) in
  let d := cwiseQuotient (extents box) (vofZ nx ny nz) in
  (box_min box +v cwiseProduct (vofZ 0 0 0) d)%V
  ∈ ParticleGenerator.positions res.
Proof.
  apply (box_surface_is_covered unitBox 0.05 0 0 0).
  destruct unitBox_counts as (-> & -> & ->). unfold onSurface. lia.
Defined.

(** ** The fluid the constructor makes *)

Section Fluid.
Context {Grid VoxelGrid Rng : Type}.
Context {grid : GridOps Grid} {geometry : Geometry VoxelGrid}.
Context {random : RandomGen Rng} {meshIO : MeshIO}.
Implicit Types (s st : SPH.SPH Grid).

(** A run of volumes, each appending the lattice points inside it. *)
Lemma fold_volumes {A : Type} (vox : A -> SPH.SPH Grid -> SPH.SPH Grid)
    (inside : A -> Vector3f -> Prop) (good : A -> Prop) (d : R)
    (l : list A) s :
  (forall a st, good a -> SPH._particleDiameter st = d ->
     exists added,
       vox a st = SPH.set_fluidPositions (SPH._fluidPositions st ++ added) st
       /\ forall p, p ∈ added <-> inside a p /\ onLattice d p) ->
  (forall a, a ∈ l -> good a) ->
  SPH._particleDiameter s = d ->
  let s' := fold_left (fun st a => vox a st) l s in
  SPH._particleDiameter s' = d
  /\ forall p, p ∈ SPH._fluidPositions s'
               <-> p ∈ SPH._fluidPositions s
                   \/ (onLattice d p /\ exists a, a ∈ l /\ inside a p).
Proof.
  intros Hvox. revert s. induction l as [|a l IH]; intros s Hgood Hd; simpl.
  - split; [exact Hd |]. intros p. split; [auto |].
    intros [H | (_ & a & Ha & _)]; [exact H |].
    apply elem_of_nil in Ha. contradiction.
  - destruct (Hvox a s) as (added & Heq & Hadded);
      [apply Hgood; left | exact Hd |].
    destruct (IH (vox a s)) as [Hd' Hin].
    + intros b Hb. apply Hgood. right. exact Hb.
    + rewrite Heq. exact Hd.
    + split; [exact Hd' |]. intros p. rewrite Hin, Heq.
      cbn [SPH._fluidPositions SPH.set_fluidPositions].
      rewrite elem_of_app, Hadded. split.
      * intros [[H | [Hia Hlat]] | (Hlat & b & Hb & Hib)].
        -- left. exact H.
        -- right. split; [exact Hlat |]. exists a. split; [left | exact Hia].
        -- right. split; [exact Hlat |]. exists b. split; [right |]; assumption.
      * intros [H | (Hlat & b & Hb & Hib)]; [left; left; exact H |].
        apply elem_of_cons in Hb as [-> | Hb].
        -- left. right. split; assumption.
        -- right. split; [exact Hlat |]. exists b. split; assumption.
Qed.

Lemma voxelizeMesh_boundary_fluid sceneMesh s :
  type sceneMesh = Boundary ->
  SPH._fluidPositions
    (SPH.voxelizeMesh (VoxelGrid := VoxelGrid) (Rng := Rng) sceneMesh s)
  = SPH._fluidPositions s.
Proof. intros H. unfold SPH.voxelizeMesh. rewrite H. reflexivity. Qed.

End Fluid.

(** X27.  With a positive particle radius r, spheres of radius at least 0
    and no liquid mesh, the fluid the constructor makes consists of the
    points of the lattice of spacing 2r that lie in a box or within a
    sphere of the scene, and of nothing else. *)
Theorem constructor_fills_the_volumes {Grid VoxelGrid Rng : Type}
    {grid : GridOps Grid} {geometry : Geometry VoxelGrid}
    {random : RandomGen Rng} {meshIO : MeshIO} (scene : Scene) :
  let r := getFloat scene "particleRadius" 0.01 in
  0 < r ->
  (forall sphere, sphere ∈ spheres scene -> 0 <= sphere.2) ->
  (forall mesh, mesh ∈ meshes scene -> type mesh = Boundary) ->
  forall p,
    p ∈ SPH._fluidPositions
          (SPH.new (Grid := Grid) (VoxelGrid := VoxelGrid) (Rng := Rng) scene)
    <-> onLattice (2 * r) p
        /\ ((exists box, box ∈ boxes scene /\ inBox box p)
            \/ (exists sphere, sphere ∈ spheres scene
                               /\ inBall sphere.1 sphere.2 p)).
Proof.
  intros r Hr Hspheres Hmeshes p. unfold SPH.new. cbv zeta. fold r.
  clearbody r.
  match goal with
  | |- context [fold_left _ (boxes scene) ?s0] => set (this0 := s0)
  end.
  set (this1 := fold_left _ (boxes scene) this0).
  set (this2 := fold_left _ (spheres scene) this1).
  set (this3 := fold_left _ (meshes scene) this2).
  cbn [SPH._fluidPositions SPH.set_fluidPressures SPH.set_fluidDensities
       SPH.set_fluidForces SPH.set_fluidNormals SPH.set_fluidVelocities
       SPH.addBoundaryParticles SPH.set_boundaryNormals
       SPH.set_boundaryPositions].
  assert (H3 : SPH._fluidPositions this3 = SPH._fluidPositions this2).
  { unfold this3.
    apply (fold_left_preserves
             (fun st => SPH._fluidPositions st = SPH._fluidPositions this2));
      [reflexivity |].
    intros mesh st Hmesh Hst.
    rewrite voxelizeMesh_boundary_fluid by (apply Hmeshes, Hmesh). exact Hst. }
  rewrite H3.
  destruct (fold_volumes (fun box st => SPH.voxelizeBox box st)
              (fun box q => inBox box q) (fun _ => True) (2 * r)
              (boxes scene) this0) as [Hd1 Hin1]; [| auto | reflexivity |].
  { intros box st _ Hd.
    destruct (voxelizeBox_lattice box st) as (added & Heq & _ & Hin);
      [rewrite Hd; lra |].
    exists added. split; [exact Heq |]. rewrite <- Hd. exact Hin. }
  fold this1 in Hd1, Hin1.
  destruct (fold_volumes
              (fun (sphere : Vector3f * R) st =>
                 SPH.voxelizeSphere sphere.1 sphere.2 st)
              (fun sphere q => inBall sphere.1 sphere.2 q)
              (fun sphere => 0 <= sphere.2) (2 * r)
              (spheres scene) this1) as [_ Hin2];
    [| exact Hspheres | exact Hd1 |].
  { intros sphere st Hrad Hd.
    destruct (voxelizeSphere_lattice sphere.1 sphere.2 st)
      as (added & Heq & _ & Hin); [rewrite Hd; lra | exact Hrad |].
    exists added. split; [exact Heq |]. rewrite <- Hd. exact Hin. }
  fold this2 in Hin2. rewrite Hin2, Hin1.
  cbn [SPH._fluidPositions this0]. rewrite elem_of_nil. tauto.
Qed.

(** X27 at the scene with a cube of fluid, for the origin. *)
Lemma constructor_fills_the_volumes_witness :
  let r := getFloat poolScene "particleRadius" 0.01 in
  let p := mkVector3f 0 0 0 in
  p ∈ SPH._fluidPositions
        (SPH.new (grid := bruteGrid) (geometry := planeGeometry)
           (random := constantRng 0.9) (meshIO := noMeshes) poolScene)
  <-> onLattice (2 * r) p
      /\ ((exists box, box ∈ boxes poolScene /\ inBox box p)
          \/ (exists sphere, sphere ∈ spheres poolScene
                             /\ inBall sphere.1 sphere.2 p)).
Proof.
  refine (constructor_fills_the_volumes (grid := bruteGrid)
            (geometry := planeGeometry) (random := constantRng 0.9)
            (meshIO := noMeshes) poolScene _ _ _ (mkVector3f 0 0 0)).
  - replace (getFloat poolScene "particleRadius" 0.01) with 0.01
      by reflexivity.
    lra.
  - intros sphere Hs. simpl in Hs. apply elem_of_nil in Hs. contradiction.
  - intros mesh Hm. simpl in Hm. apply elem_of_nil in Hm. contradiction.
Defined.

(** ** Elapsed time *)

(** X28.  Over a run of steps the elapsed time advances by the sum of the
    timesteps given, each taken as it is. *)
Theorem elapsed_time_accumulates {Grid : Type} {grid : GridOps Grid}
    (dts : list R) (s : SPH.SPH Grid) :
  SPH._t (run dts s) = SPH._t s + totalTime dts.
Proof.
  revert s. induction dts as [|dt dts IH]; intros s; simpl.
  - unfold run. simpl. lra.
  - unfold run in *. simpl. rewrite IH.
    destruct (update_shape dt s) as (_ & _ & _ & Ht). rewrite Ht. simpl. lra.
Qed.

(** ** Mesh surfaces: small triangles and sparse seeds *)



Section SparseSeeds.
Import ParticleGenerator.
Context {VoxelGrid Rng : Type}.
Context {geometry : Geometry VoxelGrid} {random : RandomGen Rng}.

Lemma relaxPair_far radius2 i j (st : Relax) :
  radius2 <= squaredNorm (points st !!! j -v points st !!! i) ->
  relaxPair radius2 i j st = st.
Proof.
  intros Hfar. unfold relaxPair. cbv zeta.
  rewrite decide_False by lra. reflexivity.
Qed.

Lemma relaxPositions_sparse radius2 (pts : list Vector3f) :
  (forall i j, (i < j < length pts)%nat ->
               radius2 <= squaredNorm (pts !!! j -v pts !!! i)) ->
  let st0 := {| points := pts;
                velocities := replicate (length pts) vzero;
                count := 0%Z |} in
  relaxPositions radius2 st0 = st0.
Proof.
  intros Hfar st0. unfold relaxPositions. cbn [points st0].
  apply (forN_preserves (fun st => st = st0)); [reflexivity |].
  intros i st Hi ->. cbv zeta.
  assert (Hinner : forN (i + 1) (length pts) (relaxPair radius2 i) st0 = st0).
  { apply (forN_preserves (fun st => st = st0)); [reflexivity |].
    intros j st Hj ->. apply relaxPair_far. apply Hfar. cbn [points st0]. lia. }
  rewrite Hinner. unfold st0. cbn [points velocities count].
  rewrite lookup_total_replicate_2 by lia.
  rewrite vadd_zero_r, insert_lookup_total_id by lia. reflexivity.
Qed.

End SparseSeeds.

(** X30.  Points that are pairwise at least the relaxation radius apart
    do not push each other: a relaxation iteration leaves them where they
    are and only reprojects them onto the surface. *)
Theorem sparse_points_are_only_reprojected {VoxelGrid : Type}
    {geometry : Geometry VoxelGrid} (sdf : VoxelGrid) (radius2 : R)
    (pts : list Vector3f) :
  (forall i j, (i < j < length pts)%nat ->
               radius2 <= squaredNorm (pts !!! j -v pts !!! i)) ->
  ParticleGenerator.relaxIteration sdf radius2 pts
  = ParticleGenerator.reproject sdf pts.
Proof.
  intros Hfar. unfold ParticleGenerator.relaxIteration. cbv zeta.
  rewrite (relaxPositions_sparse radius2 pts Hfar). reflexivity.
Qed.

(** X30 at two points a unit apart with a squared radius of 0.25. *)
Lemma sparse_points_are_only_reprojected_witness :
  ParticleGenerator.relaxIteration (geometry := planeGeometry) tt 0.25
    [mkVector3f 0 0 0; mkVector3f 1 0 0]
  = ParticleGenerator.reproject (geometry := planeGeometry) tt
      [mkVector3f 0 0 0; mkVector3f 1 0 0].
Proof.
  apply (sparse_points_are_only_reprojected (geometry := planeGeometry) tt 0.25
           [mkVector3f 0 0 0; mkVector3f 1 0 0]).
  intros i j Hij. simpl in Hij.
  assert (Hcase : (i = 0 /\ j = 1)%nat) by lia. destruct Hcase as [-> ->].
  unfold squaredNorm, dot, vsub. simpl. lra.
Defined.
